(** * Legal triage engine: a shallow embedding of the routing pipeline

    The development follows the server sources:
    - [triageEngine]    (rule matcher, missing-field policy),
    - [fuzzyMatcher]    (term normaliser),
    - [dynamicRouter]   (specialist scorer and selection),
    - [aiAgent]         (intent classifier, orchestrator, the agent's reply),
    - [employeeContext] (enrichment with the employee profile),
    - [observability]   (the storage of traces),
    - [index]           (the chat route),
    - [metrics]         (the collector),
    - [emailWebhook] and [emailProcessor] (incoming email),
    - [embeddings]      (cutting a text into chunks).

    JavaScript strings are modelled as [string] restricted to ASCII; numbers
    that the code only adds and compares are [Z]; the similarity ratio of
    the normaliser is an exact rational [Q].  Calls that leave the process
    (database, completion service, document search) are inputs of the run:
    each is a [result] that is either the value returned or the exception
    thrown. *)

From Stdlib Require Import ZArith QArith String Ascii Bool List Sorted Lia DecimalString.
From stdpp Require Import gmap strings list fin_maps.
Import ListNotations.

Open Scope string_scope.
Open Scope Z_scope.

(* ===================================================================== *)
(** * JavaScript values and string primitives                             *)
(* ===================================================================== *)

Module Js.

(** Exceptions that the modelled code can observe. *)
Inductive JsError : Type :=
| Error (msg : string)
| TypeError (msg : string)
| ReferenceError (name : string).

(** Outcome of an awaited call: a value, or a thrown exception. *)
Inductive result (A : Type) : Type :=
| Ok (a : A)
| Throw (e : JsError).
Arguments Ok {A} a.
Arguments Throw {A} e.

(** Sequencing of awaited calls: the first exception aborts the rest. *)
#[global] Instance result_bind : MBind result := fun A B k m =>
  match m with
  | Ok a => k a
  | Throw e => Throw e
  end.

(** [try { body } catch (error) { handler }]. *)
Definition tryCatch {A} (body : result A) (handler : JsError -> result A) : result A :=
  match body with
  | Ok a => Ok a
  | Throw e => handler e
  end.

Definition isWhitespace (c : ascii) : bool :=
  let n := nat_of_ascii c in
  ((9 <=? n)%nat && (n <=? 13)%nat) || (n =? 32)%nat.

Definition lowerChar (c : ascii) : ascii :=
  let n := nat_of_ascii c in
  if ((65 <=? n)%nat && (n <=? 90)%nat)%bool then ascii_of_nat (n + 32) else c.

(** [String.prototype.toLowerCase] on ASCII text. *)
Fixpoint toLowerCase (s : string) : string :=
  match s with
  | EmptyString => EmptyString
  | String c s' => String (lowerChar c) (toLowerCase s')
  end.

Fixpoint trimStart (s : string) : string :=
  match s with
  | EmptyString => EmptyString
  | String c s' => if isWhitespace c then trimStart s' else s
  end.

Fixpoint trimEnd (s : string) : string :=
  match s with
  | EmptyString => EmptyString
  | String c s' =>
      match trimEnd s' with
      | EmptyString => if isWhitespace c then EmptyString else String c EmptyString
      | r => String c r
      end
  end.

(** [String.prototype.trim]. *)
Definition trim (s : string) : string := trimEnd (trimStart s).

(** [String.prototype.includes]: [pat] occurs in [s] as a substring. *)
Fixpoint includes (s pat : string) : bool :=
  String.prefix pat s ||
  match s with
  | EmptyString => false
  | String _ s' => includes s' pat
  end.

(** [Array.prototype.includes] on an array of strings. *)
Definition arrayIncludes (l : list string) (x : string) : bool :=
  existsb (String.eqb x) l.

(** Truthiness of a possibly absent string property: [undefined] and the
    empty string are falsy. *)
Definition truthy (v : option string) : bool :=
  match v with
  | Some s => negb (String.eqb s "")
  | None => false
  end.

(** Word characters of the regular-expression class [\w]. *)
Definition isWordChar (c : ascii) : bool :=
  let n := nat_of_ascii c in
  ((48 <=? n)%nat && (n <=? 57)%nat) || ((65 <=? n)%nat && (n <=? 90)%nat)
  || ((97 <=? n)%nat && (n <=? 122)%nat) || (n =? 95)%nat.

Fixpoint dropPrefix (w s : string) : option string :=
  match w, s with
  | EmptyString, _ => Some s
  | String a w', String b s' => if Ascii.eqb a b then dropPrefix w' s' else None
  | String _ _, EmptyString => None
  end.

(** The word [w] starts here and is followed by a word boundary. *)
Definition wordHere (s w : string) : bool :=
  match dropPrefix w s with
  | Some EmptyString => true
  | Some (String c _) => negb (isWordChar c)
  | None => false
  end.

(** [/\b(w1|...|wn)\b/.test(s)], scanning from a position whose previous
    character is a word character iff [prevWord]. *)
Fixpoint testWordsFrom (prevWord : bool) (ws : list string) (s : string) : bool :=
  (negb prevWord && existsb (wordHere s) ws) ||
  match s with
  | EmptyString => false
  | String c s' => testWordsFrom (isWordChar c) ws s'
  end.

Definition testWords (ws : list string) (s : string) : bool :=
  testWordsFrom false ws s.

(** A JavaScript [Set] of strings keeps insertion order and ignores a
    value it already holds. *)
Definition setAdd (acc : list string) (x : string) : list string :=
  if arrayIncludes acc x then acc else (acc ++ [x])%list.

(** [Array.from(new Set(l))]. *)
Definition arrayFromSet (l : list string) : list string :=
  fold_left setAdd l [].

End Js.
Import Js.

(* ===================================================================== *)
(** * Data model ([types])                                                *)
(* ===================================================================== *)

(** [operator: 'equals' | 'contains']; the rows come from the database with
    an unchecked cast, so any other stored operator reaches the [default]
    branch of the evaluator. *)
Inductive Operator : Type :=
| equals
| contains
| otherOperator (raw : string).

Record TriageCondition : Type := mkCondition {
  field : string;
  operator : Operator;
  value : string
}.

Record TriageRule : Type := mkRule {
  ruleId : string;
  ruleName : string;
  conditions : list TriageCondition;
  assignee : string;
  priority : Z;
  enabled : bool
}.

(** The extracted information handed to the matcher and the scorer: a
    plain object whose own properties are strings (the extraction keeps only
    string values).  The map holds the own properties. *)
Abbreviation ExtractedInfo := (gmap string string).

(** The names that a plain object inherits from [Object.prototype]: the
    built-in methods and the accessor [__proto__].  Read on an object that
    has no own property of the name, each gives a function or an object,
    never a string. *)
Definition inheritedNames : list string :=
  ["constructor"; "__defineGetter__"; "__defineSetter__"; "hasOwnProperty";
   "__lookupGetter__"; "__lookupSetter__"; "isPrototypeOf"; "propertyIsEnumerable";
   "toString"; "valueOf"; "__proto__"; "toLocaleString"].

(** What [info[name]] evaluates to. *)
Inductive Property : Type :=
| Undefined
| OwnString (v : string)
| Inherited.

(** [info[name]]: the own property first, then the prototype. *)
Definition getProperty (info : ExtractedInfo) (name : string) : Property :=
  match info !! name with
  | Some v => OwnString v
  | None => if arrayIncludes inheritedNames name then Inherited else Undefined
  end.

(** A property of the [extractedInfo] object of a decision. *)
Inductive InfoValue : Type :=
| IVstr (s : string)
| IVbool (b : bool).

Record DocumentSource : Type := mkSource {
  title : string;
  category : string
}.

Record TriageState : Type := mkTriageState {
  extractedInfo : gmap string InfoValue;
  assignedTo : option string;
  isComplete : bool;
  needsMoreInfo : bool;
  missingFields : list string;
  matchReason : option string;
  matchScore : option Z;
  documentResponse : option string;
  documentSources : option (list DocumentSource)
}.

(* ===================================================================== *)
(** * Rule matcher ([triageEngine])                                       *)
(* ===================================================================== *)

(** The comparison of [evaluateCondition] once the value read is a
    string: both sides lower-cased and trimmed, then the operator. *)
Definition compareValue (condition : TriageCondition) (v : string) : bool :=
  let normalizedValue := trim (toLowerCase v) in
  let normalizedTarget := trim (toLowerCase (value condition)) in
  match operator condition with
  | equals => String.eqb normalizedValue normalizedTarget
  | contains => includes normalizedValue normalizedTarget
  | otherOperator _ => false
  end.

(** A value inherited from the prototype is truthy and has no method
    [toLowerCase]: calling it throws a [TypeError]. *)
Definition evaluateCondition (condition : TriageCondition) (info : ExtractedInfo)
  : result bool :=
  match getProperty info (field condition) with
  | Undefined => Ok false
  | OwnString v => if String.eqb v "" then Ok false else Ok (compareValue condition v)
  | Inherited => Throw (TypeError "value.toLowerCase is not a function")
  end.

(** [conditions.every(...)]: the conditions in order, up to the first that
    is false or throws. *)
Fixpoint everyCondition (conds : list TriageCondition) (info : ExtractedInfo) : result bool :=
  match conds with
  | [] => Ok true
  | condition :: rest =>
      holds ← evaluateCondition condition info;
      if holds : bool then everyCondition rest info else Ok false
  end.

(** [rule.conditions.every(...)] behind the [enabled] guard. *)
Definition evaluateRule (rule : TriageRule) (info : ExtractedInfo) : result bool :=
  if negb (enabled rule) then Ok false
  else everyCondition (conditions rule) info.

(** The loop of [findMatchingRule] over the rules already loaded. *)
Fixpoint findMatchingRuleIn (rules : list TriageRule) (info : ExtractedInfo)
  : result (option TriageRule) :=
  match rules with
  | [] => Ok None
  | rule :: rest =>
      matches ← evaluateRule rule info;
      if matches : bool then Ok (Some rule) else findMatchingRuleIn rest info
  end.

(** [getAllRules] is the rule store read: the rules in ascending priority,
    or the exception of the failed query. *)
Definition findMatchingRule (getAllRules : result (list TriageRule)) (info : ExtractedInfo)
  : result (option TriageRule) :=
  rules ← getAllRules;
  findMatchingRuleIn rules info.

Definition getRequiredFieldsIn (rules : list TriageRule) : list string :=
  fold_left (fun fields rule =>
               fold_left (fun fields condition => setAdd fields (field condition))
                         (conditions rule) fields)
            rules [].

Definition getRequiredFields (getAllRules : result (list TriageRule)) : result (list string) :=
  rules ← getAllRules;
  Ok (getRequiredFieldsIn rules).

(** [field => !info[field]]: an inherited value is truthy, so a field
    named like an inherited property never counts as absent. *)
Definition absent (info : ExtractedInfo) (f : string) : bool :=
  match getProperty info f with
  | Undefined => true
  | OwnString v => String.eqb v ""
  | Inherited => false
  end.

(** One iteration of the [for (const rule of rules)] loop of
    [getMissingFields]: push the rule's absent fields when it is close. *)
Definition pushMissingForRule (info : ExtractedInfo) (missing : list string) (rule : TriageRule)
  : list string :=
  let ruleFields := map field (conditions rule) in
  let missingForRule := List.filter (absent info) ruleFields in
  if ((0 <? length missingForRule)%nat && (length missingForRule <? length ruleFields)%nat)%bool
  then (missing ++ missingForRule)%list
  else missing.

Definition getMissingFields (getAllRules : result (list TriageRule)) (info : ExtractedInfo)
  : result (list string) :=
  requiredFields ← getRequiredFields getAllRules;
  matchingRule ← findMatchingRule getAllRules info;
  match matchingRule with
  | Some _ => Ok []
  | None =>
      rules ← getAllRules;
      let missing := fold_left (pushMissingForRule info) rules [] in
      if (length missing =? 0)%nat
      then Ok (firstn 1 (List.filter (absent info) requiredFields))
      else Ok (firstn 1 (arrayFromSet missing))
  end.

(* ===================================================================== *)
(** * Term normaliser ([fuzzyMatcher])                                    *)
(* ===================================================================== *)

(** [distance] of the imported edit-distance package: the Levenshtein
    distance, by its defining recurrence. *)
Fixpoint distance (s t : string) : nat :=
  match s with
  | EmptyString => String.length t
  | String a s' =>
      (fix inner (t : string) : nat :=
         match t with
         | EmptyString => String.length s
         | String b t' =>
             Nat.min (Nat.min (S (distance s' t)) (S (inner t')))
                     (distance s' t' + (if Ascii.eqb a b then 0 else 1))%nat
         end) t
  end.

(** [1 - levenshteinDistance / maxLength], kept as an exact ratio. *)
Definition calculateSimilarity (str1 str2 : string) : Q :=
  let maxLength := Nat.max (String.length str1) (String.length str2) in
  if (maxLength =? 0)%nat then 1%Q
  else
    let levenshteinDistance := distance str1 str2 in
    (1 - (Z.of_nat levenshteinDistance # Pos.of_nat maxLength))%Q.

Record FuzzyMatchResult : Type := mkFuzzy {
  normalizedValue : string;
  confidence : Q;
  matchedTerm : option string
}.

(** A row of the terminology table. *)
Record LegalTerm : Type := mkTerm {
  term : string;
  termCategory : string;
  synonyms : list string
}.

(** State of the scan over terms and synonyms: the function has returned
    from inside the loop, or the loop goes on with its best match. *)
Inductive Scan : Type :=
| Returned (r : FuzzyMatchResult)
| Running (bestMatch : FuzzyMatchResult).

Definition Qgtb (a b : Q) : bool := negb (Qle_bool a b).

Definition exactMatch (t : string) : FuzzyMatchResult :=
  {| normalizedValue := t; confidence := 1%Q; matchedTerm := Some t |}.

(** [if (similarity > bestMatch.confidence) bestMatch = {...}]. *)
Definition improve (t : string) (similarity : Q) (bestMatch : FuzzyMatchResult) : FuzzyMatchResult :=
  if Qgtb similarity (confidence bestMatch)
  then {| normalizedValue := t; confidence := similarity; matchedTerm := Some t |}
  else bestMatch.

Fixpoint scanSynonyms (normalizedInput t : string) (syns : list string)
         (bestMatch : FuzzyMatchResult) : Scan :=
  match syns with
  | [] => Running bestMatch
  | synonym :: rest =>
      let synonymLower := toLowerCase synonym in
      if String.eqb normalizedInput synonymLower then Returned (exactMatch t)
      else
        let synonymSimilarity := calculateSimilarity normalizedInput synonymLower in
        scanSynonyms normalizedInput t rest (improve t synonymSimilarity bestMatch)
  end.

Fixpoint scanTerms (normalizedInput : string) (legalTerms : list LegalTerm)
         (bestMatch : FuzzyMatchResult) : Scan :=
  match legalTerms with
  | [] => Running bestMatch
  | t :: rest =>
      if String.eqb normalizedInput (toLowerCase (term t)) then Returned (exactMatch (term t))
      else
        let termSimilarity := calculateSimilarity normalizedInput (toLowerCase (term t)) in
        match scanSynonyms normalizedInput (term t) (synonyms t)
                           (improve (term t) termSimilarity bestMatch) with
        | Returned r => Returned r
        | Running bestMatch' => scanTerms normalizedInput rest bestMatch'
        end
  end.

(** "Return input as-is". *)
Definition asIs (input : string) : FuzzyMatchResult :=
  {| normalizedValue := input; confidence := 0%Q; matchedTerm := None |}.

Definition defaultThreshold : Q := (7 # 10)%Q.

(** [findMany category] is the outcome of the terminology query for one
    category: the rows found, or the exception of the failed query. *)
Definition fuzzyMatch (findMany : string -> result (list LegalTerm))
           (input cat : string) (threshold : Q) : result FuzzyMatchResult :=
  let normalizedInput := trim (toLowerCase input) in
  tryCatch
    (legalTerms ← findMany cat;
     match scanTerms normalizedInput legalTerms (asIs input) with
     | Returned r => Ok r
     | Running bestMatch =>
         if Qle_bool threshold (confidence bestMatch) then Ok bestMatch
         else Ok (asIs input)
     end)
    (fun _ => Ok (asIs input)).

(** An entry of the [fuzzyMatches] log. *)
Record FuzzyLog : Type := mkFuzzyLog {
  original : string;
  matched : string;
  logConfidence : Q
}.

Definition fieldCategoryMap (f : string) : option string :=
  if String.eqb f "requestType" then Some "request_type"
  else if String.eqb f "location" then Some "location"
  else if String.eqb f "department" then Some "department"
  else None.

(** [for (const x of l) { s = body(s, x) }] with awaited, fallible bodies. *)
Fixpoint forOf {A S : Type} (body : S -> A -> result S) (l : list A) (s : S) : result S :=
  match l with
  | [] => Ok s
  | x :: rest => s' ← body s x; forOf body rest s'
  end.

(** Body of the loop of [fuzzyMatchExtractedInfo] for one entry. *)
Definition fuzzyMatchEntry (findMany : string -> result (list LegalTerm))
           (acc : gmap string string * gmap string FuzzyLog) (entry : string * string)
  : result (gmap string string * gmap string FuzzyLog) :=
  let '(normalized, fuzzyMatches) := acc in
  let '(f, v) := entry in
  match fieldCategoryMap f with
  | Some cat =>
      if truthy (Some v) then
        r ← fuzzyMatch findMany v cat defaultThreshold;
        if Qle_bool (7 # 10) (confidence r)
        then Ok (<[f := normalizedValue r]> normalized,
                 <[f := mkFuzzyLog v (normalizedValue r) (confidence r)]> fuzzyMatches)
        else Ok (<[f := v]> normalized, fuzzyMatches)
      else Ok (<[f := v]> normalized, fuzzyMatches)
  | None => Ok (<[f := v]> normalized, fuzzyMatches)
  end.

(** The entries are visited in the object's own order; every entry writes
    its own key only. *)
Definition fuzzyMatchExtractedInfo (findMany : string -> result (list LegalTerm))
           (info : gmap string string)
  : result (gmap string string * option (gmap string FuzzyLog)) :=
  acc ← forOf (fuzzyMatchEntry findMany) (map_to_list info) (∅, ∅);
  let '(normalized, fuzzyMatches) := acc in
  Ok (normalized, if (0 <? size fuzzyMatches)%nat then Some fuzzyMatches else None).

(* ===================================================================== *)
(** * Specialist scorer ([dynamicRouter])                                 *)
(* ===================================================================== *)

(** An entry of [calendarAvailability.upcomingAvailability], in the shape
    the calendar sync and the seed data write it ([{date, slots}]): [date]
    is the time value of [new Date(day.date)] in milliseconds ([None] for
    an invalid date), [slots] the optional array of free slots. *)
Record Day : Type := mkDay {
  date : option Z;
  slots : option (list string)
}.

(** [upcomingAvailability] is [None] when the property is missing or is
    not an array. *)
Record Calendar : Type := mkCalendar {
  upcomingAvailability : option (list Day)
}.

Record Lawyer : Type := mkLawyer {
  lawyerId : string;
  email : string;
  lawyerName : string;
  specialties : list string;
  locations : list string;
  departments : list string;
  tags : option (list string);
  calendarAvailability : option Calendar
}.

Record Employee : Type := mkEmployee {
  empId : string;
  empEmail : string;
  firstName : string;
  lastName : string;
  department : string;
  location : string;
  role : option string;
  empTags : option (list string)
}.

Definition sevenDays : Z := 7 * 24 * 60 * 60 * 1000.

(** [dayDate >= now && dayDate <= sevenDaysFromNow]; every comparison with
    an invalid date is false. *)
Definition inWindow (now : Z) (day : Day) : bool :=
  match date day with
  | Some dayDate => (now <=? dayDate) && (dayDate <=? now + sevenDays)
  | None => false
  end.

Definition hasUpcomingAvailability (now : Z) (lawyer : Lawyer) : bool :=
  match calendarAvailability lawyer with
  | None => false
  | Some availability =>
      match upcomingAvailability availability with
      | Some days =>
          existsb (fun day =>
                     inWindow now day &&
                     match slots day with
                     | Some sl => (0 <? length sl)%nat
                     | None => false
                     end) days
      | None => false
      end
  end.

Definition getAvailableSlotCount (now : Z) (lawyer : Lawyer) : Z :=
  match calendarAvailability lawyer with
  | None => 0
  | Some availability =>
      match upcomingAvailability availability with
      | Some days =>
          fold_left (fun totalSlots day =>
                       match slots day with
                       | Some sl => if inWindow now day
                                    then totalSlots + Z.of_nat (length sl)
                                    else totalSlots
                       | None => totalSlots
                       end) days 0
      | None => 0
      end
  end.

(** The times that [new Date()] gives while one lawyer is assessed: the
    read of [hasUpcomingAvailability] first, then the read of
    [getAvailableSlotCount].  Each of the two functions reads the clock
    itself. *)
Record Reads : Type := mkReads {
  readByHas : Z;
  readByCount : Z
}.

(** "AVAILABILITY BONUS". *)
Definition availabilityPoints (reads : Reads) (lawyer : Lawyer) : Z :=
  let hasAvailability := hasUpcomingAvailability (readByHas reads) lawyer in
  let availableSlots := getAvailableSlotCount (readByCount reads) lawyer in
  if hasAvailability
  then 25 + Z.min (availableSlots * 2) 15
  else -10.

(** The bidirectional substring test on lower-cased text. *)
Definition specialtyMatches (requestTypeLower specialty : string) : bool :=
  includes (toLowerCase specialty) requestTypeLower
  || includes requestTypeLower (toLowerCase specialty).

(** "Match request type to lawyer specialties". *)
Definition specialtyPoints (lawyer : Lawyer) (info : ExtractedInfo) : Z :=
  match info !! "requestType" with
  | Some requestType =>
      if truthy (Some requestType) &&
         existsb (specialtyMatches (toLowerCase requestType)) (specialties lawyer)
      then 50 else 0
  | None => 0
  end.

(** [l.some(x => x.toLowerCase() === vLower)] for a truthy [v]. *)
Definition someEqualsLower (l : list string) (v : string) : bool :=
  truthy (Some v) &&
  existsb (fun x => String.eqb (toLowerCase x) (toLowerCase v)) l.

(** "Match location". *)
Definition locationPoints (lawyer : Lawyer) (info : ExtractedInfo) : Z :=
  match info !! "location" with
  | Some loc => if someEqualsLower (locations lawyer) loc then 30 else 0
  | None => 0
  end.

(** "Match department". *)
Definition departmentPoints (lawyer : Lawyer) (info : ExtractedInfo) : Z :=
  match info !! "department" with
  | Some dept => if someEqualsLower (departments lawyer) dept then 20 else 0
  | None => 0
  end.

(** "Match employee tags with lawyer tags": the VIP bonus, then ten points
    for each employee tag found among the lawyer's tags. *)
Definition tagPoints (lawyer : Lawyer) (employee : option Employee) : Z :=
  match employee with
  | Some emp =>
      match empTags emp, tags lawyer with
      | Some etags, Some ltags =>
          let employeeTags := map toLowerCase etags in
          let lawyerTags := map toLowerCase ltags in
          let vip := if arrayIncludes employeeTags "vip" && arrayIncludes lawyerTags "vip"
                     then 40 else 0 in
          let commonTags := List.filter (fun tag => arrayIncludes lawyerTags tag) employeeTags in
          vip + Z.of_nat (length commonTags) * 10
      | _, _ => 0
      end
  | None => 0
  end.

(** "Fallback: if lawyer handles employee's location". *)
Definition employeeLocationPoints (lawyer : Lawyer) (employee : option Employee) : Z :=
  match employee with
  | Some emp => if someEqualsLower (locations lawyer) (location emp) then 15 else 0
  | None => 0
  end.

(** "Fallback: if lawyer handles employee's department". *)
Definition employeeDepartmentPoints (lawyer : Lawyer) (employee : option Employee) : Z :=
  match employee with
  | Some emp => if someEqualsLower (departments lawyer) (department emp) then 10 else 0
  | None => 0
  end.

(** The running [score], block after block in the order of the source. *)
Definition scoreLawyerMatch (reads : Reads) (lawyer : Lawyer) (info : ExtractedInfo)
           (employee : option Employee) : Z :=
  let score := 0 in
  let score := score + availabilityPoints reads lawyer in
  let score := score + specialtyPoints lawyer info in
  let score := score + locationPoints lawyer info in
  let score := score + departmentPoints lawyer info in
  let score := score + tagPoints lawyer employee in
  let score := score + employeeLocationPoints lawyer employee in
  let score := score + employeeDepartmentPoints lawyer employee in
  score.

(** [scoredLawyers.sort((a, b) => b.score - a.score)]: the sort is stable,
    so its result is the stable descending arrangement, built here by
    insertion from the right. *)
Fixpoint insertByScore (x : Lawyer * Z) (sorted : list (Lawyer * Z)) : list (Lawyer * Z) :=
  match sorted with
  | [] => [x]
  | y :: rest => if snd x <? snd y then y :: insertByScore x rest else x :: sorted
  end.

Definition sortByScoreDesc (l : list (Lawyer * Z)) : list (Lawyer * Z) :=
  foldr insertByScore [] l.

Record BestMatch : Type := mkBestMatch {
  lawyer : Lawyer;
  score : Z;
  reason : string
}.

Definition showZ (z : Z) : string :=
  DecimalString.NilZero.string_of_int (Z.to_int z).

(** [Array.prototype.join]. *)
Definition join (sep : string) (l : list string) : string := String.concat sep l.

(** [Array.prototype.push]. *)
Definition push (l : list string) (x : string) : list string := (l ++ [x])%list.

(** "Build reason string". *)
Definition buildReason (reads : Reads) (best : Lawyer) (info : ExtractedInfo)
           (employee : option Employee) : string :=
  let reasons : list string := [] in
  let hasAvailability := hasUpcomingAvailability (readByHas reads) best in
  let availableSlots := getAvailableSlotCount (readByCount reads) best in
  let reasons :=
    if hasAvailability
    then push reasons ("available soon (" +:+ showZ availableSlots
                      +:+ " slots in next 7 days)")
    else reasons in
  let reasons :=
    match info !! "requestType" with
    | Some requestType =>
        if truthy (Some requestType) then
          match List.find (specialtyMatches (toLowerCase requestType)) (specialties best) with
          | Some matchingSpecialty =>
              if truthy (Some matchingSpecialty)
              then push reasons ("specializes in " +:+ matchingSpecialty)
              else reasons
          | None => reasons
          end
        else reasons
    | None => reasons
    end in
  let reasons :=
    match info !! "location" with
    | Some loc => if truthy (Some loc) && arrayIncludes (locations best) loc
                  then push reasons ("handles " +:+ loc +:+ " region") else reasons
    | None => reasons
    end in
  let reasons :=
    match info !! "department" with
    | Some dept => if truthy (Some dept) && arrayIncludes (departments best) dept
                   then push reasons ("works with " +:+ dept +:+ " department") else reasons
    | None => reasons
    end in
  let reasons :=
    match employee with
    | Some emp =>
        match empTags emp, tags best with
        | Some etags, Some ltags =>
            if arrayIncludes etags "VIP" && arrayIncludes ltags "VIP"
            then push reasons ("handles VIP clients") else reasons
        | _, _ => reasons
        end
    | None => reasons
    end in
  if (0 <? length reasons)%nat then join ", " reasons else "best available match".

(** The clock during one call of [findBestLawyer]: the reads made while
    the lawyer at each position of the roster is scored, and the reads made
    while the reason is built. *)
Record Clock : Type := mkClock {
  scoringReads : nat -> Reads;
  reasonReads : Reads
}.

(** A clock that stands at [t] for the whole call. *)
Definition steady (t : Z) : Clock :=
  mkClock (fun _ => mkReads t t) (mkReads t t).

(** [lawyers.map(lawyer => ({ lawyer, score: scoreLawyerMatch(...) }))],
    from the position [position] of the roster on. *)
Fixpoint scoreFrom (clock : Clock) (position : nat) (lawyers : list Lawyer)
         (info : ExtractedInfo) (employee : option Employee) : list (Lawyer * Z) :=
  match lawyers with
  | [] => []
  | l :: rest =>
      (l, scoreLawyerMatch (scoringReads clock position) l info employee)
        :: scoreFrom clock (S position) rest info employee
  end.

(** [lawyerFindMany] is the roster read: the rows, or the exception of the
    failed query.  Reading [scoredLawyers[0].score] on an empty array would
    be a [TypeError]; the guard above it makes that branch dead. *)
Definition findBestLawyer (lawyerFindMany : result (list Lawyer)) (clock : Clock)
           (info : ExtractedInfo) (employee : option Employee)
  : result (option BestMatch) :=
  tryCatch
    (if negb (truthy (info !! "requestType")) then Ok None
     else
       lawyers ← lawyerFindMany;
       if (length lawyers =? 0)%nat then Ok None
       else
         let scoredLawyers := scoreFrom clock 0 lawyers info employee in
         match sortByScoreDesc scoredLawyers with
         | [] => Throw (TypeError "Cannot read properties of undefined (reading 'score')")
         | bestMatch :: _ =>
             if snd bestMatch <? 20 then Ok None
             else Ok (Some {| lawyer := fst bestMatch;
                              score := snd bestMatch;
                              reason := buildReason (reasonReads clock) (fst bestMatch)
                                                    info employee |})
         end)
    (fun _ => Ok None).

(* ===================================================================== *)
(** * Document answers ([documentRAG]), as far as the orchestrator sees   *)
(* ===================================================================== *)

(** A chunk returned by the document search; its relevance score is never
    read by the orchestrator and is left out. *)
Record RelevantChunk : Type := mkChunk {
  documentId : string;
  documentTitle : string;
  chunkContent : string;
  chunkCategory : string
}.

Definition noDocumentsReply : string :=
  "I couldn't find any relevant information in our document library. Could you please rephrase your question or contact the legal team directly?".

Definition ragErrorReply : string :=
  "I apologize, but I encountered an error generating a response.".

(** [x || fallback] for an optional string. *)
Definition orElse (x : option string) (fallback : string) : string :=
  match x with
  | Some s => if String.eqb s "" then fallback else s
  | None => fallback
  end.

(** [search] is the outcome of the document search for the question,
    [completion] the outcome of the answer-generating completion call
    (its [choices[0]?.message?.content]). *)
Definition generateRAGResponse (search : result (list RelevantChunk))
           (completion : result (option string)) : result string :=
  relevantChunks ← search;
  if (length relevantChunks =? 0)%nat then Ok noDocumentsReply
  else
    content ← completion;
    Ok (orElse (trim <$> content) ragErrorReply).

(* ===================================================================== *)
(** * Intent classifier and orchestrator ([aiAgent])                      *)
(* ===================================================================== *)

Inductive Role : Type := system | user | assistant.

Record Message : Type := mkMessage {
  msgRole : Role;
  content : string
}.

Definition isUser (m : Message) : bool :=
  match msgRole m with
  | user => true
  | _ => false
  end.

(** [[...messages].reverse().find(m => m.role === 'user')]. *)
Definition lastUserMessage (messages : list Message) : option Message :=
  List.find isUser (rev messages).

Definition greetings : list string :=
  ["hi"; "hello"; "hey"; "greetings"; "good morning"; "good afternoon"; "good evening"].

Definition questionPatterns : list string :=
  ["what is"; "what are"; "what's"; "explain"; "tell me about"; "how does"; "how do";
   "what do i need to know"; "what should i know"; "wondering what"; "want to know about";
   "define"; "definition of"; "can you explain";
   "regarding the"; "about the"; "regarding our"; "about our"].

Definition policyTerms : list string :=
  ["policy"; "policies"; "procedure"; "guideline"; "compliance"; "regulation"; "requirement"].

Definition questionWords : list string :=
  ["what"; "how"; "why"; "when"; "where"; "which"; "who"].

(** The keyword test of the fast path on the normalised content. *)
Definition fastPath (content : string) : bool :=
  let hasQuestionPattern := existsb (fun pattern => includes content pattern) questionPatterns in
  let hasPolicyTerm := existsb (fun t => includes content t) policyTerms in
  let hasQuestionWord := testWords questionWords content in
  hasQuestionPattern || (hasQuestionWord && hasPolicyTerm).

(** [classify text] is the outcome of the classification completion call
    for the user's text (client construction included): the optional
    content of the first choice, or the exception thrown.

    The [catch] block returns the identifier [hasKeyword], which is declared
    nowhere: evaluating it throws a [ReferenceError]. *)
Definition isDocumentQuestion (classify : string -> result (option string))
           (messages : list Message) : result bool :=
  match lastUserMessage messages with
  | None => Ok false
  | Some lastUser =>
      let normalized := trim (toLowerCase (content lastUser)) in
      if arrayIncludes greetings normalized || (String.length normalized <? 5)%nat then Ok false
      else if fastPath normalized then Ok true
      else
        tryCatch
          (response ← classify (content lastUser);
           let classification := (fun c => toLowerCase (trim c)) <$> response in
           Ok (match classification with
               | Some c => String.eqb c "document"
               | None => false
               end))
          (fun _ => Throw (ReferenceError "hasKeyword"))
  end.

(** A parsed JSON property value. *)
Inductive Json : Type :=
| JNull
| JBool (b : bool)
| JNumber (n : Z)
| JString (s : string)
| JCompound.

(** What the extraction completion returned: no content, content without a
    JSON object, or the entries of the object that [JSON.parse] produced. *)
Inductive ExtractionReply : Type :=
| NoContent
| NoJsonObject
| JsonObject (entries : list (string * Json)).

(** "Filter out null values": keep non-empty strings other than "null". *)
Definition keepEntry (acc : gmap string string) (entry : string * Json) : gmap string string :=
  match snd entry with
  | JString v =>
      if truthy (Some v) && negb (String.eqb (toLowerCase v) "null")
      then <[fst entry := v]> acc else acc
  | _ => acc
  end.

(** [extraction] is the outcome of the completion call followed by
    [JSON.parse]; a failure of either is the exception. *)
Definition extractInformationFromConversation (extraction : result ExtractionReply)
  : result (gmap string string) :=
  tryCatch
    (reply ← extraction;
     match reply with
     | NoContent => Ok ∅
     | NoJsonObject => Ok ∅
     | JsonObject entries => Ok (fold_left keepEntry entries ∅)
     end)
    (fun _ => Ok ∅).

(** The collaborators of one run, each with the outcome of its call. *)
Record World : Type := mkWorld {
  classify : string -> result (option string);
  searchDocuments : string -> result (list RelevantChunk);
  ragCompletion : result (option string);
  extraction : result ExtractionReply;
  legalTermFindMany : string -> result (list LegalTerm);
  lawyerFindMany : result (list Lawyer);
  getAllRules : result (list TriageRule);
  clock : Clock
}.

(** "Auto-fill employee context fields if not extracted from conversation". *)
Definition autoFill (rawExtractedInfo : gmap string string) (employee : option Employee)
  : gmap string string :=
  match employee with
  | None => rawExtractedInfo
  | Some emp =>
      let info :=
        if negb (truthy (rawExtractedInfo !! "department")) && truthy (Some (department emp))
        then <["department" := department emp]> rawExtractedInfo
        else rawExtractedInfo in
      if negb (truthy (info !! "location")) && truthy (Some (location emp))
      then <["location" := location emp]> info
      else info
  end.

Definition documentDecision (ragResponse : string) (searchResults : list RelevantChunk)
  : TriageState :=
  {| extractedInfo := {[ "requestType" := IVstr "Document Question";
                         "isDocumentQuestion" := IVbool true ]};
     assignedTo := None;
     isComplete := true;
     needsMoreInfo := false;
     missingFields := [];
     matchReason := None;
     matchScore := None;
     documentResponse := Some ragResponse;
     documentSources :=
       Some (map (fun r => mkSource (documentTitle r) (chunkCategory r)) searchResults) |}.

(** [bestLawyerMatch && bestLawyerMatch.score >= 20]: the match that takes
    the dynamic-routing branch, if any. *)
Definition qualifying (bestLawyerMatch : option BestMatch) : option BestMatch :=
  match bestLawyerMatch with
  | Some best => if 20 <=? score best then Some best else None
  | None => None
  end.

(** The document branch: search, generate the answer, return the completed
    decision. *)
Definition documentPath (w : World) (messages : list Message) : result TriageState :=
  let question := orElse (content <$> lastUserMessage messages) "" in
  searchResults ← searchDocuments w question;
  ragResponse ← generateRAGResponse (searchDocuments w question) (ragCompletion w);
  Ok (documentDecision ragResponse searchResults).

(** Extraction, auto-fill from the employee profile, normalisation. *)
Definition gatherInfo (w : World) (employee : option Employee) : result (gmap string string) :=
  rawExtractedInfo ← extractInformationFromConversation (extraction w);
  let rawExtractedInfo := autoFill rawExtractedInfo employee in
  fuzzy ← fuzzyMatchExtractedInfo (legalTermFindMany w) rawExtractedInfo;
  Ok (fst fuzzy).

Definition dynamicDecision (info : gmap string string) (best : BestMatch) : TriageState :=
  {| extractedInfo := IVstr <$> info;
     assignedTo := Some (email (lawyer best));
     isComplete := true;
     needsMoreInfo := false;
     missingFields := [];
     matchReason := Some (reason best);
     matchScore := Some (score best);
     documentResponse := None;
     documentSources := None |}.

Definition ruleDecision (info : gmap string string) (rule : TriageRule) : TriageState :=
  {| extractedInfo := IVstr <$> info;
     assignedTo := Some (assignee rule);
     isComplete := true;
     needsMoreInfo := false;
     missingFields := [];
     matchReason := None;
     matchScore := None;
     documentResponse := None;
     documentSources := None |}.

Definition needsInfoDecision (info : gmap string string) (missing : list string) : TriageState :=
  {| extractedInfo := IVstr <$> info;
     assignedTo := None;
     isComplete := false;
     needsMoreInfo := (0 <? length missing)%nat;
     missingFields := missing;
     matchReason := None;
     matchScore := None;
     documentResponse := None;
     documentSources := None |}.

(** "FALLBACK: Check static rules if dynamic routing didn't find a match",
    then "Find what information is missing". *)
Definition ruleFallback (w : World) (info : gmap string string) : result TriageState :=
  matchingRule ← findMatchingRule (getAllRules w) info;
  match matchingRule with
  | Some rule => Ok (ruleDecision info rule)
  | None =>
      missing ← getMissingFields (getAllRules w) info;
      Ok (needsInfoDecision info missing)
  end.

(** "Try dynamic routing first", else the fallback. *)
Definition route (w : World) (info : gmap string string) (employee : option Employee)
  : result TriageState :=
  bestLawyerMatch ← findBestLawyer (lawyerFindMany w) (clock w) info employee;
  match qualifying bestLawyerMatch with
  | Some best => Ok (dynamicDecision info best)
  | None => ruleFallback w info
  end.

(** The body of the [try] block of [processConversation], in the order of
    the source.  Writes to the trace are observability only and are not
    part of the decision. *)
Definition processConversationBody (w : World) (messages : list Message)
           (employee : option Employee) : result TriageState :=
  isDocQuery ← isDocumentQuestion (classify w) messages;
  if isDocQuery : bool then documentPath w messages
  else
    info ← gatherInfo w employee;
    route w info employee.

(** A call [logTraceError(traceId, stage, error)]. *)
Record TraceError : Type := mkTraceError {
  traceId : string;
  stage : string;
  error : JsError
}.

(** [if (traceId) logTraceError(traceId, 'process_conversation', error)]:
    the entries the [catch] block writes. *)
Definition logCaught (trace : option string) (e : JsError) : list TraceError :=
  match trace with
  | Some tid => if truthy (Some tid) then [mkTraceError tid "process_conversation" e] else []
  | None => []
  end.

(** [processConversation]: the outcome seen by the caller, and the error
    entries written to the trace by the [catch] block, which ends in
    [throw error]. *)
Definition processConversation (w : World) (messages : list Message)
           (trace : option string) (employee : option Employee)
  : result TriageState * list TraceError :=
  match processConversationBody w messages employee with
  | Ok decision => (Ok decision, [])
  | Throw e => (Throw e, logCaught trace e)
  end.

(* ===================================================================== *)
(** * Properties under study, stated on their own                         *)
(* ===================================================================== *)

(** Field names of a rule's conditions. *)
Definition ruleFields (rule : TriageRule) : list string := map field (conditions rule).

(** The information lacks a field: it has no own property of that name, or
    an empty one. *)
Definition lacks (info : ExtractedInfo) (f : string) : bool :=
  negb (truthy (info !! f)).

(** A condition holds on the own properties of the information. *)
Definition conditionHolds (condition : TriageCondition) (info : ExtractedInfo) : bool :=
  match info !! field condition with
  | Some v => negb (String.eqb v "") && compareValue condition v
  | None => false
  end.

(** A rule matches: it is enabled and each of its conditions holds. *)
Definition ruleMatches (rule : TriageRule) (info : ExtractedInfo) : bool :=
  enabled rule && forallb (fun condition => conditionHolds condition info) (conditions rule).

(** No condition of the rules names an inherited property that the
    information does not have as its own. *)
Definition plainFields (rules : list TriageRule) (info : ExtractedInfo) : Prop :=
  forall rule condition,
    In rule rules -> In condition (conditions rule) ->
    getProperty info (field condition) <> Inherited.

(** The condition fields of a rule that are absent by the test [isAbsent]. *)
Definition missingFor (isAbsent : string -> bool) (rule : TriageRule) : list string :=
  List.filter isAbsent (ruleFields rule).

(** A rule is close when at least one of its fields is absent, but not all
    of them. *)
Definition isClose (isAbsent : string -> bool) (rule : TriageRule) : bool :=
  existsb isAbsent (ruleFields rule) &&
  existsb (fun f => negb (isAbsent f)) (ruleFields rule).

(** Deduplication that keeps the first occurrence of every value. *)
Fixpoint dedupFirst (l : list string) : list string :=
  match l with
  | [] => []
  | x :: rest => x :: List.filter (fun y => negb (String.eqb y x)) (dedupFirst rest)
  end.

(** The field to ask for when no rule matches, for a test of absence: the
    first of the deduplicated union of the fields missing for the close
    rules; else, with no close rule, the first field named by any rule and
    absent. *)
Definition fieldToAsk (isAbsent : string -> bool) (rules : list TriageRule) : list string :=
  match List.filter (isClose isAbsent) rules with
  | [] => firstn 1 (List.filter isAbsent (dedupFirst (flat_map ruleFields rules)))
  | closeRules => firstn 1 (dedupFirst (flat_map (missingFor isAbsent) closeRules))
  end.

(** The missing-field policy in the words of its description: nothing when
    a rule matches; else the field to ask for, where a field is absent when
    the information lacks it. *)
Definition missingFieldsPolicy (rules : list TriageRule) (info : ExtractedInfo) : list string :=
  if existsb (fun rule => ruleMatches rule info) rules then []
  else fieldToAsk (lacks info) rules.

(** A result that names a canonical term of the rows [terms]. *)
Definition canonical (terms : list LegalTerm) (r : FuzzyMatchResult) : Prop :=
  exists t, In t terms /\ normalizedValue r = term t /\ matchedTerm r = Some (term t).

(** The strings a row is compared with: its term and its synonyms. *)
Definition candidates (t : LegalTerm) : list string := term t :: synonyms t.

(** Internal, employee-derived metadata is marked by a leading underscore
    ([_employeeId], [_employeeName], [_employeeRole]). *)
Definition isInternalField (f : string) : bool := String.prefix "_" f.

(** The three outcomes of a decision. *)
Definition assignedOutcome (d : TriageState) : bool :=
  match assignedTo d with Some _ => isComplete d | None => false end.

Definition documentOutcome (d : TriageState) : bool :=
  match documentResponse d with Some _ => isComplete d | None => false end.

Definition needsInfoOutcome (d : TriageState) : bool :=
  (0 <? length (missingFields d))%nat && negb (isComplete d).

(** The outcome the code has in place of the third: not complete, nothing
    assigned, no document answer (the missing fields may be empty). *)
Definition unresolvedOutcome (d : TriageState) : bool :=
  negb (isComplete d) &&
  match assignedTo d, documentResponse d with
  | None, None => true
  | _, _ => false
  end.

(** Exactly one of three booleans. *)
Definition exactlyOne (a b c : bool) : bool :=
  (a && negb b && negb c) || (negb a && b && negb c) || (negb a && negb b && c).

(** Scores never increase along the list. *)
Definition descending (l : list (Lawyer * Z)) : Prop :=
  StronglySorted (fun a b => snd b <= snd a) l.

(** The largest of the scores given to the roster, if the roster is not
    empty. *)
Definition bestScore (clock : Clock) (lawyers : list Lawyer) (info : ExtractedInfo)
           (employee : option Employee) : option Z :=
  match map snd (scoreFrom clock 0 lawyers info employee) with
  | [] => None
  | s :: rest => Some (fold_left Z.max rest s)
  end.

(* ===================================================================== *)
(** * Sample data                                                         *)
(* ===================================================================== *)

Module Sample.


Definition salesAu : TriageRule :=
  mkRule "r1" "Sales AU"
         [mkCondition "requestType" equals "Sales Contract";
          mkCondition "location" equals "Australia"]
         "john@acme.corp" 1 true.

Definition managersOnly : TriageRule :=
  mkRule "r2" "Managers" [mkCondition "_employeeRole" equals "Manager"]
         "exec-desk@acme.corp" 1 true.

(** A rule whose second condition names a property that every object
    inherits. *)
Definition ndaWithConstructor : TriageRule :=
  mkRule "r3" "NDA"
         [mkCondition "requestType" equals "NDA";
          mkCondition "constructor" equals "Acme"]
         "nda@acme.corp" 1 true.

(** A disabled rule on such a property. *)
Definition disabledConstructor : TriageRule :=
  mkRule "r4" "Paused" [mkCondition "constructor" equals "Acme"] "nda@acme.corp" 1 false.

(** An enabled rule on such a property. *)
Definition byConstructor : TriageRule :=
  mkRule "r5" "Builder" [mkCondition "constructor" equals "Acme"] "nda@acme.corp" 1 true.

Definition salesOnly : ExtractedInfo := {[ "requestType" := "Sales Contract" ]}.

Definition salesInAustralia : ExtractedInfo :=
  {[ "requestType" := "Sales Contract"; "location" := "Australia" ]}.

Definition locationTerms : list LegalTerm :=
  [mkTerm "Australia" "location" ["AU"; "Aus"];
   mkTerm "United States" "location" ["US"; "USA"]].

Definition termTable (cat : string) : result (list LegalTerm) :=
  if String.eqb cat "location" then Ok locationTerms else Ok [].

Definition noCalendar (tagsOf : option (list string)) (spec loc : list string) (mail : string)
  : Lawyer :=
  mkLawyer "l" mail "Counsel" spec loc [] tagsOf None.

Definition vipLawyer : Lawyer := noCalendar (Some ["vip"]) [] [] "vip-desk@acme.corp".

Definition vipEmployee : Employee :=
  mkEmployee "e1" "alice.johnson@acme.corp" "Alice" "Johnson" "" "" None (Some ["VIP"]).

Definition plainEmployee : Employee :=
  mkEmployee "e2" "bob@acme.corp" "Bob" "Stone" "" "" None (Some []).

Definition threeSlots (now : Z) : Calendar :=
  mkCalendar (Some [mkDay (Some (now + 1000)) (Some ["09:00"; "10:00"; "11:00"])]).

Definition salesAuLawyer (now : Z) : Lawyer :=
  mkLawyer "l1" "sarah.chen@acme.corp" "Sarah Chen" ["Sales Contract"] ["Australia"] []
           None (Some (threeSlots now)).

Definition busySalesLawyer : Lawyer :=
  noCalendar None ["Sales Contract"] [] "busy@acme.corp".

Definition needAnNda : list Message :=
  [mkMessage user "I need an NDA for a vendor"].

Definition noApiKey : string -> result (option string) :=
  fun _ => Throw (Error "OPENAI_API_KEY is not configured").

Definition saysRequest : string -> result (option string) :=
  fun _ => Ok (Some "request").

(** A run in which the classifier answers "request" and every store is
    empty. *)
Definition emptyWorld : World :=
  {| classify := saysRequest;
     searchDocuments := fun _ => Ok [];
     ragCompletion := Ok None;
     extraction := Ok NoContent;
     legalTermFindMany := fun _ => Ok [];
     lawyerFindMany := Ok [];
     getAllRules := Ok [];
     clock := steady 0 |}.

(** The same run with the rule store unreachable. *)
Definition rulesDown : World :=
  {| classify := saysRequest;
     searchDocuments := fun _ => Ok [];
     ragCompletion := Ok None;
     extraction := Ok NoContent;
     legalTermFindMany := fun _ => Ok [];
     lawyerFindMany := Ok [];
     getAllRules := Throw (Error "Can't reach database server");
     clock := steady 0 |}.

(** A run with the roster unreachable and one matching rule. *)
Definition rosterDown : World :=
  {| classify := saysRequest;
     searchDocuments := fun _ => Ok [];
     ragCompletion := Ok None;
     extraction := Ok (JsonObject [("requestType", JString "Sales Contract");
                                   ("location", JString "Australia");
                                   ("department", JNull)]);
     legalTermFindMany := fun _ => Ok [];
     lawyerFindMany := Throw (Error "Can't reach database server");
     getAllRules := Ok [salesAu];
     clock := steady 0 |}.

(** A run in which the rule store holds one enabled rule on an inherited
    property name. *)
Definition builderRules : World :=
  {| classify := saysRequest;
     searchDocuments := fun _ => Ok [];
     ragCompletion := Ok None;
     extraction := Ok NoContent;
     legalTermFindMany := fun _ => Ok [];
     lawyerFindMany := Ok [];
     getAllRules := Ok [byConstructor];
     clock := steady 0 |}.

End Sample.

(* ===================================================================== *)
(** * Vocabulary of the further results                                   *)
(* ===================================================================== *)

(** What one entry [f: v] of the extracted information becomes: the
    normalised property [nv] and the log entry [lg], where [lg0] is the log
    entry before the visit.  Either the value is kept and nothing is logged,
    or the normaliser was asked, answered with confidence at least 0.7, and
    its answer is stored and logged. *)
Definition entryOutcome (findMany : string -> result (list LegalTerm)) (f v : string)
           (nv : option string) (lg0 lg : option FuzzyLog) : Prop :=
  (nv = Some v /\ lg = lg0) \/
  (exists cat r,
      fieldCategoryMap f = Some cat /\ v <> "" /\
      fuzzyMatch findMany v cat defaultThreshold = Ok r /\
      (7 # 10 <= confidence r)%Q /\
      nv = Some (normalizedValue r) /\
      lg = Some (mkFuzzyLog v (normalizedValue r) (confidence r))).

(** A string made of white space only. *)
Fixpoint blank (s : string) : bool :=
  match s with
  | EmptyString => true
  | String c s' => isWhitespace c && blank s'
  end.


(* ===================================================================== *)
(** * Employee context ([employeeContext]) and the agent's reply          *)
(* ===================================================================== *)

(** Truthiness of a property of a decision's [extractedInfo]. *)
Definition truthyValue (v : option InfoValue) : bool :=
  match v with
  | Some (IVstr s) => negb (String.eqb s "")
  | Some (IVbool b) => b
  | None => false
  end.

(** [getEmployeeProfile email] is the outcome of the employee lookup: the
    row, [None] for an unknown address, or the exception of the failed
    query.  Assigning the [undefined] role of a row without role leaves the
    property reading as [undefined]. *)
Definition enrichWithEmployeeContext
           (getEmployeeProfile : string -> result (option Employee))
           (info : gmap string InfoValue) (employeeEmail : option string)
  : result (gmap string InfoValue) :=
  match employeeEmail with
  | None => Ok info
  | Some mail =>
      if negb (truthy (Some mail)) then Ok info
      else
        employee ← getEmployeeProfile mail;
        match employee with
        | None => Ok info
        | Some emp =>
            let enriched := info in
            let enriched :=
              if negb (truthyValue (enriched !! "department"))
              then <["department" := IVstr (department emp)]> enriched else enriched in
            let enriched :=
              if negb (truthyValue (enriched !! "location"))
              then <["location" := IVstr (location emp)]> enriched else enriched in
            let enriched := <["_employeeId" := IVstr (empId emp)]> enriched in
            let enriched :=
              <["_employeeName" := IVstr (firstName emp +:+ " " +:+ lastName emp)]> enriched in
            let enriched :=
              match role emp with
              | Some r => <["_employeeRole" := IVstr r]> enriched
              | None => delete "_employeeRole" enriched
              end in
            Ok enriched
        end
  end.

(** The employee context that the chat route computes before it calls
    [processConversation]: the [_employeeData] property of the enrichment
    of an empty object ([None] stands for [null] and [undefined]). *)
Definition chatEmployeeData (getEmployeeProfile : string -> result (option Employee))
           (employeeEmail : option string) : result (option InfoValue) :=
  if truthy employeeEmail then
    enrichedInfo ← enrichWithEmployeeContext getEmployeeProfile ∅ employeeEmail;
    Ok (enrichedInfo !! "_employeeData")
  else Ok None.

(** The line feed of the template strings. *)
Definition nl : string := String (ascii_of_nat 10) EmptyString.

(** The list of sources appended to a document answer. *)
Definition sourcesSuffix (sources : option (list DocumentSource)) : string :=
  match sources with
  | Some srcs =>
      if (0 <? length srcs)%nat
      then nl +:+ nl +:+ "**Sources:**" +:+ nl +:+
           join nl (map (fun s => "- " +:+ title s +:+ " (" +:+ category s +:+ ")") srcs)
      else ""
  | None => ""
  end.

Definition replyRephrase : string :=
  "I apologize, but I encountered an error. Could you please rephrase your request?".

Definition replyTryAgain : string :=
  "I apologize, but I encountered an error. Could you please try again?".

(** [isComplete && assignedTo]: the assignee the user is directed to. *)
Definition directedTo (st : TriageState) : option string :=
  match assignedTo st with
  | Some a => if isComplete st && truthy (Some a) then Some a else None
  | None => None
  end.

(** The context prompt: the extracted information and the instruction
    chosen by the state of the decision. *)
Definition contextPrompt (stringify : gmap string InfoValue -> string) (st : TriageState)
  : string :=
  let prompt := "Current extracted information: " +:+ stringify (extractedInfo st) in
  match directedTo st with
  | Some a =>
      prompt +:+ nl +:+ nl +:+ "The user should be directed to: " +:+ a
      +:+ nl +:+ nl +:+ "Provide a warm, conversational response acknowledging their request and directing them to "
      +:+ a +:+ ". Reference the conversation naturally - acknowledge what they've asked about and show you understood their needs. Be helpful and friendly, not robotic. Keep it brief but personable."
  | None =>
      if (0 <? length (missingFields st))%nat then
        prompt +:+ nl +:+ nl +:+ "You need to ask about: " +:+ join ", " (missingFields st)
        +:+ nl +:+ nl +:+ "Ask a natural, conversational question to gather this information. Don't ask for all fields at once - ask for one thing at a time. Sound friendly and helpful, not like a form."
      else
        prompt +:+ nl +:+ nl +:+ "There's no matching rule for this request. Politely explain that you need more information to route their request properly. Ask what type of legal request they have in a conversational way."
  end.

(** [stringify] is [JSON.stringify(_, null, 2)]; [complete prompt] is the
    outcome of the completion call made with the context prompt [prompt]
    (client construction included): the optional content of the first
    choice, or the exception thrown. *)
Definition generateAgentResponse (stringify : gmap string InfoValue -> string)
           (complete : string -> result (option string)) (st : TriageState)
  : result string :=
  let askModel :=
    tryCatch
      (content ← complete (contextPrompt stringify st);
       Ok (orElse (trim <$> content) replyRephrase))
      (fun _ => Ok replyTryAgain) in
  match documentResponse st with
  | Some response =>
      if truthy (Some response)
      then Ok (response +:+ sourcesSuffix (documentSources st))
      else askModel
  | None => askModel
  end.

(* ===================================================================== *)
(** * Trace storage ([observability])                                     *)
(* ===================================================================== *)

(** Message arrays are objects: a trace and its caller may hold the same
    array.  Arrays live in a heap and are held by address. *)
Abbreviation Heap := (gmap nat (list Message)).

Record AiData : Type := mkAiData {
  aiModel : string;
  latencyMs : Z
}.

Record ErrorEntry : Type := mkErrorEntry {
  errorStage : string;
  errorMessage : string
}.

Record MatchedRuleLog : Type := mkMatchedRuleLog {
  loggedId : string;
  loggedName : string;
  loggedAssignee : string;
  matchedConditions : list (string * string * string)
}.

Record RuleMatchingLog : Type := mkRuleMatchingLog {
  rulesEvaluated : Z;
  matchedRule : option MatchedRuleLog
}.

(** What [logEmployeeContext] reads of its argument, typed [any]: each
    property may be [undefined]. *)
Record EmployeeLike : Type := mkEmployeeLike {
  likeId : option string;
  likeFirstName : option string;
  likeLastName : option string;
  likeDepartment : option string;
  likeLocation : option string;
  likeTags : option (list string)
}.

Record EmployeeContext : Type := mkEmployeeContext {
  contextId : option string;
  contextName : string;
  contextDepartment : option string;
  contextLocation : option string;
  contextTags : option (list string)
}.

(** A value that may be [undefined] inside a template literal. *)
Definition interpolate (x : option string) : string :=
  match x with
  | Some s => s
  | None => "undefined"
  end.

(** A trace, with the fields that the modelled functions write.  The
    creation time, the document-retrieval context (written by a logger that
    no modelled path calls) and the stack of an error entry are left out. *)
Record ChatTrace : Type := mkChatTrace {
  ctTraceId : string;
  ctEmployeeEmail : option string;
  ctEmployeeContext : option EmployeeContext;
  ctMessages : nat;
  ctExtractedInfo : option (gmap string InfoValue);
  ctFuzzyMatches : option (gmap string FuzzyLog);
  ctRuleMatching : option RuleMatchingLog;
  ctAiResponse : option AiData;
  ctErrors : option (list ErrorEntry);
  ctTotalDurationMs : option Z
}.

Record Store : Type := mkStore {
  traceStorage : list ChatTrace;
  heap : Heap;
  nextAddress : nat
}.

Definition MAX_TRACES : nat := 100.

(** [new Array]: a fresh address holding [l]. *)
Definition allocate (l : list Message) (st : Store) : nat * Store :=
  (nextAddress st,
   mkStore (traceStorage st) (<[nextAddress st := l]> (heap st)) (S (nextAddress st))).

(** [traceStorage.pop()]. *)
Definition pop {A} (l : list A) : list A := removelast l.

(** [newId] is the identifier drawn from the clock and the random source. *)
Definition startChatTrace (newId : string) (employeeEmail : option string) (st : Store)
  : string * Store :=
  let '(a, st) := allocate [] st in
  let tr := mkChatTrace newId employeeEmail None a None None None None None (Some 0) in
  let storage := tr :: traceStorage st in
  let storage := if (MAX_TRACES <? length storage)%nat then pop storage else storage in
  (newId, mkStore storage (heap st) (nextAddress st)).

(** [traceStorage.find(t => t.traceId === traceId)]. *)
Definition getTrace (tid : string) (st : Store) : option ChatTrace :=
  List.find (fun t => String.eqb (ctTraceId t) tid) (traceStorage st).

(** The write of a logger: the first trace with the identifier is replaced
    by its update; no trace with the identifier, no write. *)
Fixpoint updateFound (tid : string) (f : ChatTrace -> ChatTrace) (l : list ChatTrace)
  : list ChatTrace :=
  match l with
  | [] => []
  | t :: rest => if String.eqb (ctTraceId t) tid then f t :: rest
                 else t :: updateFound tid f rest
  end.

Definition withTrace (tid : string) (f : ChatTrace -> ChatTrace) (st : Store) : Store :=
  mkStore (updateFound tid f (traceStorage st)) (heap st) (nextAddress st).

(** [logEmployeeContext]: the name is built from [firstName] and
    [lastName], whatever else the argument holds. *)
Definition logEmployeeContext (tid : string) (employee : EmployeeLike) (st : Store) : Store :=
  withTrace tid (fun t => mkChatTrace (ctTraceId t) (ctEmployeeEmail t)
                            (Some (mkEmployeeContext
                                     (likeId employee)
                                     (interpolate (likeFirstName employee) +:+ " " +:+
                                      interpolate (likeLastName employee))
                                     (likeDepartment employee) (likeLocation employee)
                                     (likeTags employee)))
                            (ctMessages t)
                            (ctExtractedInfo t) (ctFuzzyMatches t) (ctRuleMatching t)
                            (ctAiResponse t) (ctErrors t) (ctTotalDurationMs t)) st.

(** [trace.messages = messages]: the trace now holds the caller's array. *)
Definition logMessages (tid : string) (messages : nat) (st : Store) : Store :=
  withTrace tid (fun t => mkChatTrace (ctTraceId t) (ctEmployeeEmail t) (ctEmployeeContext t) messages
                            (ctExtractedInfo t) (ctFuzzyMatches t) (ctRuleMatching t)
                            (ctAiResponse t) (ctErrors t) (ctTotalDurationMs t)) st.

Definition logExtractedInfo (tid : string) (info : gmap string InfoValue) (st : Store) : Store :=
  withTrace tid (fun t => mkChatTrace (ctTraceId t) (ctEmployeeEmail t) (ctEmployeeContext t) (ctMessages t)
                            (Some info) (ctFuzzyMatches t) (ctRuleMatching t)
                            (ctAiResponse t) (ctErrors t) (ctTotalDurationMs t)) st.

Definition logFuzzyMatches (tid : string) (matches : gmap string FuzzyLog) (st : Store) : Store :=
  withTrace tid (fun t => mkChatTrace (ctTraceId t) (ctEmployeeEmail t) (ctEmployeeContext t) (ctMessages t)
                            (ctExtractedInfo t) (Some matches) (ctRuleMatching t)
                            (ctAiResponse t) (ctErrors t) (ctTotalDurationMs t)) st.

Definition logRuleMatching (tid : string) (ruleData : RuleMatchingLog) (st : Store) : Store :=
  withTrace tid (fun t => mkChatTrace (ctTraceId t) (ctEmployeeEmail t) (ctEmployeeContext t) (ctMessages t)
                            (ctExtractedInfo t) (ctFuzzyMatches t) (Some ruleData)
                            (ctAiResponse t) (ctErrors t) (ctTotalDurationMs t)) st.

(** [trace.messages.push(...)]: the push goes to the array the trace
    holds, whoever else holds it. *)
Definition logAIResponse (tid : string) (aiData : AiData) (responseText : option string)
           (st : Store) : Store :=
  match getTrace tid st with
  | None => st
  | Some tr =>
      let st := withTrace tid (fun t => mkChatTrace (ctTraceId t) (ctEmployeeEmail t)
                                          (ctEmployeeContext t) (ctMessages t) (ctExtractedInfo t)
                                          (ctFuzzyMatches t) (ctRuleMatching t)
                                          (Some aiData) (ctErrors t) (ctTotalDurationMs t)) st in
      match responseText with
      | Some text =>
          if truthy (Some text) then
            mkStore (traceStorage st)
                    (alter (fun l => l ++ [mkMessage assistant text])%list (ctMessages tr) (heap st))
                    (nextAddress st)
          else st
      | None => st
      end
  end.

(** [error.message]. *)
Definition messageOf (e : JsError) : string :=
  match e with
  | Error msg => msg
  | TypeError msg => msg
  | ReferenceError name => name +:+ " is not defined"
  end.

Definition logTraceError (tid stage : string) (e : JsError) (st : Store) : Store :=
  withTrace tid (fun t => mkChatTrace (ctTraceId t) (ctEmployeeEmail t) (ctEmployeeContext t) (ctMessages t)
                            (ctExtractedInfo t) (ctFuzzyMatches t) (ctRuleMatching t)
                            (ctAiResponse t)
                            (Some (match ctErrors t with
                                   | Some errs => errs
                                   | None => []
                                   end ++ [mkErrorEntry stage (messageOf e)])%list)
                            (ctTotalDurationMs t)) st.

(** [elapsed] is [Date.now() - startTime]. *)
Definition completeChatTrace (tid : string) (elapsed : Z) (st : Store) : Store :=
  withTrace tid (fun t => match ctTotalDurationMs t with
                          | Some _ =>
                              mkChatTrace (ctTraceId t) (ctEmployeeEmail t) (ctEmployeeContext t) (ctMessages t)
                                (ctExtractedInfo t) (ctFuzzyMatches t) (ctRuleMatching t)
                                (ctAiResponse t) (ctErrors t) (Some elapsed)
                          | None => t
                          end) st.

(** [l.slice(0, end)] for an [end] that is an integer or [NaN] ([None]),
    as [parseInt] returns: [NaN] counts as 0, and a negative [end] is taken
    from the end of the array. *)
Definition sliceFromStart {A} (l : list A) (finish : option Z) : list A :=
  match finish with
  | None => []
  | Some z =>
      if z <? 0 then firstn (Z.to_nat (Z.max (Z.of_nat (length l) + z) 0)) l
      else firstn (Z.to_nat (Z.min z (Z.of_nat (length l)))) l
  end.

(** [traceStorage.slice(0, limit)]. *)
Definition getRecentTraces (limit : option Z) (st : Store) : list ChatTrace :=
  sliceFromStart (traceStorage st) limit.

Definition clearTraces (st : Store) : Store :=
  mkStore [] (heap st) (nextAddress st).

(** The operations of the module on the store. *)
Inductive TraceOp : Type :=
| OpStart (newId : string) (employeeEmail : option string)
| OpEmployeeContext (tid : string) (employee : EmployeeLike)
| OpMessages (tid : string) (messages : nat)
| OpExtractedInfo (tid : string) (info : gmap string InfoValue)
| OpFuzzyMatches (tid : string) (matches : gmap string FuzzyLog)
| OpRuleMatching (tid : string) (ruleData : RuleMatchingLog)
| OpAIResponse (tid : string) (aiData : AiData) (responseText : option string)
| OpError (tid stage : string) (e : JsError)
| OpComplete (tid : string) (elapsed : Z)
| OpClear.

Definition runTraceOp (st : Store) (op : TraceOp) : Store :=
  match op with
  | OpStart newId mail => snd (startChatTrace newId mail st)
  | OpEmployeeContext tid employee => logEmployeeContext tid employee st
  | OpMessages tid a => logMessages tid a st
  | OpExtractedInfo tid info => logExtractedInfo tid info st
  | OpFuzzyMatches tid m => logFuzzyMatches tid m st
  | OpRuleMatching tid d => logRuleMatching tid d st
  | OpAIResponse tid d text => logAIResponse tid d text st
  | OpError tid stage e => logTraceError tid stage e st
  | OpComplete tid elapsed => completeChatTrace tid elapsed st
  | OpClear => clearTraces st
  end.

Definition emptyStore : Store := mkStore [] ∅ 0.

(* ===================================================================== *)
(** * The orchestrator with its trace writes, and the chat route ([index]) *)
(* ===================================================================== *)

(** [if (traceId) ...]: the write is made when a non-empty identifier was
    given. *)
Definition whenTraced (trace : option string) (op : string -> TraceOp) : list TraceOp :=
  match trace with
  | Some tid => if truthy (Some tid) then [op tid] else []
  | None => []
  end.

Definition operatorName (o : Operator) : string :=
  match o with
  | equals => "equals"
  | contains => "contains"
  | otherOperator raw => raw
  end.

(** The entry logged for a dynamic match. *)
Definition dynamicRuleLog (best : BestMatch) : RuleMatchingLog :=
  mkRuleMatchingLog 0
    (Some (mkMatchedRuleLog "dynamic"
             ("Dynamic Match: " +:+ lawyerName (lawyer best))
             (email (lawyer best))
             [("score", "calculated", showZ (score best));
              ("reason", "matched", reason best)])).

(** The entry logged after the static rules were checked. *)
Definition staticRuleLog (allRules : list TriageRule) (matchingRule : option TriageRule)
  : RuleMatchingLog :=
  mkRuleMatchingLog (Z.of_nat (length allRules))
    (option_map (fun r => mkMatchedRuleLog (ruleId r) (ruleName r) (assignee r)
                            (map (fun c => (field c, operatorName (operator c), value c))
                                 (conditions r)))
                matchingRule).

(** The [try] block of [processConversation] together with the writes it
    makes to the trace, in order.  The outcome is the one of
    [processConversationBody]; a write made before an exception stays
    made. *)
Definition processConversationTracedBody (w : World) (messages : list Message)
           (trace : option string) (employee : option Employee)
  : result TriageState * list TraceOp :=
  match isDocumentQuestion (classify w) messages with
  | Throw e => (Throw e, [])
  | Ok true => (documentPath w messages, [])
  | Ok false =>
      match extractInformationFromConversation (extraction w) with
      | Throw e => (Throw e, [])
      | Ok rawExtractedInfo =>
          match fuzzyMatchExtractedInfo (legalTermFindMany w)
                                        (autoFill rawExtractedInfo employee) with
          | Throw e => (Throw e, [])
          | Ok (info, fuzzyMatches) =>
              let writes :=
                match fuzzyMatches with
                | Some matches => whenTraced trace (fun tid => OpFuzzyMatches tid matches)
                | None => []
                end in
              match findBestLawyer (lawyerFindMany w) (clock w) info employee with
              | Throw e => (Throw e, writes)
              | Ok bestLawyerMatch =>
                  match qualifying bestLawyerMatch with
                  | Some best =>
                      (Ok (dynamicDecision info best),
                       (writes ++ whenTraced trace
                                    (fun tid => OpRuleMatching tid (dynamicRuleLog best)))%list)
                  | None =>
                      match findMatchingRule (getAllRules w) info with
                      | Throw e => (Throw e, writes)
                      | Ok matchingRule =>
                          let logged :=
                            if truthy trace then
                              allRules ← getAllRules w;
                              Ok (writes ++
                                  whenTraced trace
                                    (fun tid => OpRuleMatching tid
                                                  (staticRuleLog allRules matchingRule)))%list
                            else Ok writes in
                          match logged with
                          | Throw e => (Throw e, writes)
                          | Ok writes =>
                              match matchingRule with
                              | Some rule => (Ok (ruleDecision info rule), writes)
                              | None =>
                                  match getMissingFields (getAllRules w) info with
                                  | Throw e => (Throw e, writes)
                                  | Ok missing => (Ok (needsInfoDecision info missing), writes)
                                  end
                              end
                          end
                      end
                  end
              end
          end
      end
  end.

Definition processConversationTraced (w : World) (messages : list Message)
           (trace : option string) (employee : option Employee)
  : result TriageState * list TraceOp :=
  match processConversationTracedBody w messages trace employee with
  | (Ok decision, writes) => (Ok decision, writes)
  | (Throw e, writes) =>
      (Throw e,
       (writes ++ whenTraced trace (fun tid => OpError tid "process_conversation" e))%list)
  end.

(** What the chat route needs besides the collaborators of the triage. *)
Record ChatCollaborators : Type := mkChatCollaborators {
  hasApiKey : bool;
  getEmployeeProfile : string -> result (option Employee);
  stringify : gmap string InfoValue -> string;
  complete : string -> result (option string)
}.

(** Arguments of the call to [saveConversation]; the route ignores the
    outcome of the insert. *)
Record SavedConversation : Type := mkSaved {
  savedEmployeeId : option InfoValue;
  savedMessages : list Message;
  savedAssignedTo : option string;
  savedInfo : gmap string InfoValue
}.

(** Argument of a call to [metrics.trackChat]. *)
Record ChatMetric : Type := mkChatMetric {
  messageCount : nat;
  assigned : bool;
  metricAssignee : option string;
  duration : Z
}.

Record ChatOutcome : Type := mkChatOutcome {
  httpStatus : Z;
  streamed : option string;
  saved : option SavedConversation;
  tracked : option ChatMetric;
  storeAfter : Store
}.

(** [x || null] for a property of the information. *)
Definition orNull (v : option InfoValue) : option InfoValue :=
  if truthyValue v then v else None.

(** A primitive handed over as the employee behaves as an employee all of
    whose properties are undefined. *)
Definition employeeOfData (v : option InfoValue) : option Employee :=
  if truthyValue v then Some (mkEmployee "" "" "" "" "" "" None None) else None.

(** The array read at an address. *)
Definition readArray (a : nat) (st : Store) : list Message :=
  match heap st !! a with
  | Some l => l
  | None => []
  end.

(** The [catch] block of the route: log under "chat_endpoint", complete the
    trace, answer 500. *)
Definition chatFailure (tid : string) (elapsed : Z) (e : JsError) (st : Store) : ChatOutcome :=
  let st := logTraceError tid "chat_endpoint" e st in
  let st := completeChatTrace tid elapsed st in
  mkChatOutcome 500 None None None st.

(** The handler of [POST /api/chat] for a request whose sanitised messages
    are [basicMessages], run without another request interleaving.  The
    identifier of the trace, the elapsed time and the data logged about the
    completion come from the clock, the random source and the environment.
    The response is streamed word by word; [streamed] is the text sent. *)
Definition chatRoute (c : ChatCollaborators) (w : World) (basicMessages : list Message)
           (employeeEmail : option string) (newTraceId : string) (elapsed : Z)
           (aiData : AiData) (st : Store) : ChatOutcome :=
  if negb (hasApiKey c) then mkChatOutcome 500 None None None st
  else
    let '(msgs, st) := allocate basicMessages st in
    if (length (readArray msgs st) =? 0)%nat then mkChatOutcome 400 None None None st
    else
      let '(tid, st) := startChatTrace newTraceId employeeEmail st in
      let st := logMessages tid msgs st in
      match chatEmployeeData (getEmployeeProfile c) employeeEmail with
      | Throw e => chatFailure tid elapsed e st
      | Ok employeeData =>
          let st :=
            if truthyValue employeeData
            then logEmployeeContext tid (mkEmployeeLike None None None None None None) st
            else st in
          let '(outcome, writes) :=
            processConversationTraced w (readArray msgs st) (Some tid)
                                      (employeeOfData employeeData) in
          let st := fold_left runTraceOp writes st in
          match outcome with
          | Throw e => chatFailure tid elapsed e st
          | Ok triageState =>
              match (if truthy employeeEmail
                     then enrichWithEmployeeContext (getEmployeeProfile c)
                                                    (extractedInfo triageState) employeeEmail
                     else Ok (extractedInfo triageState)) with
              | Throw e => chatFailure tid elapsed e st
              | Ok enrichedInfo =>
                  let triageState :=
                    mkTriageState enrichedInfo (assignedTo triageState) (isComplete triageState)
                                  (needsMoreInfo triageState) (missingFields triageState)
                                  (matchReason triageState) (matchScore triageState)
                                  (documentResponse triageState)
                                  (documentSources triageState) in
                  let st := logExtractedInfo tid enrichedInfo st in
                  match generateAgentResponse (stringify c) (complete c) triageState with
                  | Throw e => chatFailure tid elapsed e st
                  | Ok responseText =>
                      let st := logAIResponse tid aiData (Some responseText) st in
                      let st := completeChatTrace tid elapsed st in
                      let metric :=
                        mkChatMetric (length (readArray msgs st)) (isComplete triageState)
                                     (assignedTo triageState) elapsed in
                      let conversation :=
                        mkSaved (orNull (enrichedInfo !! "_employeeId"))
                                (readArray msgs st ++ [mkMessage assistant responseText])%list
                                (if truthy (assignedTo triageState)
                                 then assignedTo triageState else None)
                                enrichedInfo in
                      mkChatOutcome 200 (Some responseText) (Some conversation)
                                    (Some metric) st
                  end
              end
          end
      end.

(** Operations that neither replace nor push to a message array nor remove
    a trace. *)
Definition keepsMessages (op : TraceOp) : bool :=
  match op with
  | OpEmployeeContext _ _ | OpExtractedInfo _ _ | OpFuzzyMatches _ _ | OpRuleMatching _ _
  | OpError _ _ _ | OpComplete _ _ => true
  | OpStart _ _ | OpMessages _ _ | OpAIResponse _ _ _ | OpClear => false
  end.

(** The first trace of the storage has identifier [tid] and holds the array
    at [msgs], whose content is [content]. *)
Definition holdsArray (tid : string) (msgs : nat) (content : list Message) (st : Store) : Prop :=
  (exists t rest, traceStorage st = t :: rest /\ ctTraceId t = tid /\ ctMessages t = msgs) /\
  heap st !! msgs = Some content.

(* ===================================================================== *)
(** * metrics: the collector                                              *)
(* ===================================================================== *)

(** Source: src/server/src/metrics.ts, class [MetricsCollector].  The
    collector is a singleton whose fields the three [track] methods and
    [reset] mutate; here its state is passed explicitly.  An entry is stored
    with the time of the call, read from the clock.  The counters are
    JavaScript numbers that only ever grow by one from zero; they are
    natural numbers here.  The warning logged for a slow request is not
    part of the state. *)

Record RequestMetrics : Type := mkRequestMetrics {
  rqEndpoint : string;
  rqMethod : string;
  rqStatusCode : Z;
  rqDuration : Z
}.

Record ErrorMetrics : Type := mkErrorMetrics {
  emEndpoint : string;
  emMethod : string;
  emErrorType : string;
  emErrorMessage : string
}.

(** [{ ...metrics, timestamp: new Date() }]. *)
Record Stamped (A : Type) : Type := mkStamped {
  stamped : A;
  stamp : Z
}.

Arguments mkStamped {A} _ _.
Arguments stamped {A} _.
Arguments stamp {A} _.

Record MetricsCollector : Type := mkMetricsCollector {
  requestMetrics : list (Stamped RequestMetrics);
  chatMetrics : list (Stamped ChatMetric);
  errorMetrics : list (Stamped ErrorMetrics);
  totalRequests : nat;
  totalErrors : nat;
  totalChats : nat;
  totalAssignments : nat
}.

Definition MAX_METRICS : nat := 1000.

(** [buffer.push(x); if (buffer.length > MAX_METRICS) buffer.shift()]. *)
Definition pushBounded {A} (buffer : list A) (x : A) : list A :=
  let buffer := (buffer ++ [x])%list in
  if (MAX_METRICS <? length buffer)%nat then tl buffer else buffer.

Definition trackRequest (m : RequestMetrics) (clock : Z) (c : MetricsCollector)
  : MetricsCollector :=
  mkMetricsCollector (pushBounded (requestMetrics c) (mkStamped m clock))
                     (chatMetrics c) (errorMetrics c)
                     (S (totalRequests c)) (totalErrors c) (totalChats c)
                     (totalAssignments c).

Definition trackChat (m : ChatMetric) (clock : Z) (c : MetricsCollector) : MetricsCollector :=
  mkMetricsCollector (requestMetrics c)
                     (pushBounded (chatMetrics c) (mkStamped m clock))
                     (errorMetrics c)
                     (totalRequests c) (totalErrors c) (S (totalChats c))
                     (if assigned m then S (totalAssignments c) else totalAssignments c).

Definition trackError (m : ErrorMetrics) (clock : Z) (c : MetricsCollector)
  : MetricsCollector :=
  mkMetricsCollector (requestMetrics c) (chatMetrics c)
                     (pushBounded (errorMetrics c) (mkStamped m clock))
                     (totalRequests c) (S (totalErrors c)) (totalChats c)
                     (totalAssignments c).

Definition reset (c : MetricsCollector) : MetricsCollector :=
  mkMetricsCollector [] [] [] 0 0 0 0.

(** The collector as the module creates it. *)
Definition newCollector : MetricsCollector := mkMetricsCollector [] [] [] 0 0 0 0.

(** A call to the collector. *)
Inductive MetricsCall : Type :=
| CallTrackRequest (m : RequestMetrics) (clock : Z)
| CallTrackChat (m : ChatMetric) (clock : Z)
| CallTrackError (m : ErrorMetrics) (clock : Z)
| CallReset.

Definition runMetricsCall (c : MetricsCollector) (call : MetricsCall) : MetricsCollector :=
  match call with
  | CallTrackRequest m clock => trackRequest m clock c
  | CallTrackChat m clock => trackChat m clock c
  | CallTrackError m clock => trackError m clock c
  | CallReset => reset c
  end.

(** The chats tracked since the last [reset], oldest first. *)
Fixpoint chatsSinceReset (calls : list MetricsCall) (acc : list (Stamped ChatMetric))
  : list (Stamped ChatMetric) :=
  match calls with
  | [] => acc
  | CallTrackChat m clock :: rest => chatsSinceReset rest (acc ++ [mkStamped m clock])%list
  | CallReset :: rest => chatsSinceReset rest []
  | _ :: rest => chatsSinceReset rest acc
  end.

(** The last [n] elements of a list. *)
Definition lastN {A} (n : nat) (l : list A) : list A := skipn (length l - n) l.

(* ===================================================================== *)
(** * emailWebhook: routing an incoming email                             *)
(* ===================================================================== *)

(** Source: src/server/src/emailWebhook.ts, [processIncomingEmail].  The
    calls to the database are inputs: the identifier given to the new route
    row or the exception of the insert, the outcome of each update of the
    row by its position among the updates of the request, and the outcome
    of the insert of the conversation; so is the time read for each
    update.  An update that throws leaves the row as it was.  The function returns its result together with the route
    row as the request leaves it and the conversations it inserted. *)

Module EmailWebhook.

Record IncomingEmail : Type := mkIncomingEmail {
  from : string;
  subject : string;
  body : string;
  metadata : option (list (string * Json))
}.

Record EmailRouteResult : Type := mkEmailRouteResult {
  success : bool;
  routedTo : option string;
  confidence : option Q;
  error : option string;
  routeId : string
}.

Inductive RouteStatus : Type := pending | routed | failed.

(** The columns of a route row that the function writes. *)
Record EmailRoute : Type := mkEmailRoute {
  rowId : string;
  rowFromEmail : string;
  rowSubject : string;
  rowBody : string;
  rowRoutedTo : option string;
  rowRuleMatched : option string;
  rowConfidence : option Q;
  rowStatus : RouteStatus;
  rowErrorMessage : option string;
  rowProcessedAt : option Z;
  rowMetadata : list (string * Json)
}.

(** The data of [prisma.conversation.create]. *)
Record ConversationData : Type := mkConversationData {
  convEmployeeId : option InfoValue;
  convAssignedTo : option string;
  convResolved : bool;
  convExtractedInfo : gmap string InfoValue;
  convMessages : list Message
}.

Record MailStore : Type := mkMailStore {
  emailRouteCreate : result string;
  emailRouteUpdate : nat -> result unit;
  updateClock : nat -> Z;
  conversationCreate : result unit
}.

(** The row after the update of the branch "Successfully routed". *)
Definition markRouted (a : option string) (clock : Z) (r : EmailRoute) : EmailRoute :=
  mkEmailRoute (rowId r) (rowFromEmail r) (rowSubject r) (rowBody r)
               a a (Some 1%Q) routed (rowErrorMessage r) (Some clock) (rowMetadata r).

(** The row after an update to "failed" with an error message. *)
Definition markFailed (msg : string) (clock : Z) (r : EmailRoute) : EmailRoute :=
  mkEmailRoute (rowId r) (rowFromEmail r) (rowSubject r) (rowBody r)
               (rowRoutedTo r) (rowRuleMatched r) (rowConfidence r) failed (Some msg)
               (Some clock) (rowMetadata r).

(** The conversation of the request: one user message. *)
Definition messageText (email : IncomingEmail) : string :=
  "Subject: " +:+ subject email +:+ nl +:+ nl +:+ body email.

Definition messagesOf (email : IncomingEmail) : list Message :=
  [mkMessage user (messageText email)].

(** The [try] block: its outcome, the row, the conversations inserted and
    the number of updates attempted. *)
Definition attempt (w : World) (getEmployeeProfile : string -> result (option Employee))
           (db : MailStore) (email : IncomingEmail) (route : EmailRoute)
  : result EmailRouteResult * EmailRoute * list ConversationData * nat :=
  let messages := messagesOf email in
  match fst (processConversation w messages None None) with
  | Throw e => (Throw e, route, [], 0%nat)
  | Ok triageState =>
      match enrichWithEmployeeContext getEmployeeProfile (extractedInfo triageState)
                                      (Some (from email)) with
      | Throw e => (Throw e, route, [], 0%nat)
      | Ok enrichedInfo =>
          if isComplete triageState && truthy (assignedTo triageState) then
            match emailRouteUpdate db 0%nat with
            | Throw e => (Throw e, route, [], 1%nat)
            | Ok _ =>
                let route := markRouted (assignedTo triageState) (updateClock db 0%nat) route in
                match conversationCreate db with
                | Throw e => (Throw e, route, [], 1%nat)
                | Ok _ =>
                    (Ok (mkEmailRouteResult true (assignedTo triageState) (Some 1%Q) None
                                            (rowId route)),
                     route,
                     [mkConversationData
                        (enrichedInfo !! "_employeeId") (assignedTo triageState) false
                        enrichedInfo
                        [mkMessage user (messageText email);
                         mkMessage system
                           ("Auto-routed to " +:+ interpolate (assignedTo triageState) +:+
                            " via email webhook")]],
                     1%nat)
                end
            end
          else
            let missing := join ", " (missingFields triageState) in
            match emailRouteUpdate db 0%nat with
            | Throw e => (Throw e, route, [], 1%nat)
            | Ok _ =>
                (Ok (mkEmailRouteResult
                       false None None
                       (Some ("Unable to route automatically. Missing: " +:+ missing))
                       (rowId route)),
                 markFailed ("Unable to route automatically. Missing information: " +:+ missing)
                            (updateClock db 0%nat) route,
                 [], 1%nat)
            end
      end
  end.

Definition processIncomingEmail (w : World)
           (getEmployeeProfile : string -> result (option Employee))
           (db : MailStore) (email : IncomingEmail)
  : result EmailRouteResult * option EmailRoute * list ConversationData :=
  match emailRouteCreate db with
  | Throw e => (Throw e, None, [])
  | Ok id =>
      let route :=
        mkEmailRoute id (from email) (subject email) (body email) None None None pending
                     None None
                     match metadata email with Some m => m | None => [] end in
      match attempt w getEmployeeProfile db email route with
      | (Ok r, route, conversations, _) => (Ok r, Some route, conversations)
      | (Throw e, route, conversations, updates) =>
          let errorMessage := messageOf e in
          match emailRouteUpdate db updates with
          | Throw e' => (Throw e', Some route, conversations)
          | Ok _ =>
              (Ok (mkEmailRouteResult false None None (Some errorMessage) (rowId route)),
               Some (markFailed errorMessage (updateClock db updates) route), conversations)
          end
      end
  end.

End EmailWebhook.

(* ===================================================================== *)
(** * embeddings: cutting a text into chunks                              *)
(* ===================================================================== *)

(** Source: src/server/src/embeddings.ts, [chunkText], for ASCII text and a
    maximal size that is a natural number. *)

Definition isTerminator (c : ascii) : bool :=
  Ascii.eqb c "." || Ascii.eqb c "!" || Ascii.eqb c "?".

(** [text.split(/[.!?]+/)]: the pieces between the maximal runs of
    terminators; [piece] is the piece being read, [inRun] tells whether the
    last character read was a terminator. *)
Fixpoint splitSentences (s : string) (piece : string) (inRun : bool) : list string :=
  match s with
  | EmptyString => [piece]
  | String c s' =>
      if isTerminator c then
        if inRun then splitSentences s' piece true
        else piece :: splitSentences s' "" true
      else splitSentences s' (piece +:+ String c "") false
  end.

(** [s.split(sep)] for a separator of one character. *)
Fixpoint splitOn (sep : ascii) (s : string) (piece : string) : list string :=
  match s with
  | EmptyString => [piece]
  | String c s' =>
      if Ascii.eqb c sep then piece :: splitOn sep s' ""
      else splitOn sep s' (piece +:+ String c "")
  end.

(** One turn of the loop over the words of a sentence that is too long. *)
Definition addWord (maxChunkSize : nat) (st : list string * string) (word : string)
  : list string * string :=
  let '(chunks, wordChunk) := st in
  if (maxChunkSize <? String.length wordChunk + String.length word + 1)%nat
  then ((chunks ++ [trim wordChunk])%list, word)
  else (chunks,
        wordChunk +:+ (if (0 <? String.length wordChunk)%nat then " " else "") +:+ word).

(** One turn of the loop over the sentences. *)
Definition addSentence (maxChunkSize : nat) (st : list string * string) (sentence : string)
  : list string * string :=
  let '(chunks, currentChunk) := st in
  let trimmed := trim sentence in
  if (maxChunkSize <? String.length currentChunk + String.length trimmed + 2)%nat then
    let '(chunks, currentChunk) :=
      if (0 <? String.length currentChunk)%nat
      then ((chunks ++ [trim currentChunk])%list, "")
      else (chunks, currentChunk) in
    if (maxChunkSize <? String.length trimmed)%nat then
      let words := splitOn " " trimmed "" in
      let '(chunks, wordChunk) := fold_left (addWord maxChunkSize) words (chunks, "") in
      (chunks, if (0 <? String.length wordChunk)%nat then wordChunk else currentChunk)
    else (chunks, trimmed)
  else
    (chunks,
     currentChunk +:+ (if (0 <? String.length currentChunk)%nat then ". " else "") +:+ trimmed).

(** [text.split(/[.!?]+/).filter(s => s.trim().length > 0)]. *)
Definition sentencesOf (text : string) : list string :=
  List.filter (fun s => (0 <? String.length (trim s))%nat) (splitSentences text "" false).

Definition chunkText (text : string) (maxChunkSize : nat) : list string :=
  let '(chunks, currentChunk) :=
    fold_left (addSentence maxChunkSize) (sentencesOf text) ([], "") in
  if (0 <? String.length currentChunk)%nat
  then (chunks ++ [trim currentChunk])%list else chunks.

(* ===================================================================== *)
(** * emailProcessor: answering an incoming email                         *)
(* ===================================================================== *)

(** Source: src/unnamed/part_006, from [processIncomingEmail] on (the
    module [emailProcessor]).  The inserts into the database are inputs:
    the outcome of each call to [logEmailRoute] by the number of calls made
    before it, and the outcome of the insert of the conversation.  [stripHtml] stands for the chain of [replace] and
    [trim] that turns the HTML of an email into text.  The function returns
    its outcome with the routes it logged, the conversations it saved and
    the store of traces as it leaves it. *)

(** The double quote of the HTML attributes. *)
Definition dq : string := String (ascii_of_nat 34) EmptyString.

Module EmailProcessor.

Record IncomingEmail : Type := mkIncomingEmail {
  from : string;
  to : string;
  subject : string;
  body : string;
  html : option string;
  timestamp : Z;
  messageId : option string
}.

Record EmailResponse : Type := mkEmailResponse {
  respTo : string;
  respCc : option (list string);
  respSubject : string;
  respBody : string;
  respHtml : option string;
  respReplyTo : option string
}.

Inductive RouteStatus : Type := pending | routed | failed.

(** The data of the insert made by [logEmailRoute]. *)
Record RouteLog : Type := mkRouteLog {
  logFromEmail : string;
  logSubject : string;
  logBody : string;
  logRoutedTo : option string;
  logRuleMatched : option string;
  logConfidence : option Q;
  logStatus : RouteStatus;
  logErrorMessage : option string;
  logMessageId : option string;
  logTimestamp : Z;
  logTriageInfo : option (gmap string InfoValue);
  logProcessedAt : option Z
}.

(** The data of the insert made by [saveEmailConversation]. *)
Record ConversationData : Type := mkConversationData {
  convEmployeeId : string;
  convAssignedTo : option string;
  convExtractedInfo : gmap string InfoValue;
  convResolved : bool;
  convMessages : list Message
}.

Record Collaborators : Type := mkCollaborators {
  getEmployeeProfile : string -> result (option Employee);
  stripHtml : string -> string;
  stringify : gmap string InfoValue -> string;
  complete : string -> result (option string);
  emailRouteCreate : nat -> result unit;
  conversationCreate : result unit;
  newTraceId : string;
  elapsed : Z;
  aiData : AiData;
  clock : Z
}.

Definition formatEmailAsMessage (c : Collaborators) (email : IncomingEmail) : string :=
  let content := body email in
  let content :=
    if truthy (html email) && negb (truthy (Some content))
    then stripHtml c (interpolate (html email)) else content in
  if truthy (Some (subject email)) && negb (String.prefix "re:" (toLowerCase (subject email)))
  then "Subject: " +:+ subject email +:+ nl +:+ nl +:+ content
  else content.

Definition formatEmailAsHtml (firstName message : string) (ccEmail : option string) : string :=
  let ccSection :=
    if truthy ccEmail
    then "<p><em>I've also CC'd " +:+ interpolate ccEmail +:+
         " who will assist you with this request.</em></p>"
    else "" in
  let paragraphs :=
    join "" (map (fun line => "<p>" +:+ line +:+ "</p>")
                 (splitOn (ascii_of_nat 10) message "")) in
  nl +:+
  "    <!DOCTYPE html>" +:+ nl +:+
  "    <html>" +:+ nl +:+
  "    <head>" +:+ nl +:+
  "      <style>" +:+ nl +:+
  "        body { font-family: Arial, sans-serif; line-height: 1.6; color: #333; }" +:+ nl +:+
  "        .container { max-width: 600px; margin: 0 auto; padding: 20px; }" +:+ nl +:+
  "        .message { background: #f9f9f9; padding: 15px; border-radius: 5px; margin: 20px 0; }" +:+ nl +:+
  "        .footer { font-size: 12px; color: #666; margin-top: 20px; border-top: 1px solid #ddd; padding-top: 10px; }" +:+ nl +:+
  "      </style>" +:+ nl +:+
  "    </head>" +:+ nl +:+
  "    <body>" +:+ nl +:+
  "      <div class=" +:+ dq +:+ "container" +:+ dq +:+ ">" +:+ nl +:+
  "        <p>Hi " +:+ firstName +:+ ",</p>" +:+ nl +:+
  "        <div class=" +:+ dq +:+ "message" +:+ dq +:+ ">" +:+ nl +:+
  "          " +:+ paragraphs +:+ nl +:+
  "        </div>" +:+ nl +:+
  "        " +:+ ccSection +:+ nl +:+
  "        <p>Best regards,<br>Legal Triage System</p>" +:+ nl +:+
  "        <div class=" +:+ dq +:+ "footer" +:+ dq +:+ ">" +:+ nl +:+
  "          <p>This is an automated response from the Acme Corp Legal Triage System. If you need immediate assistance, please contact legal@acme.corp directly.</p>" +:+ nl +:+
  "        </div>" +:+ nl +:+
  "      </div>" +:+ nl +:+
  "    </body>" +:+ nl +:+
  "    </html>" +:+ nl +:+
  "  ".

(** [triageState.isComplete && triageState.assignedTo] as a condition. *)
Definition routedTo (triageState : TriageState) : bool :=
  isComplete triageState && truthy (assignedTo triageState).

Definition createEmailResponse (originalEmail : IncomingEmail) (employee : Employee)
           (triageState : TriageState) (aiResponse : string) : EmailResponse :=
  if routedTo triageState then
    mkEmailResponse
      (empEmail employee)
      (Some [interpolate (assignedTo triageState)])
      ("Re: " +:+ subject originalEmail)
      ("Hi " +:+ firstName employee +:+ "," +:+ nl +:+ nl +:+ aiResponse +:+ nl +:+ nl +:+
       "I've also CC'd " +:+ interpolate (assignedTo triageState) +:+
       " who will assist you with this request." +:+ nl +:+ nl +:+
       "Best regards," +:+ nl +:+ "Legal Triage System")
      (Some (formatEmailAsHtml (firstName employee) aiResponse (assignedTo triageState)))
      (assignedTo triageState)
  else
    mkEmailResponse
      (empEmail employee)
      None
      ("Re: " +:+ subject originalEmail)
      ("Hi " +:+ firstName employee +:+ "," +:+ nl +:+ nl +:+ aiResponse +:+ nl +:+ nl +:+
       "Please reply to this email with the requested information and I'll route your request to the appropriate legal team member." +:+
       nl +:+ nl +:+ "Best regards," +:+ nl +:+ "Legal Triage System")
      (Some (formatEmailAsHtml (firstName employee) aiResponse None))
      None.

Definition createUnknownSenderResponse (email : IncomingEmail) : EmailResponse :=
  mkEmailResponse
    (from email)
    None
    ("Re: " +:+ subject email)
    ("Hello," +:+ nl +:+ nl +:+
     "Thank you for contacting Acme Corp Legal. However, we couldn't find your email (" +:+
     from email +:+ ") in our employee directory." +:+ nl +:+ nl +:+
     "If you're an Acme Corp employee, please contact HR to update your profile. If you're an external party, please contact us at legal@acme.corp directly." +:+
     nl +:+ nl +:+ "Best regards," +:+ nl +:+ "Legal Team")
    (Some (nl +:+
  "      <p>Hello,</p>" +:+ nl +:+
  "      <p>Thank you for contacting Acme Corp Legal. However, we couldn't find your email (<strong>" +:+ from email +:+ "</strong>) in our employee directory.</p>" +:+ nl +:+
  "      <p>If you're an Acme Corp employee, please contact HR to update your profile. If you're an external party, please contact us at <a href=" +:+ dq +:+ "mailto:legal@acme.corp" +:+ dq +:+ ">legal@acme.corp</a> directly.</p>" +:+ nl +:+
  "      <p>Best regards,<br>Legal Team</p>" +:+ nl +:+
  "    "))
    None.

Definition createErrorResponse (email : IncomingEmail) : EmailResponse :=
  mkEmailResponse
    (from email)
    None
    ("Re: " +:+ subject email)
    ("Hello," +:+ nl +:+ nl +:+
     "We encountered an error processing your legal request. Our team has been notified and will follow up with you shortly." +:+
     nl +:+ nl +:+
     "For urgent matters, please contact legal@acme.corp directly." +:+ nl +:+ nl +:+
     "Best regards," +:+ nl +:+ "Legal Team")
    (Some (nl +:+
  "      <p>Hello,</p>" +:+ nl +:+
  "      <p>We encountered an error processing your legal request. Our team has been notified and will follow up with you shortly.</p>" +:+ nl +:+
  "      <p>For urgent matters, please contact <a href=" +:+ dq +:+ "mailto:legal@acme.corp" +:+ dq +:+ ">legal@acme.corp</a> directly.</p>" +:+ nl +:+
  "      <p>Best regards,<br>Legal Team</p>" +:+ nl +:+
  "    "))
    None.

(** The data that [logEmailRoute] inserts; [triageState] is [null] in the
    calls that log a failure. *)
Definition routeLog (c : Collaborators) (email : IncomingEmail) (routed_to : option string)
           (triageState : option TriageState) (status : RouteStatus)
           (errorText : option string) : RouteLog :=
  mkRouteLog
    (from email) (subject email) (body email) routed_to
    (match triageState with
     | Some d => if truthy (matchReason d) then matchReason d else None
     | None => None
     end)
    (match triageState with
     | Some d =>
         match matchScore d with
         | Some score => if (score =? 0)%Z then None else Some (inject_Z score / 100)%Q
         | None => None
         end
     | None => None
     end)
    status errorText (messageId email) (timestamp email)
    (extractedInfo <$> triageState)
    (match status with routed => Some (clock c) | _ => None end).

(** What a run has written so far: the routes logged, the number of calls
    to [logEmailRoute], the conversations saved, the store of traces. *)
Record Effects : Type := mkEffects {
  routes : list RouteLog;
  routeCalls : nat;
  conversations : list ConversationData;
  traces : Store
}.

(** [await logEmailRoute(...)]. *)
Definition logEmailRoute (c : Collaborators) (entry : RouteLog) (fx : Effects)
  : result unit * Effects :=
  match emailRouteCreate c (routeCalls fx) with
  | Throw e =>
      (Throw e, mkEffects (routes fx) (S (routeCalls fx)) (conversations fx) (traces fx))
  | Ok _ =>
      (Ok tt, mkEffects (routes fx ++ [entry])%list (S (routeCalls fx)) (conversations fx)
                        (traces fx))
  end.

Definition onTraces (f : Store -> Store) (fx : Effects) : Effects :=
  mkEffects (routes fx) (routeCalls fx) (conversations fx) (f (traces fx)).

(** The information saved and logged for a known sender. *)
Definition withEmployee (info : gmap string InfoValue) (employee : Employee)
  : gmap string InfoValue :=
  let info := <["_employeeId" := IVstr (empId employee)]> info in
  let info :=
    <["_employeeName" := IVstr (firstName employee +:+ " " +:+ lastName employee)]> info in
  match role employee with
  | Some r => <["_employeeRole" := IVstr r]> info
  | None => delete "_employeeRole" info
  end.

(** The [try] block, from the lookup of the sender on. *)
Definition attempt (c : Collaborators) (w : World) (email : IncomingEmail) (tid : string)
           (fx : Effects) : result EmailResponse * Effects :=
  match getEmployeeProfile c (from email) with
  | Throw e => (Throw e, fx)
  | Ok None =>
      match logEmailRoute c (routeLog c email None None failed
                               (Some "Unknown sender - not in employee directory")) fx with
      | (Throw e, fx) => (Throw e, fx)
      | (Ok _, fx) => (Ok (createUnknownSenderResponse email), fx)
      end
  | Ok (Some employee) =>
      let fx :=
        onTraces (logEmployeeContext tid
                    (mkEmployeeLike (Some (empId employee)) None None
                                    (Some (department employee)) (Some (location employee))
                                    (empTags employee))) fx in
      let userMessage := formatEmailAsMessage c email in
      let '(messages, st) := allocate [mkMessage user userMessage] (traces fx) in
      let fx := mkEffects (routes fx) (routeCalls fx) (conversations fx)
                          (logMessages tid messages st) in
      let '(outcome, writes) :=
        processConversationTraced w (readArray messages (traces fx)) (Some tid)
                                  (Some employee) in
      let fx := onTraces (fun st => fold_left runTraceOp writes st) fx in
      match outcome with
      | Throw e => (Throw e, fx)
      | Ok triageState =>
          let enrichedInfo := withEmployee (extractedInfo triageState) employee in
          let fx := onTraces (logExtractedInfo tid enrichedInfo) fx in
          match generateAgentResponse (stringify c) (complete c) triageState with
          | Throw e => (Throw e, fx)
          | Ok responseText =>
              let fx := onTraces (logAIResponse tid (aiData c) None) fx in
              match conversationCreate c with
              | Throw e => (Throw e, fx)
              | Ok _ =>
                  let fx :=
                    mkEffects (routes fx) (routeCalls fx)
                              (conversations fx ++
                               [mkConversationData
                                  (empId employee) (assignedTo triageState) enrichedInfo
                                  (truthy (assignedTo triageState))
                                  [mkMessage user (formatEmailAsMessage c email)]])%list
                              (traces fx) in
                  match logEmailRoute c (routeLog c email (assignedTo triageState)
                                                  (Some triageState) routed None) fx with
                  | (Throw e, fx) => (Throw e, fx)
                  | (Ok _, fx) =>
                      let emailResponse :=
                        createEmailResponse email employee triageState responseText in
                      (Ok emailResponse, onTraces (completeChatTrace tid (elapsed c)) fx)
                  end
              end
          end
      end
  end.

(** [processIncomingEmail]; it never resolves to [null]. *)
Definition processIncomingEmail (c : Collaborators) (w : World) (email : IncomingEmail)
           (fx : Effects) : result EmailResponse * Effects :=
  let '(tid, st) := startChatTrace (newTraceId c) (Some (from email)) (traces fx) in
  let fx := mkEffects (routes fx) (routeCalls fx) (conversations fx) st in
  match attempt c w email tid fx with
  | (Ok response, fx) => (Ok response, fx)
  | (Throw e, fx) =>
      match logEmailRoute c (routeLog c email None None failed (Some (messageOf e))) fx with
      | (Throw e', fx) => (Throw e', fx)
      | (Ok _, fx) =>
          (Ok (createErrorResponse email), onTraces (completeChatTrace tid (elapsed c)) fx)
      end
  end.

(** The counters and the responses of [batchProcessEmails]. *)
Record Batch : Type := mkBatch {
  processed : nat;
  batchFailed : nat;
  responses : list EmailResponse
}.

(** One turn of the loop of [batchProcessEmails]: the collaborators and the
    world are those of the email's own processing. *)
Definition batchStep (acc : Batch * Effects) (request : Collaborators * World * IncomingEmail)
  : Batch * Effects :=
  let '(batch, fx) := acc in
  let '(c, w, email) := request in
  match processIncomingEmail c w email fx with
  | (Ok response, fx) =>
      (mkBatch (S (processed batch)) (batchFailed batch) (responses batch ++ [response])%list,
       fx)
  | (Throw _, fx) => (mkBatch (processed batch) (S (batchFailed batch)) (responses batch), fx)
  end.

Definition batchProcessEmails (requests : list (Collaborators * World * IncomingEmail))
           (fx : Effects) : Batch * Effects :=
  fold_left batchStep requests (mkBatch 0 0 [], fx).

End EmailProcessor.

(* ===================================================================== *)
(** * Rule matcher: results                                               *)
(* ===================================================================== *)

Lemma bind_Ok {A B : Type} (a : A) (k : A -> result B) : Ok a ≫= k = k a.
Proof. reflexivity. Qed.

Lemma bind_Throw {A B : Type} (e : JsError) (k : A -> result B) : Throw e ≫= k = Throw e.
Proof. reflexivity. Qed.

Section PropertyLookup.

Variable info : ExtractedInfo.

(** Where no inherited value is read, the two tests of absence agree. *)
Lemma absent_plain (f : string) : getProperty info f <> Inherited -> absent info f = lacks info f.
Proof.
  unfold absent, lacks, getProperty, truthy. destruct (info !! f) as [v|].
  - intros _. destruct (String.eqb v ""); reflexivity.
  - destruct (arrayIncludes inheritedNames f); [congruence | reflexivity].
Qed.

(** A field that the code finds absent is one that the information
    lacks. *)
Lemma absent_lacks (f : string) : absent info f = true -> lacks info f = true.
Proof.
  unfold absent, lacks, getProperty, truthy. destruct (info !! f) as [v|].
  - intros ->. reflexivity.
  - reflexivity.
Qed.

(** What the code finds present, though the information lacks it, is an
    inherited name. *)
Lemma lacks_not_absent (f : string) :
  lacks info f = true -> absent info f = false ->
  info !! f = None /\ arrayIncludes inheritedNames f = true.
Proof.
  unfold absent, lacks, getProperty, truthy. destruct (info !! f) as [v|].
  - destruct (String.eqb v ""); discriminate.
  - destruct (arrayIncludes inheritedNames f); [auto | discriminate].
Qed.

Lemma evaluateCondition_plain (c : TriageCondition) :
  getProperty info (field c) <> Inherited ->
  evaluateCondition c info = Ok (conditionHolds c info).
Proof.
  unfold evaluateCondition, conditionHolds, getProperty.
  destruct (info !! field c) as [v|].
  - intros _. destruct (String.eqb v ""); reflexivity.
  - destruct (arrayIncludes inheritedNames (field c)); [congruence | reflexivity].
Qed.

(** The evaluation of a condition throws exactly when it reads an
    inherited value. *)
Lemma evaluateCondition_Throw (c : TriageCondition) (e : JsError) :
  evaluateCondition c info = Throw e <->
  getProperty info (field c) = Inherited /\
  e = TypeError "value.toLowerCase is not a function".
Proof.
  unfold evaluateCondition. destruct (getProperty info (field c)) as [|v|].
  - split; [discriminate | intros [? _]; discriminate].
  - destruct (String.eqb v ""); (split; [discriminate | intros [? _]; discriminate]).
  - split; [intros [= <-]; auto | intros [_ ->]; reflexivity].
Qed.

(** A condition that holds names a field that the information has, with a
    non-empty value. *)
Lemma evaluateCondition_present (c : TriageCondition) :
  evaluateCondition c info = Ok true -> truthy (info !! field c) = true.
Proof.
  unfold evaluateCondition, getProperty, truthy.
  destruct (info !! field c) as [v|].
  - destruct (String.eqb v ""); [discriminate | reflexivity].
  - destruct (arrayIncludes inheritedNames (field c)); discriminate.
Qed.

Lemma everyCondition_plain (conds : list TriageCondition) :
  (forall c, In c conds -> getProperty info (field c) <> Inherited) ->
  everyCondition conds info = Ok (forallb (fun c => conditionHolds c info) conds).
Proof.
  induction conds as [|c conds IH]; intros H; simpl; [reflexivity|].
  rewrite evaluateCondition_plain by (apply H; left; reflexivity). rewrite bind_Ok.
  destruct (conditionHolds c info); simpl; [|reflexivity].
  apply IH. intros c' Hc'. apply H. right. exact Hc'.
Qed.

(** [every] holds when each condition evaluates to true. *)
Lemma everyCondition_true (conds : list TriageCondition) :
  everyCondition conds info = Ok true <->
  Forall (fun c => evaluateCondition c info = Ok true) conds.
Proof.
  induction conds as [|c conds IH]; simpl.
  - split; [constructor | reflexivity].
  - destruct (evaluateCondition c info) as [[|]|e] eqn:E; simpl.
    + rewrite IH. split; [intros H; constructor; assumption | intros H; inversion H; assumption].
    + split; [discriminate | intros H; inversion H; congruence].
    + split; [discriminate | intros H; inversion H; congruence].
Qed.

(** [every] is false when a condition evaluates to false, those before it
    holding. *)
Lemma everyCondition_false (conds : list TriageCondition) :
  everyCondition conds info = Ok false ->
  Exists (fun c => evaluateCondition c info = Ok false) conds.
Proof.
  induction conds as [|c conds IH]; simpl; [discriminate|].
  destruct (evaluateCondition c info) as [[|]|e] eqn:E; simpl.
  - intros H. apply Exists_cons_tl, IH, H.
  - intros _. apply Exists_cons_hd. exact E.
  - discriminate.
Qed.

Lemma evaluateRule_plain (rule : TriageRule) :
  (forall c, In c (conditions rule) -> getProperty info (field c) <> Inherited) ->
  evaluateRule rule info = Ok (ruleMatches rule info).
Proof.
  intros H. unfold evaluateRule, ruleMatches. destruct (enabled rule); simpl; [|reflexivity].
  apply everyCondition_plain, H.
Qed.

Lemma evaluateRule_true (rule : TriageRule) :
  evaluateRule rule info = Ok true <->
  enabled rule = true /\
  Forall (fun c => evaluateCondition c info = Ok true) (conditions rule).
Proof.
  unfold evaluateRule. destruct (enabled rule); simpl.
  - rewrite everyCondition_true. tauto.
  - split; [discriminate | intros [? _]; discriminate].
Qed.

Lemma evaluateRule_false (rule : TriageRule) :
  evaluateRule rule info = Ok false ->
  enabled rule = false \/
  Exists (fun c => evaluateCondition c info = Ok false) (conditions rule).
Proof.
  unfold evaluateRule. destruct (enabled rule); simpl; [|auto].
  intros H. right. apply everyCondition_false, H.
Qed.

(** The rule returned is the first one, in list order, that evaluates to
    true; no rule before it throws. *)
Lemma findMatchingRuleIn_Some (rules : list TriageRule) (r : TriageRule) :
  findMatchingRuleIn rules info = Ok (Some r) ->
  exists before after,
    rules = (before ++ r :: after)%list /\
    evaluateRule r info = Ok true /\
    Forall (fun r' => evaluateRule r' info = Ok false) before.
Proof.
  induction rules as [|rule rest IH]; simpl; [discriminate|].
  destruct (evaluateRule rule info) as [[|]|e] eqn:E; simpl.
  - intros [= ->]. exists [], rest. repeat split; [exact E | constructor].
  - intros H. destruct (IH H) as (before & after & -> & Hr & Hb).
    exists (rule :: before), after. repeat split; [exact Hr | constructor; assumption].
  - discriminate.
Qed.



(** A rule before which every rule evaluates to false decides the result of
    the matcher. *)
Lemma findMatchingRuleIn_app (before after : list TriageRule) (r : TriageRule) :
  Forall (fun r' => evaluateRule r' info = Ok false) before ->
  findMatchingRuleIn (before ++ r :: after) info =
  (matches ← evaluateRule r info;
   if matches : bool then Ok (Some r) else findMatchingRuleIn after info).
Proof.
  induction 1 as [|r' before Hr' _ IH]; simpl; [reflexivity|].
  rewrite Hr'. simpl. exact IH.
Qed.

Lemma findMatchingRuleIn_plain (rules : list TriageRule) :
  plainFields rules info ->
  findMatchingRuleIn rules info = Ok (List.find (fun rule => ruleMatches rule info) rules).
Proof.
  induction rules as [|rule rest IH]; intros H; simpl; [reflexivity|].
  rewrite evaluateRule_plain by (intros c Hc; apply (H rule c); [left; reflexivity | exact Hc]).
  rewrite bind_Ok. destruct (ruleMatches rule info); [reflexivity|].
  apply IH. intros r c Hr Hc. apply (H r c); [right; exact Hr | exact Hc].
Qed.

End PropertyLookup.





(* ===================================================================== *)
(** * Missing-field policy: results                                       *)
(* ===================================================================== *)

Section Sets.

Lemma filter_comm {A} (p q : A -> bool) (l : list A) :
  List.filter p (List.filter q l) = List.filter q (List.filter p l).
Proof.
  induction l as [|x l IH]; simpl; [reflexivity|].
  destruct (q x) eqn:Q, (p x) eqn:P; simpl; rewrite ?Q, ?P, IH; reflexivity.
Qed.

Lemma filter_and {A} (p q : A -> bool) (l : list A) :
  List.filter (fun y => p y && q y) l = List.filter q (List.filter p l).
Proof.
  induction l as [|x l IH]; simpl; [reflexivity|].
  destruct (p x) eqn:P; simpl; [destruct (q x); rewrite IH; reflexivity | exact IH].
Qed.

Lemma filter_differs_absorbed (p : string -> bool) (x : string) (l : list string) :
  p x = false ->
  List.filter p (List.filter (fun y => negb (String.eqb y x)) l) = List.filter p l.
Proof.
  intros Hx. induction l as [|y l IH]; simpl; [reflexivity|].
  destruct (String.eqb_spec y x) as [->|Hne]; simpl.
  - rewrite Hx. exact IH.
  - rewrite IH. reflexivity.
Qed.

(** Filtering by value commutes with first-occurrence deduplication. *)
Lemma dedupFirst_filter (p : string -> bool) (l : list string) :
  dedupFirst (List.filter p l) = List.filter p (dedupFirst l).
Proof.
  induction l as [|x l IH]; simpl; [reflexivity|].
  destruct (p x) eqn:P; simpl.
  - rewrite IH, filter_comm. reflexivity.
  - rewrite IH, filter_differs_absorbed by exact P. reflexivity.
Qed.

Lemma dedupFirst_In (x : string) (l : list string) : In x (dedupFirst l) <-> In x l.
Proof.
  induction l as [|y l IH]; simpl; [tauto|].
  rewrite filter_In, IH. destruct (String.eqb_spec x y) as [->|Hne]; simpl.
  - tauto.
  - split; [tauto|]. intros [->|H]; [congruence | auto].
Qed.

Lemma arrayIncludes_snoc (acc : list string) (x y : string) :
  arrayIncludes (acc ++ [x]) y = arrayIncludes acc y || String.eqb y x.
Proof.
  unfold arrayIncludes. rewrite existsb_app. simpl. rewrite orb_false_r. reflexivity.
Qed.

(** Adding the values of [l] to a set that holds [acc]. *)
Lemma fold_setAdd (l acc : list string) :
  fold_left setAdd l acc =
  (acc ++ dedupFirst (List.filter (fun y => negb (arrayIncludes acc y)) l))%list.
Proof.
  revert acc. induction l as [|x l IH]; intros acc; simpl.
  - rewrite app_nil_r. reflexivity.
  - unfold setAdd at 2. destruct (arrayIncludes acc x) eqn:E; simpl.
    + apply IH.
    + rewrite IH, <- app_assoc. simpl. do 2 f_equal.
      rewrite <- dedupFirst_filter, <- filter_and. f_equal.
      apply filter_ext. intros y. rewrite arrayIncludes_snoc, negb_orb. reflexivity.
Qed.

(** [Array.from(new Set(l))] keeps the first occurrence of every value. *)
Lemma arrayFromSet_dedupFirst (l : list string) : arrayFromSet l = dedupFirst l.
Proof.
  unfold arrayFromSet. rewrite fold_setAdd. simpl. f_equal.
  induction l as [|x l IH]; simpl; [reflexivity | f_equal; exact IH].
Qed.

End Sets.

Lemma fold_setAdd_fields (conds : list TriageCondition) (acc : list string) :
  fold_left (fun fields condition => setAdd fields (field condition)) conds acc =
  fold_left setAdd (map field conds) acc.
Proof.
  revert acc. induction conds as [|c conds IH]; intros acc; simpl; [reflexivity | apply IH].
Qed.

Lemma getRequiredFieldsIn_flat (rules : list TriageRule) :
  getRequiredFieldsIn rules = dedupFirst (flat_map ruleFields rules).
Proof.
  rewrite <- arrayFromSet_dedupFirst. unfold getRequiredFieldsIn, arrayFromSet.
  generalize (@nil string) as acc.
  induction rules as [|rule rules IH]; intros acc; simpl; [reflexivity|].
  rewrite fold_left_app, IH, fold_setAdd_fields. reflexivity.
Qed.

Section Closeness.

Variable isAbsent : string -> bool.

Lemma some_absent (fs : list string) :
  (0 <? length (List.filter isAbsent fs))%nat = existsb isAbsent fs.
Proof.
  induction fs as [|f fs IH]; simpl; [reflexivity|].
  destruct (isAbsent f); simpl; [reflexivity | exact IH].
Qed.

Lemma filter_length_le {A} (p : A -> bool) (l : list A) :
  (length (List.filter p l) <= length l)%nat.
Proof.
  induction l as [|x l IH]; simpl; [lia|]. destruct (p x); simpl; lia.
Qed.

Lemma some_present (fs : list string) :
  (length (List.filter isAbsent fs) <? length fs)%nat =
  existsb (fun f => negb (isAbsent f)) fs.
Proof.
  induction fs as [|f fs IH]; simpl; [reflexivity|].
  destruct (isAbsent f); simpl.
  - exact IH.
  - pose proof (filter_length_le isAbsent fs).
    apply Nat.ltb_lt. lia.
Qed.

Lemma close_has_missing (rule : TriageRule) :
  isClose isAbsent rule = true -> missingFor isAbsent rule <> [].
Proof.
  unfold isClose, missingFor. intros H. apply andb_true_iff in H as [H _].
  rewrite <- some_absent in H. intros E. rewrite E in H. discriminate.
Qed.

Lemma fieldToAsk_at_most_one (rules : list TriageRule) :
  (length (fieldToAsk isAbsent rules) <= 1)%nat.
Proof.
  unfold fieldToAsk.
  destruct (List.filter (isClose isAbsent) rules); rewrite length_firstn; lia.
Qed.

End Closeness.

(** The field to ask for depends on the test of absence only through the
    fields that the rules name. *)
Lemma fieldToAsk_ext (p q : string -> bool) (rules : list TriageRule) :
  (forall rule f, In rule rules -> In f (ruleFields rule) -> p f = q f) ->
  fieldToAsk p rules = fieldToAsk q rules.
Proof.
  intros H.
  assert (Hmissing : forall rule, In rule rules -> missingFor p rule = missingFor q rule).
  { intros rule Hr. unfold missingFor. apply filter_ext_in. intros f Hf. apply (H rule f Hr Hf). }
  assert (Hclose : forall rule, In rule rules -> isClose p rule = isClose q rule).
  { intros rule Hr. unfold isClose. f_equal.
    - rewrite <- !some_absent. fold (missingFor p rule) (missingFor q rule).
      rewrite (Hmissing rule Hr). reflexivity.
    - rewrite <- !some_present. fold (missingFor p rule) (missingFor q rule).
      rewrite (Hmissing rule Hr). reflexivity. }
  assert (Hflat : flat_map (missingFor p) (List.filter (isClose q) rules)
                  = flat_map (missingFor q) (List.filter (isClose q) rules)).
  { rewrite !flat_map_concat_map. f_equal. apply map_ext_in.
    intros rule Hr. apply filter_In in Hr as [Hr _]. apply (Hmissing rule Hr). }
  assert (Hall : List.filter p (dedupFirst (flat_map ruleFields rules))
                 = List.filter q (dedupFirst (flat_map ruleFields rules))).
  { apply filter_ext_in. intros f Hf. apply dedupFirst_In, in_flat_map in Hf.
    destruct Hf as (rule & Hr & Hf). apply (H rule f Hr Hf). }
  unfold fieldToAsk. rewrite (filter_ext_in _ _ rules Hclose).
  destruct (List.filter (isClose q) rules) as [|c cs]; [rewrite Hall; reflexivity|].
  rewrite Hflat. reflexivity.
Qed.

Section MissingLoop.

Variable info : ExtractedInfo.

(** The length test of the loop is closeness. *)
Lemma pushMissingForRule_close (missing : list string) (rule : TriageRule) :
  pushMissingForRule info missing rule =
  if isClose (absent info) rule
  then (missing ++ missingFor (absent info) rule)%list else missing.
Proof.
  unfold pushMissingForRule, isClose, missingFor, ruleFields.
  rewrite some_absent, some_present. reflexivity.
Qed.

(** After the loop, [missing] is the concatenation, in rule order, of the
    absent fields of the close rules. *)
Lemma fold_pushMissing (rules : list TriageRule) (acc : list string) :
  fold_left (pushMissingForRule info) rules acc =
  (acc ++ flat_map (missingFor (absent info))
                   (List.filter (isClose (absent info)) rules))%list.
Proof.
  revert acc. induction rules as [|rule rules IH]; intros acc; simpl.
  - rewrite app_nil_r. reflexivity.
  - rewrite IH, pushMissingForRule_close.
    destruct (isClose (absent info) rule); simpl; [rewrite <- app_assoc|]; reflexivity.
Qed.

End MissingLoop.

(** With the rules loaded, [getMissingFields] throws what the matcher
    throws, returns nothing when a rule matches, and otherwise the field to
    ask for by the code's own test of absence. *)
Lemma getMissingFields_loaded (rules : list TriageRule) (info : ExtractedInfo) :
  getMissingFields (Ok rules) info =
  match findMatchingRuleIn rules info with
  | Ok (Some _) => Ok []
  | Ok None => Ok (fieldToAsk (absent info) rules)
  | Throw e => Throw e
  end.
Proof.
  unfold getMissingFields, getRequiredFields, findMatchingRule. rewrite !bind_Ok.
  destruct (findMatchingRuleIn rules info) as [[r|]|e]; try reflexivity.
  rewrite !bind_Ok, fold_pushMissing. cbn [app].
  rewrite getRequiredFieldsIn_flat, arrayFromSet_dedupFirst. unfold fieldToAsk.
  destruct (List.filter (isClose (absent info)) rules) as [|c cs] eqn:F; [reflexivity|].
  assert (Hc : isClose (absent info) c = true).
  { assert (In c (List.filter (isClose (absent info)) rules)) as Hin
        by (rewrite F; left; reflexivity).
    apply filter_In in Hin. tauto. }
  pose proof (close_has_missing (absent info) c Hc) as Hne.
  cbn [flat_map]. destruct (missingFor (absent info) c) as [|m ms]; [congruence|]. reflexivity.
Qed.

(** Where no condition of the rules names an inherited property that the
    information does not have as its own, [getMissingFields] computes the
    policy as described. *)
Lemma getMissingFields_plain (rules : list TriageRule) (info : ExtractedInfo) :
  plainFields rules info ->
  getMissingFields (Ok rules) info = Ok (missingFieldsPolicy rules info).
Proof.
  intros Hplain. rewrite getMissingFields_loaded, (findMatchingRuleIn_plain info rules Hplain).
  unfold missingFieldsPolicy.
  destruct (List.find (fun rule => ruleMatches rule info) rules) as [r|] eqn:F.
  - apply find_some in F as [Hin Hr].
    replace (existsb (fun rule => ruleMatches rule info) rules) with true; [reflexivity|].
    symmetry. apply existsb_exists. eauto.
  - replace (existsb (fun rule => ruleMatches rule info) rules) with false.
    + f_equal. apply fieldToAsk_ext. intros rule f Hr Hf.
      unfold ruleFields in Hf. apply in_map_iff in Hf as (c & <- & Hc).
      apply absent_plain. apply (Hplain rule c Hr Hc).
    + symmetry. apply not_true_iff_false. intros E. apply existsb_exists in E as (r & Hin & Hr).
      apply (find_none _ _ F) in Hin. congruence.
Qed.

Lemma missingFieldsPolicy_at_most_one (rules : list TriageRule) (info : ExtractedInfo) :
  (length (missingFieldsPolicy rules info) <= 1)%nat.
Proof.
  unfold missingFieldsPolicy.
  destruct (existsb _ rules); [simpl; lia | apply fieldToAsk_at_most_one].
Qed.

(** C7 (the code at the failing input).  The sample rule asks for an NDA
    and names, in its second condition, a property that every object
    inherits.  On a sales request no rule matches and the request lacks
    that field, so the rule is close and the policy asks for the field; the
    code reads the inherited value, takes the field for present, finds no
    close rule and nothing to ask for, and answers with the empty list.
    The same happens with the single field of a disabled rule. *)
Theorem getMissingFields_skips_inherited_name :
  findMatchingRule (Ok [Sample.ndaWithConstructor]) Sample.salesOnly = Ok None /\
  lacks Sample.salesOnly "constructor" = true /\
  absent Sample.salesOnly "constructor" = false /\
  missingFieldsPolicy [Sample.ndaWithConstructor] Sample.salesOnly = ["constructor"] /\
  getMissingFields (Ok [Sample.ndaWithConstructor]) Sample.salesOnly = Ok [] /\
  missingFieldsPolicy [Sample.disabledConstructor] ∅ = ["constructor"] /\
  getMissingFields (Ok [Sample.disabledConstructor]) ∅ = Ok [].
Proof. repeat split; vm_compute; reflexivity. Qed.

(** The example of the rule-matcher description: with the sales rule for
    Australia and a request that names no location, ask for the location. *)
Example getMissingFields_asks_location :
  getMissingFields (Ok [Sample.salesAu]) Sample.salesOnly = Ok ["location"].
Proof. vm_compute. reflexivity. Qed.

(* ===================================================================== *)
(** * Which fields the matcher and the scorer read                        *)
(* ===================================================================== *)

Lemma evaluateCondition_reads_field (c : TriageCondition) (info info' : ExtractedInfo) :
  info !! field c = info' !! field c ->
  evaluateCondition c info = evaluateCondition c info'.
Proof. intros H. unfold evaluateCondition, getProperty. rewrite H. reflexivity. Qed.

Lemma evaluateRule_reads_fields (rule : TriageRule) (info info' : ExtractedInfo) :
  (forall c, In c (conditions rule) -> info !! field c = info' !! field c) ->
  evaluateRule rule info = evaluateRule rule info'.
Proof.
  intros H. unfold evaluateRule. destruct (enabled rule); simpl; [|reflexivity].
  induction (conditions rule) as [|c cs IH]; simpl; [reflexivity|].
  rewrite (evaluateCondition_reads_field c info info') by (apply H; left; reflexivity).
  rewrite IH; [reflexivity|]. intros c' Hc'. apply H. right. exact Hc'.
Qed.

(** The result of the matcher, a rule, none or an exception, depends on the
    information only through the fields that the conditions of the rules
    name. *)
Lemma findMatchingRuleIn_reads_fields (rules : list TriageRule) (info info' : ExtractedInfo) :
  (forall rule c, In rule rules -> In c (conditions rule) ->
                  info !! field c = info' !! field c) ->
  findMatchingRuleIn rules info = findMatchingRuleIn rules info'.
Proof.
  induction rules as [|rule rules IH]; intros H; simpl; [reflexivity|].
  rewrite (evaluateRule_reads_fields rule info info')
    by (intros c Hc; apply (H rule c); [left; reflexivity | exact Hc]).
  rewrite IH; [reflexivity|].
  intros r c Hr Hc. apply (H r c); [right; exact Hr | exact Hc].
Qed.

(** The scorer reads [requestType], [location] and [department] only. *)
Lemma scoreLawyerMatch_reads_three (reads : Reads) (l : Lawyer) (employee : option Employee)
      (info info' : ExtractedInfo) :
  info !! "requestType" = info' !! "requestType" ->
  info !! "location" = info' !! "location" ->
  info !! "department" = info' !! "department" ->
  scoreLawyerMatch reads l info employee = scoreLawyerMatch reads l info' employee.
Proof.
  intros Hr Hl Hd.
  unfold scoreLawyerMatch, specialtyPoints, locationPoints, departmentPoints.
  rewrite Hr, Hl, Hd. reflexivity.
Qed.

(** C9 (as the code has it).  Let two informations agree on every field
    that is not internal metadata.  Then every specialist gets the same
    score from both, whenever the clock is read; and the matcher returns the
    same rule for both provided no condition of the rules names an internal
    field. *)
Theorem metadata_fields_not_compared
        (rules : list TriageRule) (employee : option Employee)
        (info info' : ExtractedInfo) :
  (forall f, isInternalField f = false -> info !! f = info' !! f) ->
  (forall reads l,
      scoreLawyerMatch reads l info employee = scoreLawyerMatch reads l info' employee) /\
  ((forall rule c, In rule rules -> In c (conditions rule) ->
                   isInternalField (field c) = false) ->
   findMatchingRule (Ok rules) info = findMatchingRule (Ok rules) info').
Proof.
  intros Hagree. split.
  - intros reads l. apply scoreLawyerMatch_reads_three; apply Hagree; reflexivity.
  - intros Hfree. unfold findMatchingRule. rewrite !bind_Ok.
    apply findMatchingRuleIn_reads_fields.
    intros rule c Hr Hc. apply Hagree. apply (Hfree rule c Hr Hc).
Qed.

(** C9, witness: the employee's role added to a sales request, matched
    against the sales rule. *)
Lemma metadata_fields_not_compared_witness :
  (forall reads l,
      scoreLawyerMatch reads l Sample.salesInAustralia None =
      scoreLawyerMatch reads l (<["_employeeRole" := "Manager"]> Sample.salesInAustralia)
                       None) /\
  findMatchingRule (Ok [Sample.salesAu]) Sample.salesInAustralia =
  findMatchingRule (Ok [Sample.salesAu])
                   (<["_employeeRole" := "Manager"]> Sample.salesInAustralia).
Proof.
  destruct (metadata_fields_not_compared [Sample.salesAu] None Sample.salesInAustralia
              (<["_employeeRole" := "Manager"]> Sample.salesInAustralia)) as [Hs Hm].
  - intros f Hf. rewrite lookup_insert_ne; [reflexivity|].
    intros <-. vm_compute in Hf. discriminate.
  - split; [exact Hs|]. apply Hm.
    intros rule c [<-|[]] [<-|[<-|[]]]; reflexivity.
Defined.

(** C9 (as specified) fails: a rule whose condition names an
    internal field makes the matcher compare that field, so adding the
    field to the information changes the rule returned. *)
Lemma metadata_field_changes_rule_match :
  isInternalField "_employeeRole" = true /\
  findMatchingRule (Ok [Sample.managersOnly]) Sample.salesOnly = Ok None /\
  findMatchingRule (Ok [Sample.managersOnly])
                   (<["_employeeRole" := "Manager"]> Sample.salesOnly)
  = Ok (Some Sample.managersOnly).
Proof. repeat split; vm_compute; reflexivity. Qed.

(* ===================================================================== *)
(** * Specialist scorer: results                                          *)
(* ===================================================================== *)

(** The tag block as a formula: forty for a shared "vip", and ten for every
    employee tag (lower-cased, repetitions counted) that the lawyer has. *)
Lemma tagPoints_formula (l : Lawyer) (emp : Employee) (etags ltags : list string) :
  empTags emp = Some etags -> tags l = Some ltags ->
  tagPoints l (Some emp) =
  (if arrayIncludes (map toLowerCase etags) "vip" && arrayIncludes (map toLowerCase ltags) "vip"
   then 40 else 0)
  + 10 * Z.of_nat (length (List.filter (fun tag => arrayIncludes (map toLowerCase ltags) tag)
                                       (map toLowerCase etags))).
Proof. intros He Hl. unfold tagPoints. rewrite He, Hl. lia. Qed.

(** The shared "vip" tag is itself one of the common tags: when both sides
    carry it the block is worth at least fifty. *)
Lemma tagPoints_shared_vip_at_least_50 (l : Lawyer) (emp : Employee) (etags ltags : list string) :
  empTags emp = Some etags -> tags l = Some ltags ->
  arrayIncludes (map toLowerCase etags) "vip" = true ->
  arrayIncludes (map toLowerCase ltags) "vip" = true ->
  50 <= tagPoints l (Some emp).
Proof.
  intros He Hl Hev Hlv. rewrite (tagPoints_formula l emp etags ltags He Hl), Hev, Hlv. simpl.
  assert (In "vip" (List.filter (fun tag => arrayIncludes (map toLowerCase ltags) tag)
                                (map toLowerCase etags))) as Hin.
  { apply filter_In. split; [|exact Hlv].
    unfold arrayIncludes in Hev. apply existsb_exists in Hev as (x & Hx & Heq).
    apply String.eqb_eq in Heq. subst x. exact Hx. }
  destruct (List.filter _ _) as [|t ts]; [destruct Hin|]. simpl length. lia.
Qed.

(** C5 (the code at the failing input).  An employee tagged "VIP" and a
    lawyer tagged "vip", with no other tag: the tag block is worth 50, not
    40, and the whole score is 40 = -10 + 50 where the described rule gives
    30. *)
Theorem shared_vip_tag_scores_50 :
  tagPoints Sample.vipLawyer (Some Sample.vipEmployee) = 50 /\
  (forall reads, scoreLawyerMatch reads Sample.vipLawyer ∅ (Some Sample.vipEmployee) = 40) /\
  (forall reads, scoreLawyerMatch reads Sample.vipLawyer ∅ (Some Sample.plainEmployee) = -10).
Proof. repeat split; intros; vm_compute; reflexivity. Qed.

Section Sorting.

Lemma insertByScore_In (x y : Lawyer * Z) (l : list (Lawyer * Z)) :
  In y (insertByScore x l) <-> y = x \/ In y l.
Proof.
  induction l as [|z l IH]; simpl; [intuition|].
  destruct (snd x <? snd z); simpl; rewrite ?IH; intuition.
Qed.

Lemma insertByScore_descending (x : Lawyer * Z) (l : list (Lawyer * Z)) :
  descending l -> descending (insertByScore x l).
Proof.
  unfold descending. induction 1 as [|z l Hl IH Hz]; simpl.
  - repeat constructor.
  - destruct (snd x <? snd z) eqn:E.
    + constructor; [exact IH|].
      apply List.Forall_forall. intros y Hy. apply insertByScore_In in Hy as [->|Hy].
      * apply Z.ltb_lt in E. lia.
      * rewrite List.Forall_forall in Hz. apply Hz, Hy.
    + apply Z.ltb_ge in E. constructor; [constructor; assumption|].
      constructor; [exact E|].
      rewrite List.Forall_forall in Hz |- *. intros y Hy. specialize (Hz y Hy). lia.
Qed.

Lemma sortByScoreDesc_In (y : Lawyer * Z) (l : list (Lawyer * Z)) :
  In y (sortByScoreDesc l) <-> In y l.
Proof.
  induction l as [|x l IH]; simpl; [tauto|].
  rewrite insertByScore_In, IH. intuition.
Qed.

Lemma sortByScoreDesc_descending (l : list (Lawyer * Z)) : descending (sortByScoreDesc l).
Proof.
  induction l as [|x l IH]; simpl; [constructor | apply insertByScore_descending, IH].
Qed.

(** The first element after sorting is a member with the largest score. *)
Lemma sortByScoreDesc_head (l : list (Lawyer * Z)) (b : Lawyer * Z) (rest : list (Lawyer * Z)) :
  sortByScoreDesc l = b :: rest ->
  In b l /\ forall y, In y l -> snd y <= snd b.
Proof.
  intros H. split.
  - apply sortByScoreDesc_In. rewrite H. left. reflexivity.
  - intros y Hy. apply sortByScoreDesc_In in Hy. rewrite H in Hy.
    pose proof (sortByScoreDesc_descending l) as Hd. rewrite H in Hd.
    inversion Hd as [|? ? _ Hall]; subst.
    destruct Hy as [->|Hy]; [lia|].
    rewrite List.Forall_forall in Hall. apply Hall, Hy.
Qed.

Lemma sortByScoreDesc_nil (l : list (Lawyer * Z)) : sortByScoreDesc l = [] -> l = [].
Proof.
  destruct l as [|x l]; [reflexivity|]. intros H.
  assert (In x (sortByScoreDesc (x :: l))) as Hin
      by (apply sortByScoreDesc_In; left; reflexivity).
  rewrite H in Hin. destruct Hin.
Qed.

(** Ties keep the input order: every candidate listed before the selected
    one has a strictly smaller score. *)
Lemma sortByScoreDesc_head_first (l : list (Lawyer * Z)) (b : Lawyer * Z)
      (rest : list (Lawyer * Z)) :
  sortByScoreDesc l = b :: rest ->
  exists before after,
    l = (before ++ b :: after)%list /\ Forall (fun y => snd y < snd b) before.
Proof.
  revert b rest. induction l as [|x l IH]; intros b rest; simpl; [discriminate|].
  destruct (sortByScoreDesc l) as [|b' rest'] eqn:S; simpl.
  - intros [= <- <-]. apply sortByScoreDesc_nil in S. subst l.
    exists [], []. split; [reflexivity | constructor].
  - destruct (snd x <? snd b') eqn:E.
    + intros [= <- <-]. destruct (IH b' rest' eq_refl) as (before & after & -> & Hb).
      exists (x :: before), after. split; [reflexivity|].
      constructor; [apply Z.ltb_lt, E | exact Hb].
    + intros [= <- <-]. exists [], l. split; [reflexivity | constructor].
Qed.

Lemma sortByScoreDesc_nonempty (l : list (Lawyer * Z)) :
  l <> [] -> sortByScoreDesc l <> [].
Proof.
  destruct l as [|x l]; [congruence|]. intros _ H.
  assert (In x (sortByScoreDesc (x :: l))) as Hin
      by (apply sortByScoreDesc_In; left; reflexivity).
  rewrite H in Hin. destruct Hin.
Qed.

End Sorting.

Section BestScore.

Variables (clock : Clock) (info : ExtractedInfo) (employee : option Employee).

(** What the scored list holds: the lawyer at each position of the roster,
    with the score computed from the clock reads of that position. *)
Lemma scoreFrom_In (lawyers : list Lawyer) (start : nat) (y : Lawyer * Z) :
  In y (scoreFrom clock start lawyers info employee) ->
  exists position,
    nth_error lawyers position = Some (fst y) /\
    snd y = scoreLawyerMatch (scoringReads clock (start + position)) (fst y) info employee.
Proof.
  revert start. induction lawyers as [|l ls IH]; intros start; simpl; [intros []|].
  intros [<-|H].
  - exists 0%nat. rewrite Nat.add_0_r. split; reflexivity.
  - destruct (IH (S start) H) as (k & Hk & Hs). exists (S k).
    replace (start + S k)%nat with (S start + k)%nat by lia. split; assumption.
Qed.

Lemma scoreFrom_length (lawyers : list Lawyer) (start : nat) :
  length (scoreFrom clock start lawyers info employee) = length lawyers.
Proof.
  revert start. induction lawyers as [|l ls IH]; intros start; simpl; [reflexivity|].
  rewrite IH. reflexivity.
Qed.

Lemma scoreFrom_fst (lawyers : list Lawyer) (start : nat) :
  map fst (scoreFrom clock start lawyers info employee) = lawyers.
Proof.
  revert start. induction lawyers as [|l ls IH]; intros start; simpl; [reflexivity|].
  rewrite IH. reflexivity.
Qed.

(** The scored list at a position of the roster. *)
Lemma scoreFrom_nth (lawyers : list Lawyer) (start position : nat) (l : Lawyer) :
  nth_error lawyers position = Some l ->
  nth_error (scoreFrom clock start lawyers info employee) position =
  Some (l, scoreLawyerMatch (scoringReads clock (start + position)) l info employee).
Proof.
  revert start position. induction lawyers as [|x ls IH]; intros start [|k]; simpl; try discriminate.
  - intros [= ->]. rewrite Nat.add_0_r. reflexivity.
  - intros H. rewrite (IH (S start) k H).
    replace (S start + k)%nat with (start + S k)%nat by lia. reflexivity.
Qed.

Lemma fold_max_bounds (scores : list Z) (init : Z) :
  exists m,
    fold_left Z.max scores init = m /\
    init <= m /\ (forall s, In s scores -> s <= m) /\
    (m = init \/ In m scores).
Proof.
  revert init. induction scores as [|x scores IH]; intros init; simpl.
  - exists init. split; [reflexivity|]. split; [lia|].
    split; [intros s []| left; reflexivity].
  - destruct (IH (Z.max init x)) as (m & Hm & H1 & H2 & H3).
    exists m. split; [exact Hm|]. split; [lia|]. split.
    + intros s [<-|Hs]; [lia | apply H2, Hs].
    + destruct H3 as [H3|H3]; [|right; right; exact H3].
      destruct (Z.max_spec init x) as [[_ E]|[_ E]]; rewrite E in H3.
      * right. left. symmetry. exact H3.
      * left. exact H3.
Qed.

(** [bestScore] is the score of an entry of the scored list and bounds the
    score of every entry. *)
Lemma bestScore_max (lawyers : list Lawyer) (s : Z) :
  (exists y, In y (scoreFrom clock 0 lawyers info employee) /\ snd y = s) ->
  (forall y, In y (scoreFrom clock 0 lawyers info employee) -> snd y <= s) ->
  bestScore clock lawyers info employee = Some s.
Proof.
  unfold bestScore. intros (y0 & Hy0 & Hs) Hub.
  assert (Hin : In s (map snd (scoreFrom clock 0 lawyers info employee))).
  { rewrite <- Hs. apply in_map, Hy0. }
  assert (Hle : forall z, In z (map snd (scoreFrom clock 0 lawyers info employee)) -> z <= s).
  { intros z Hz. apply in_map_iff in Hz as (y & <- & Hy). apply Hub, Hy. }
  destruct (map snd (scoreFrom clock 0 lawyers info employee)) as [|x scores]; [destruct Hin|].
  f_equal. destruct (fold_max_bounds scores x) as (m & -> & H1 & H2 & H3).
  assert (m <= s).
  { destruct H3 as [->|H3]; apply Hle; [left; reflexivity | right; exact H3]. }
  assert (s <= m).
  { destruct Hin as [<-|Hin]; [exact H1 | apply H2, Hin]. }
  lia.
Qed.

Lemma bestScore_empty : bestScore clock [] info employee = None.
Proof. reflexivity. Qed.

End BestScore.

(** A failed read of the roster is absorbed by the [catch] block. *)
Lemma findBestLawyer_roster_failure (e : JsError) (clock : Clock) (info : ExtractedInfo)
      (employee : option Employee) :
  findBestLawyer (Throw e) clock info employee = Ok None.
Proof.
  unfold findBestLawyer. destruct (truthy (info !! "requestType")); reflexivity.
Qed.

(** C6.  Selection returns a candidate only when [requestType] is present
    and the best total score over the roster is at least 20, and the
    candidate returned carries that best score, which is the score that the
    lawyer got at a position of the roster; in every other case (request
    type absent, best score below 20, no roster) it returns none, and it
    never throws. *)
Theorem findBestLawyer_selection
        (roster : result (list Lawyer)) (clock : Clock) (info : ExtractedInfo)
        (employee : option Employee) :
  match findBestLawyer roster clock info employee with
  | Ok (Some m) =>
      truthy (info !! "requestType") = true /\
      exists lawyers,
        roster = Ok lawyers /\
        In (lawyer m) lawyers /\
        (exists position,
            nth_error lawyers position = Some (lawyer m) /\
            score m = scoreLawyerMatch (scoringReads clock position) (lawyer m) info employee) /\
        bestScore clock lawyers info employee = Some (score m) /\
        20 <= score m
  | Ok None =>
      truthy (info !! "requestType") = false \/
      match roster with
      | Ok lawyers =>
          match bestScore clock lawyers info employee with
          | Some s => s < 20
          | None => lawyers = []
          end
      | Throw _ => True
      end
  | Throw _ => False
  end.
Proof.
  destruct roster as [lawyers|e]; [|rewrite findBestLawyer_roster_failure; right; exact I].
  unfold findBestLawyer.
  destruct (truthy (info !! "requestType")) eqn:T; simpl; [|left; reflexivity].
  destruct lawyers as [|l0 ls] eqn:EL; [simpl; right; reflexivity|].
  rewrite <- EL. replace (length lawyers =? 0)%nat with false by (subst; reflexivity).
  set (scored := scoreFrom clock 0 lawyers info employee).
  destruct (sortByScoreDesc scored) as [|b rest] eqn:S.
  { exfalso. apply (sortByScoreDesc_nonempty scored); [subst; discriminate | exact S]. }
  apply sortByScoreDesc_head in S as [Hin Hmax].
  assert (Hbest : bestScore clock lawyers info employee = Some (snd b)).
  { apply bestScore_max; [exists b; split; auto | exact Hmax]. }
  destruct (scoreFrom_In clock info employee lawyers 0 b Hin) as (position & Hnth & Hscore).
  destruct (snd b <? 20) eqn:E; simpl.
  - right. rewrite Hbest. apply Z.ltb_lt, E.
  - apply Z.ltb_ge in E. split; [reflexivity|]. exists lawyers.
    split; [reflexivity|]. split; [apply (nth_error_In _ _ Hnth)|].
    split; [exists position; split; assumption|]. split; assumption.
Qed.

(* ===================================================================== *)
(** * Term normaliser: results                                            *)
(* ===================================================================== *)

Lemma distance_same (s : string) : distance s s = 0%nat.
Proof.
  induction s as [|a s IH]; simpl; [reflexivity|].
  rewrite Ascii.eqb_refl, IH. simpl. rewrite ?Nat.min_0_r. reflexivity.
Qed.

(** A string is at similarity one from itself. *)
Lemma calculateSimilarity_same (s : string) : (calculateSimilarity s s == 1)%Q.
Proof.
  unfold calculateSimilarity. rewrite Nat.max_id, distance_same.
  destruct (String.length s =? 0)%nat; [reflexivity|].
  unfold Qeq, Qminus, Qplus, Qopp. simpl. lia.
Qed.

Section Normaliser.

Variables (input : string) (terms : list LegalTerm).

Local Abbreviation normalizedInput := (trim (toLowerCase input)).

(** What the running best match can be: the input as it is, or a canonical
    term. *)
Local Abbreviation tracked b := (b = asIs input \/ canonical terms b).

Lemma improve_tracked (t : LegalTerm) (sim : Q) (b : FuzzyMatchResult) :
  In t terms -> tracked b -> tracked (improve (term t) sim b).
Proof.
  intros Ht Hb. unfold improve. destruct (Qgtb sim (confidence b)); [|exact Hb].
  right. exists t. simpl. auto.
Qed.

Lemma exactMatch_canonical (t : LegalTerm) :
  In t terms -> canonical terms (exactMatch (term t)).
Proof. intros Ht. exists t. simpl. auto. Qed.

Lemma scanSynonyms_tracked (t : LegalTerm) (syns : list string) (b : FuzzyMatchResult) :
  In t terms -> tracked b ->
  match scanSynonyms normalizedInput (term t) syns b with
  | Returned r => canonical terms r /\ confidence r = 1%Q
  | Running b' => tracked b'
  end.
Proof.
  intros Ht. revert b. induction syns as [|syn syns IH]; intros b Hb; simpl; [exact Hb|].
  destruct (String.eqb normalizedInput (toLowerCase syn)).
  - split; [apply exactMatch_canonical, Ht | reflexivity].
  - apply IH, improve_tracked; assumption.
Qed.

Lemma scanTerms_tracked (ts : list LegalTerm) (b : FuzzyMatchResult) :
  (forall t, In t ts -> In t terms) -> tracked b ->
  match scanTerms normalizedInput ts b with
  | Returned r => canonical terms r /\ confidence r = 1%Q
  | Running b' => tracked b'
  end.
Proof.
  revert b. induction ts as [|t ts IH]; intros b Hsub Hb; simpl; [exact Hb|].
  assert (Ht : In t terms) by (apply Hsub; left; reflexivity).
  destruct (String.eqb normalizedInput (toLowerCase (term t))).
  - split; [apply exactMatch_canonical, Ht | reflexivity].
  - pose proof (scanSynonyms_tracked t (synonyms t)
                  (improve (term t) (calculateSimilarity normalizedInput (toLowerCase (term t))) b)
                  Ht (improve_tracked t _ b Ht Hb)) as Hs.
    destruct (scanSynonyms _ _ _ _) as [r|b']; [exact Hs|].
    apply IH; [|exact Hs]. intros t' Ht'. apply Hsub. right. exact Ht'.
Qed.

(** A candidate below the threshold is not equal to the input. *)
Lemma below_threshold_differs (c : string) :
  (calculateSimilarity normalizedInput (toLowerCase c) < defaultThreshold)%Q ->
  String.eqb normalizedInput (toLowerCase c) = false.
Proof.
  intros H. destruct (String.eqb_spec normalizedInput (toLowerCase c)) as [E|]; [|reflexivity].
  rewrite <- E, calculateSimilarity_same in H. unfold defaultThreshold in H.
  exfalso. revert H. unfold Qlt. simpl. lia.
Qed.

Lemma improve_below (t : string) (sim : Q) (b : FuzzyMatchResult) :
  (sim < defaultThreshold)%Q -> (confidence b < defaultThreshold)%Q ->
  (confidence (improve t sim b) < defaultThreshold)%Q.
Proof.
  intros Hs Hb. unfold improve. destruct (Qgtb sim (confidence b)); assumption.
Qed.

Lemma scanSynonyms_below (t : string) (syns : list string) (b : FuzzyMatchResult) :
  (forall c, In c syns ->
             (calculateSimilarity normalizedInput (toLowerCase c) < defaultThreshold)%Q) ->
  (confidence b < defaultThreshold)%Q ->
  exists b', scanSynonyms normalizedInput t syns b = Running b' /\
             (confidence b' < defaultThreshold)%Q.
Proof.
  revert b. induction syns as [|syn syns IH]; intros b Hall Hb; simpl; [eauto|].
  assert (Hsyn := Hall syn (or_introl eq_refl)).
  rewrite (below_threshold_differs syn Hsyn).
  apply IH; [intros c Hc; apply Hall; right; exact Hc|].
  apply improve_below; assumption.
Qed.

Lemma scanTerms_below (ts : list LegalTerm) (b : FuzzyMatchResult) :
  (forall t c, In t ts -> In c (candidates t) ->
               (calculateSimilarity normalizedInput (toLowerCase c) < defaultThreshold)%Q) ->
  (confidence b < defaultThreshold)%Q ->
  exists b', scanTerms normalizedInput ts b = Running b' /\
             (confidence b' < defaultThreshold)%Q.
Proof.
  revert b. induction ts as [|t ts IH]; intros b Hall Hb; simpl; [eauto|].
  assert (Ht := Hall t (term t) (or_introl eq_refl) (or_introl eq_refl)).
  rewrite (below_threshold_differs (term t) Ht).
  destruct (scanSynonyms_below (term t) (synonyms t)
              (improve (term t) (calculateSimilarity normalizedInput (toLowerCase (term t))) b))
    as (b' & -> & Hb').
  - intros c Hc. apply (Hall t c); [left; reflexivity | right; exact Hc].
  - apply improve_below; assumption.
  - apply IH; [|exact Hb'].
    intros t' c Ht' Hc. apply (Hall t' c); [right; exact Ht' | exact Hc].
Qed.

(** The running best match, when it is not the input as it is, carries
    the similarity of one of the strings its term is compared with. *)
Local Abbreviation achieved b :=
  (b = asIs input \/
   exists t c, In t terms /\ In c (candidates t) /\
               normalizedValue b = term t /\ matchedTerm b = Some (term t) /\
               confidence b = calculateSimilarity normalizedInput (toLowerCase c)).

Lemma improve_achieved (t : LegalTerm) (c : string) (b : FuzzyMatchResult) :
  In t terms -> In c (candidates t) -> achieved b ->
  achieved (improve (term t) (calculateSimilarity normalizedInput (toLowerCase c)) b).
Proof.
  intros Ht Hc Hb. unfold improve. destruct (Qgtb _ (confidence b)); [|exact Hb].
  right. exists t, c. simpl. auto.
Qed.

Lemma scanSynonyms_achieved (t : LegalTerm) (syns : list string) (b : FuzzyMatchResult) :
  In t terms -> (forall c, In c syns -> In c (candidates t)) -> achieved b ->
  match scanSynonyms normalizedInput (term t) syns b with
  | Returned r =>
      r = exactMatch (term t) /\
      exists c, In c (candidates t) /\ normalizedInput = toLowerCase c
  | Running b' => achieved b'
  end.
Proof.
  intros Ht. revert b. induction syns as [|syn syns IH]; intros b Hsub Hb; simpl; [exact Hb|].
  destruct (String.eqb_spec normalizedInput (toLowerCase syn)) as [E|_].
  - split; [reflexivity|]. exists syn. split; [apply Hsub; left; reflexivity | exact E].
  - apply IH; [intros c Hc; apply Hsub; right; exact Hc|].
    apply improve_achieved; [exact Ht | apply Hsub; left; reflexivity | exact Hb].
Qed.

Lemma scanTerms_achieved (ts : list LegalTerm) (b : FuzzyMatchResult) :
  (forall t, In t ts -> In t terms) -> achieved b ->
  match scanTerms normalizedInput ts b with
  | Returned r =>
      exists t c, In t terms /\ In c (candidates t) /\
                  r = exactMatch (term t) /\ normalizedInput = toLowerCase c
  | Running b' => achieved b'
  end.
Proof.
  revert b. induction ts as [|t ts IH]; intros b Hsub Hb; simpl; [exact Hb|].
  assert (Ht : In t terms) by (apply Hsub; left; reflexivity).
  destruct (String.eqb_spec normalizedInput (toLowerCase (term t))) as [E|_].
  - exists t, (term t). repeat split; [exact Ht | left; reflexivity | exact E].
  - pose proof (scanSynonyms_achieved t (synonyms t)
                  (improve (term t) (calculateSimilarity normalizedInput (toLowerCase (term t))) b)
                  Ht (fun c Hc => or_intror Hc)
                  (improve_achieved t (term t) b Ht (or_introl eq_refl) Hb)) as Hs.
    destruct (scanSynonyms _ _ _ _) as [r|b'].
    + destruct Hs as (-> & c & Hc & E). exists t, c. auto.
    + apply IH; [|exact Hs]. intros t' Ht'. apply Hsub. right. exact Ht'.
Qed.

(** [improve] keeps the larger of the two confidences. *)
Lemma improve_larger (t : string) (sim : Q) (b : FuzzyMatchResult) :
  (confidence b <= confidence (improve t sim b))%Q /\
  (sim <= confidence (improve t sim b))%Q.
Proof.
  unfold improve, Qgtb. destruct (Qle_bool sim (confidence b)) eqn:E; simpl.
  - split; [apply Qle_refl | apply Qle_bool_iff, E].
  - split; [|apply Qle_refl]. apply Qlt_le_weak, Qnot_le_lt.
    intros H. apply Qle_bool_iff in H. congruence.
Qed.

(** A scan that runs to its end leaves a confidence that no string
    compared on the way exceeds. *)
Lemma scanSynonyms_largest (t : string) (syns : list string) (b b' : FuzzyMatchResult) :
  scanSynonyms normalizedInput t syns b = Running b' ->
  (confidence b <= confidence b')%Q /\
  forall c, In c syns ->
            (calculateSimilarity normalizedInput (toLowerCase c) <= confidence b')%Q.
Proof.
  revert b. induction syns as [|syn syns IH]; intros b; simpl.
  - intros [= <-]. split; [apply Qle_refl | intros c []].
  - destruct (String.eqb normalizedInput (toLowerCase syn)); [discriminate|].
    intros H. destruct (IH _ H) as [Hle Hall].
    destruct (improve_larger t (calculateSimilarity normalizedInput (toLowerCase syn)) b)
      as [Hb Hs].
    split; [eapply Qle_trans; eassumption|].
    intros c [<-|Hc]; [eapply Qle_trans; eassumption | apply Hall, Hc].
Qed.

Lemma scanTerms_largest (ts : list LegalTerm) (b b' : FuzzyMatchResult) :
  scanTerms normalizedInput ts b = Running b' ->
  (confidence b <= confidence b')%Q /\
  forall t c, In t ts -> In c (candidates t) ->
              (calculateSimilarity normalizedInput (toLowerCase c) <= confidence b')%Q.
Proof.
  revert b. induction ts as [|t ts IH]; intros b; simpl.
  - intros [= <-]. split; [apply Qle_refl | intros t c []].
  - destruct (String.eqb normalizedInput (toLowerCase (term t))); [discriminate|].
    destruct (scanSynonyms normalizedInput (term t) (synonyms t) _) as [r|b1] eqn:S;
      [discriminate|].
    intros H. destruct (IH _ H) as [Hle Hall].
    destruct (scanSynonyms_largest _ _ _ _ S) as [Hle1 Hall1].
    destruct (improve_larger (term t)
                (calculateSimilarity normalizedInput (toLowerCase (term t))) b) as [Hb Hs].
    split; [eapply Qle_trans; [exact Hb|]; eapply Qle_trans; eassumption|].
    intros t' c [<-|Ht'] Hc; [|apply (Hall t' c Ht' Hc)].
    destruct Hc as [<-|Hc].
    + eapply Qle_trans; [exact Hs|]. eapply Qle_trans; eassumption.
    + eapply Qle_trans; [apply Hall1, Hc | exact Hle].
Qed.

End Normaliser.

(** A similarity is at most one. *)
Lemma calculateSimilarity_at_most_1 (s t : string) : (calculateSimilarity s t <= 1)%Q.
Proof.
  unfold calculateSimilarity.
  destruct (Nat.max (String.length s) (String.length t) =? 0)%nat; [apply Qle_refl|].
  unfold Qle, Qminus, Qplus, Qopp. simpl. nia.
Qed.

(** C8.  At the default threshold, [fuzzyMatch] always returns a result and
    never throws.  The result is either a canonical term of the rows found
    for the category, with confidence at least 0.7, or the raw input with
    confidence 0.  It is the raw input with confidence 0 when the lookup of
    the rows fails, and when no term or synonym reaches the threshold.
    When a term or synonym of the rows found reaches the threshold, the
    result is a canonical term: its confidence is at least 0.7, is the
    similarity of the input to that term or to one of its synonyms, and no
    term or synonym of the rows is more similar to the input. *)
Theorem fuzzyMatch_contract
        (findMany : string -> result (list LegalTerm)) (input cat : string) :
  exists r,
    fuzzyMatch findMany input cat defaultThreshold = Ok r /\
    (((defaultThreshold <= confidence r)%Q /\
      exists terms, findMany cat = Ok terms /\ canonical terms r)
     \/ r = asIs input) /\
    (forall e, findMany cat = Throw e -> r = asIs input) /\
    (forall terms,
        findMany cat = Ok terms ->
        (forall t c, In t terms -> In c (candidates t) ->
           (calculateSimilarity (trim (toLowerCase input)) (toLowerCase c)
            < defaultThreshold)%Q) ->
        r = asIs input) /\
    (forall terms,
        findMany cat = Ok terms ->
        (exists t c, In t terms /\ In c (candidates t) /\
           (defaultThreshold
            <= calculateSimilarity (trim (toLowerCase input)) (toLowerCase c))%Q) ->
        canonical terms r /\
        (defaultThreshold <= confidence r)%Q /\
        (exists t c,
            In t terms /\ In c (candidates t) /\
            normalizedValue r = term t /\ matchedTerm r = Some (term t) /\
            (confidence r
             == calculateSimilarity (trim (toLowerCase input)) (toLowerCase c))%Q) /\
        (forall t c, In t terms -> In c (candidates t) ->
           (calculateSimilarity (trim (toLowerCase input)) (toLowerCase c)
            <= confidence r)%Q)).
Proof.
  assert (Hthreshold : (defaultThreshold <= 1)%Q) by (unfold defaultThreshold, Qle; simpl; lia).
  assert (Hzero : (0 < defaultThreshold)%Q) by (unfold defaultThreshold, Qlt; simpl; lia).
  unfold fuzzyMatch. destruct (findMany cat) as [terms|e] eqn:F; simpl.
  - pose proof (scanTerms_tracked input terms terms (asIs input) (fun t H => H)
                  (or_introl eq_refl)) as Htr.
    pose proof (scanTerms_achieved input terms terms (asIs input) (fun t H => H)
                  (or_introl eq_refl)) as Hach.
    destruct (scanTerms (trim (toLowerCase input)) terms (asIs input)) as [r|b] eqn:S.
    + exists r. split; [reflexivity|]. destruct Htr as [Hc Hconf]. split; [|split; [|split]].
      * left. split; [rewrite Hconf; exact Hthreshold|].
        exists terms. auto.
      * discriminate.
      * intros terms' [= <-] Hall.
        destruct (scanTerms_below input terms (asIs input) Hall) as (b' & Hb' & _);
          [exact Hzero|].
        congruence.
      * intros terms' [= <-] _. split; [exact Hc|].
        split; [rewrite Hconf; exact Hthreshold|]. split.
        -- destruct Hach as (t & c & Ht & Hcand & -> & E). exists t, c.
           repeat split; try assumption. simpl. rewrite E.
           symmetry. apply calculateSimilarity_same.
        -- intros t c _ _. rewrite Hconf. apply calculateSimilarity_at_most_1.
    + destruct (scanTerms_largest input terms (asIs input) b S) as [_ Hmax].
      destruct (Qle_bool defaultThreshold (confidence b)) eqn:Q.
      * exists b. split; [reflexivity|]. split; [|split; [|split]].
        -- destruct Htr as [->|Hc]; [right; reflexivity|].
           left. split; [apply Qle_bool_iff, Q|]. exists terms. auto.
        -- discriminate.
        -- intros terms' [= <-] Hall.
           destruct (scanTerms_below input terms (asIs input) Hall) as (b' & Hb' & Hlt);
             [exact Hzero|].
           assert (b' = b) by congruence. subst b'.
           apply Qle_bool_iff in Q. exfalso. apply (Qlt_irrefl defaultThreshold).
           eapply Qle_lt_trans; eassumption.
        -- intros terms' [= <-] _. apply Qle_bool_iff in Q.
           assert (Hnot : b <> asIs input).
           { intros ->. simpl in Q. apply (Qlt_irrefl 0).
             eapply Qlt_le_trans; eassumption. }
           split; [destruct Htr as [->|Hc]; [congruence | exact Hc]|].
           split; [exact Q|]. split; [|exact Hmax].
           destruct Hach as [->|(t & c & Ht & Hc & Hn & Hm & Hconf)]; [congruence|].
           exists t, c. repeat split; try assumption. rewrite Hconf. reflexivity.
      * exists (asIs input). split; [reflexivity|]. split; [right; reflexivity|].
        split; [intros; reflexivity|]. split; [intros; reflexivity|].
        intros terms' [= <-] (t & c & Ht & Hc & Hreach). exfalso.
        assert (Hle : (defaultThreshold <= confidence b)%Q).
        { eapply Qle_trans; [exact Hreach | apply (Hmax t c Ht Hc)]. }
        apply Qle_bool_iff in Hle. congruence.
  - exists (asIs input). split; [reflexivity|]. split; [right; reflexivity|].
    split; [intros; reflexivity|]. split; intros; [reflexivity | discriminate].
Qed.

(** The normaliser on the location rows of the sample table. *)
Example fuzzyMatch_exact_synonym :
  fuzzyMatch Sample.termTable "US" "location" defaultThreshold
  = Ok (exactMatch "United States").
Proof. vm_compute. reflexivity. Qed.

Example fuzzyMatch_close_spelling :
  fuzzyMatch Sample.termTable "Astralia" "location" defaultThreshold
  = Ok {| normalizedValue := "Australia"; confidence := (8 # 9)%Q;
          matchedTerm := Some "Australia" |}.
Proof. vm_compute. reflexivity. Qed.

Example fuzzyMatch_unknown :
  fuzzyMatch Sample.termTable "xyz123" "location" defaultThreshold = Ok (asIs "xyz123").
Proof. vm_compute. reflexivity. Qed.

(* ===================================================================== *)
(** * Stages that recover locally                                         *)
(* ===================================================================== *)

Lemma tryCatch_recovers {A} (body : result A) (a : A) :
  exists r, tryCatch body (fun _ => Ok a) = Ok r.
Proof. destruct body; simpl; eauto. Qed.

Lemma extractInformationFromConversation_total (reply : result ExtractionReply) :
  exists m, extractInformationFromConversation reply = Ok m.
Proof. apply tryCatch_recovers. Qed.

Lemma fuzzyMatch_total (findMany : string -> result (list LegalTerm))
      (input cat : string) (threshold : Q) :
  exists r, fuzzyMatch findMany input cat threshold = Ok r.
Proof. apply tryCatch_recovers. Qed.

Lemma fuzzyMatchEntry_total (findMany : string -> result (list LegalTerm))
      (acc : gmap string string * gmap string FuzzyLog) (entry : string * string) :
  exists acc', fuzzyMatchEntry findMany acc entry = Ok acc'.
Proof.
  destruct acc as [normalized logs], entry as [f v]. unfold fuzzyMatchEntry.
  destruct (fieldCategoryMap f) as [cat|]; [|eauto].
  destruct (truthy (Some v)); [|eauto].
  destruct (fuzzyMatch_total findMany v cat defaultThreshold) as [r ->]. simpl.
  destruct (Qle_bool (7 # 10) (confidence r)); eauto.
Qed.

Lemma forOf_total {A S : Type} (body : S -> A -> result S) (l : list A) (s : S) :
  (forall s x, exists s', body s x = Ok s') -> exists s', forOf body l s = Ok s'.
Proof.
  intros Hbody. revert s. induction l as [|x l IH]; intros s; simpl; [eauto|].
  destruct (Hbody s x) as [s' ->]. simpl. apply IH.
Qed.

Lemma fuzzyMatchExtractedInfo_total (findMany : string -> result (list LegalTerm))
      (info : gmap string string) :
  exists r, fuzzyMatchExtractedInfo findMany info = Ok r.
Proof.
  unfold fuzzyMatchExtractedInfo.
  destruct (forOf_total (fuzzyMatchEntry findMany) (map_to_list info) (∅, ∅)
                        (fuzzyMatchEntry_total findMany)) as [[normalized logs] ->].
  simpl. eauto.
Qed.

(** Extraction and normalisation never fail the run. *)
Lemma gatherInfo_total (w : World) (employee : option Employee) :
  exists info, gatherInfo w employee = Ok info.
Proof.
  unfold gatherInfo.
  destruct (extractInformationFromConversation_total (extraction w)) as [raw ->]. simpl.
  destruct (fuzzyMatchExtractedInfo_total (legalTermFindMany w) (autoFill raw employee))
    as [r ->].
  simpl. eauto.
Qed.

Lemma findBestLawyer_total (roster : result (list Lawyer)) (clock : Clock) (info : ExtractedInfo)
      (employee : option Employee) :
  exists r, findBestLawyer roster clock info employee = Ok r.
Proof. apply tryCatch_recovers. Qed.

(* ===================================================================== *)
(** * Orchestrator: results                                               *)
(* ===================================================================== *)

(** With the rules loaded, the fallback assigns the first matching rule,
    asks for the field that [getMissingFields] computes, or throws what the
    matcher throws. *)
Lemma ruleFallback_loaded (w : World) (info : gmap string string) (rules : list TriageRule) :
  getAllRules w = Ok rules ->
  ruleFallback w info =
  match findMatchingRuleIn rules info with
  | Ok (Some rule) => Ok (ruleDecision info rule)
  | Ok None => Ok (needsInfoDecision info (fieldToAsk (absent info) rules))
  | Throw e => Throw e
  end.
Proof.
  intros H. unfold ruleFallback. rewrite H. unfold findMatchingRule at 1. rewrite bind_Ok.
  destruct (findMatchingRuleIn rules info) as [[rule|]|e] eqn:E; try reflexivity.
  rewrite bind_Ok, getMissingFields_loaded, E. reflexivity.
Qed.

Lemma ruleFallback_failed (w : World) (info : gmap string string) (e : JsError) :
  getAllRules w = Throw e -> ruleFallback w info = Throw e.
Proof. intros H. unfold ruleFallback. rewrite H. reflexivity. Qed.

(** Routing fails with the exception of the read of the rule store, or
    with the exception that the matcher throws on the rules read. *)
Lemma route_throws (w : World) (info : gmap string string) (employee : option Employee)
      (e : JsError) :
  route w info employee = Throw e ->
  getAllRules w = Throw e \/
  exists rules, getAllRules w = Ok rules /\ findMatchingRuleIn rules info = Throw e.
Proof.
  unfold route.
  destruct (findBestLawyer_total (lawyerFindMany w) (clock w) info employee) as [r ->].
  rewrite bind_Ok. destruct (qualifying r); [discriminate|].
  destruct (getAllRules w) as [rules|e'] eqn:G.
  - rewrite (ruleFallback_loaded w info rules G).
    destruct (findMatchingRuleIn rules info) as [[rule|]|e''] eqn:E; try discriminate.
    intros [= ->]. right. exists rules. split; [reflexivity | exact E].
  - rewrite (ruleFallback_failed w info e' G). intros [= ->]. left. reflexivity.
Qed.

(** The shapes of a decision. *)
Lemma route_decisions (w : World) (info : gmap string string) (employee : option Employee)
      (d : TriageState) :
  route w info employee = Ok d ->
  (exists best, d = dynamicDecision info best) \/
  (exists rule, d = ruleDecision info rule) \/
  (exists rules, d = needsInfoDecision info (fieldToAsk (absent info) rules)).
Proof.
  unfold route.
  destruct (findBestLawyer_total (lawyerFindMany w) (clock w) info employee) as [r ->].
  rewrite bind_Ok. destruct (qualifying r) as [best|].
  - intros [= <-]. eauto.
  - destruct (getAllRules w) as [rules|e'] eqn:G.
    + rewrite (ruleFallback_loaded w info rules G).
      destruct (findMatchingRuleIn rules info) as [[rule|]|e'']; [| |discriminate];
        intros [= <-]; eauto.
    + rewrite (ruleFallback_failed w info e' G). discriminate.
Qed.

Lemma processConversation_decisions (w : World) (messages : list Message)
      (trace : option string) (employee : option Employee) (d : TriageState) :
  fst (processConversation w messages trace employee) = Ok d ->
  (exists answer found, d = documentDecision answer found) \/
  (exists info best, d = dynamicDecision info best) \/
  (exists info rule, d = ruleDecision info rule) \/
  (exists info rules, d = needsInfoDecision info (fieldToAsk (absent info) rules)).
Proof.
  unfold processConversation.
  destruct (processConversationBody w messages employee) as [d'|e] eqn:B; simpl;
    [intros [= <-] | discriminate].
  unfold processConversationBody in B.
  destruct (isDocumentQuestion (classify w) messages) as [[|]|e]; simpl in B;
    [| | discriminate].
  - unfold documentPath in B.
    destruct (searchDocuments w _) as [found|]; simpl in B; [|discriminate].
    left. destruct (length found =? 0)%nat; simpl in B; [injection B as <-; eauto|].
    destruct (ragCompletion w); simpl in B; [injection B as <-; eauto | discriminate].
  - destruct (gatherInfo_total w employee) as [info Hi]. rewrite Hi in B. simpl in B.
    right. destruct (route_decisions w info employee d' B) as [[b ->]|[[r ->]|[rs ->]]]; eauto.
Qed.

(** C1 (as the code has it).  Every decision of a completed run is in
    exactly one of three states: assigned and complete; answered from the
    documents and complete; or not complete with nothing assigned and no
    document answer.  In the third state the missing fields hold at most
    one field and may be empty.  [isComplete] holds exactly in the first two
    states, and [needsMoreInfo] exactly when a field is missing. *)
Theorem decision_outcomes
        (w : World) (messages : list Message) (trace : option string)
        (employee : option Employee) (d : TriageState) :
  fst (processConversation w messages trace employee) = Ok d ->
  exactlyOne (assignedOutcome d) (documentOutcome d) (unresolvedOutcome d) = true /\
  isComplete d = assignedOutcome d || documentOutcome d /\
  needsMoreInfo d = (0 <? length (missingFields d))%nat /\
  (length (missingFields d) <= 1)%nat /\
  (needsInfoOutcome d = true -> unresolvedOutcome d = true).
Proof.
  intros H.
  destruct (processConversation_decisions w messages trace employee d H)
    as [(a & f & ->)|[(i & b & ->)|[(i & r & ->)|(i & rs & ->)]]].
  - repeat split; simpl; auto; discriminate.
  - repeat split; simpl; auto; discriminate.
  - repeat split; simpl; auto; discriminate.
  - repeat split; simpl; auto. apply fieldToAsk_at_most_one.
Qed.

(** C1, witness: the run that ends with the sales rule. *)
Lemma decision_outcomes_witness :
  exists d,
    fst (processConversation Sample.rosterDown Sample.needAnNda None None) = Ok d /\
    exactlyOne (assignedOutcome d) (documentOutcome d) (unresolvedOutcome d) = true /\
    isComplete d = assignedOutcome d || documentOutcome d /\
    needsMoreInfo d = (0 <? length (missingFields d))%nat /\
    (length (missingFields d) <= 1)%nat /\
    (needsInfoOutcome d = true -> unresolvedOutcome d = true).
Proof.
  eexists. split.
  - vm_compute. reflexivity.
  - apply (decision_outcomes Sample.rosterDown Sample.needAnNda None None).
    vm_compute. reflexivity.
Defined.

(** C1 (as specified) fails: with an empty extraction and no rule
    the run completes with nothing assigned, no document answer and no
    missing field, so none of the three stated outcomes holds. *)
Lemma decision_with_no_stated_outcome :
  exists d,
    fst (processConversation Sample.emptyWorld Sample.needAnNda None None) = Ok d /\
    assignedTo d = None /\ documentResponse d = None /\
    missingFields d = [] /\ isComplete d = false /\
    exactlyOne (assignedOutcome d) (documentOutcome d) (needsInfoOutcome d) = false.
Proof.
  eexists. split; [vm_compute; reflexivity|]. repeat split.
Qed.

(** When the fast path is inconclusive and the classification call fails,
    the [catch] block itself throws: the run of [isDocumentQuestion] ends
    with the [ReferenceError] of the undeclared identifier, whatever the
    original exception was. *)
Lemma isDocumentQuestion_classifier_failure
      (classifier : string -> result (option string)) (messages : list Message)
      (m : Message) (e : JsError) :
  lastUserMessage messages = Some m ->
  arrayIncludes greetings (trim (toLowerCase (content m))) = false ->
  (5 <= String.length (trim (toLowerCase (content m))))%nat ->
  fastPath (trim (toLowerCase (content m))) = false ->
  classifier (content m) = Throw e ->
  isDocumentQuestion classifier messages = Throw (ReferenceError "hasKeyword").
Proof.
  intros Hm Hg Hlen Hfast Hc. unfold isDocumentQuestion. rewrite Hm, Hg, Hfast, Hc.
  replace (String.length (trim (toLowerCase (content m))) <? 5)%nat with false
    by (symmetry; apply Nat.ltb_ge; exact Hlen).
  reflexivity.
Qed.

(** C3 (the code at the failing input).  "I need an NDA for a vendor" is
    not decided by the fast path; with the completion service not
    configured the classifier does not return the fast-path value [false]:
    it throws. *)
Theorem isDocumentQuestion_throws_when_classifier_fails :
  fastPath (trim (toLowerCase "I need an NDA for a vendor")) = false /\
  isDocumentQuestion Sample.noApiKey Sample.needAnNda = Throw (ReferenceError "hasKeyword") /\
  fst (processConversation
         (mkWorld Sample.noApiKey (searchDocuments Sample.emptyWorld) (Ok None) (Ok NoContent)
                  (legalTermFindMany Sample.emptyWorld) (Ok []) (Ok []) (steady 0))
         Sample.needAnNda None None)
  = Throw (ReferenceError "hasKeyword").
Proof. repeat split; vm_compute; reflexivity. Qed.

(** C2 (as the code has it).  Let a stage after classification raise [e]:
    the document branch (search or answer generation) when classification
    answers "document question"; otherwise extraction with normalisation,
    or routing (scoring, rule fallback, missing fields).  Then the run
    returns no decision: it ends by throwing [e] itself, unchanged, after
    writing it to the trace under the one stage name "process_conversation"
    when a trace id was given. *)
Theorem stage_failure_rethrown_unchanged
        (w : World) (messages : list Message) (trace : option string)
        (employee : option Employee) (e : JsError) :
  (isDocumentQuestion (classify w) messages = Ok true /\
   documentPath w messages = Throw e) \/
  (isDocumentQuestion (classify w) messages = Ok false /\
   (gatherInfo w employee = Throw e \/
    exists info, gatherInfo w employee = Ok info /\ route w info employee = Throw e)) ->
  processConversation w messages trace employee = (Throw e, logCaught trace e).
Proof.
  intros [[Hdoc Hpath]|[Hdoc Hstage]];
    unfold processConversation, processConversationBody; rewrite Hdoc, bind_Ok.
  - rewrite Hpath. reflexivity.
  - destruct Hstage as [Hg|(info & Hg & Hr)]; rewrite Hg.
    + reflexivity.
    + rewrite bind_Ok, Hr. reflexivity.
Qed.

(** C2, witness: the rule store is unreachable. *)
Lemma stage_failure_rethrown_unchanged_witness :
  processConversation Sample.rulesDown Sample.needAnNda (Some "trace-1") None
  = (Throw (Error "Can't reach database server"),
     logCaught (Some "trace-1") (Error "Can't reach database server")).
Proof.
  apply (stage_failure_rethrown_unchanged Sample.rulesDown Sample.needAnNda (Some "trace-1") None).
  right. split.
  - vm_compute. reflexivity.
  - right. eexists. split; vm_compute; reflexivity.
Defined.

(** C2 (as specified) fails: the exception that reaches the
    caller is the raw exception of the failed database read, the very
    value the rule store raised; it is not wrapped and names no stage. *)
Lemma raw_exception_reaches_caller :
  isDocumentQuestion (classify Sample.rulesDown) Sample.needAnNda = Ok false /\
  getAllRules Sample.rulesDown = Throw (Error "Can't reach database server") /\
  fst (processConversation Sample.rulesDown Sample.needAnNda (Some "trace-1") None)
  = Throw (Error "Can't reach database server").
Proof. repeat split; vm_compute; reflexivity. Qed.

(** The same with an exception raised inside the matcher: a rule on an
    inherited property name makes the evaluation of its condition throw,
    and the run ends with that exception. *)
Example matcher_exception_reaches_caller :
  fst (processConversation Sample.builderRules Sample.needAnNda (Some "trace-1") None)
  = Throw (TypeError "value.toLowerCase is not a function").
Proof. vm_compute. reflexivity. Qed.

(** C10.  [findBestLawyer] always returns and never throws; when the read
    of the roster fails it returns none.  In a run whose classification
    answers "not a document question" and whose roster read fails, the
    orchestrator goes on to the rule fallback and the run ends as the
    fallback does: with the assignment of the first matching rule, with the
    missing-field decision, or with the exception of the fallback itself
    (the read of the rule store, or the matcher on the rules read). *)
Theorem findBestLawyer_never_throws
        (w : World) (messages : list Message) (trace : option string)
        (employee : option Employee) :
  (forall info,
      exists r, findBestLawyer (lawyerFindMany w) (clock w) info employee = Ok r /\
                match lawyerFindMany w with
                | Throw _ => r = None
                | Ok _ => True
                end) /\
  match lawyerFindMany w, isDocumentQuestion (classify w) messages with
  | Throw _, Ok false =>
      exists info,
        gatherInfo w employee = Ok info /\
        route w info employee = ruleFallback w info /\
        fst (processConversation w messages trace employee) = ruleFallback w info /\
        ruleFallback w info =
        match getAllRules w with
        | Ok rules =>
            match findMatchingRuleIn rules info with
            | Ok (Some rule) => Ok (ruleDecision info rule)
            | Ok None => Ok (needsInfoDecision info (fieldToAsk (absent info) rules))
            | Throw e => Throw e
            end
        | Throw e => Throw e
        end
  | _, _ => True
  end.
Proof.
  split.
  - intros info. destruct (lawyerFindMany w) as [ls|e].
    + destruct (findBestLawyer_total (Ok ls) (clock w) info employee) as [r Hr]. eauto.
    + exists None. split; [apply findBestLawyer_roster_failure | reflexivity].
  - destruct (lawyerFindMany w) as [ls|e] eqn:L; [exact I|].
    destruct (isDocumentQuestion (classify w) messages) as [[|]|] eqn:D; try exact I.
    destruct (gatherInfo_total w employee) as [info Hi]. exists info. split; [exact Hi|].
    assert (Hroute : route w info employee = ruleFallback w info).
    { unfold route. rewrite L, findBestLawyer_roster_failure. reflexivity. }
    split; [exact Hroute|]. split.
    + unfold processConversation, processConversationBody.
      rewrite D, bind_Ok, Hi, bind_Ok, Hroute.
      destruct (ruleFallback w info); reflexivity.
    + destruct (getAllRules w) as [rules|e'] eqn:G.
      * apply (ruleFallback_loaded w info rules G).
      * apply (ruleFallback_failed w info e' G).
Qed.

(** The run with the roster unreachable ends with the sales rule's
    assignee and carries no score. *)
Example roster_failure_falls_back_to_rule :
  exists d,
    fst (processConversation Sample.rosterDown Sample.needAnNda None None) = Ok d /\
    assignedTo d = Some "john@acme.corp" /\ matchScore d = None /\ isComplete d = true.
Proof. eexists. split; [vm_compute; reflexivity|]. repeat split. Qed.

(* ===================================================================== *)
(** * Worked examples from the description of the engine                  *)
(* ===================================================================== *)

(** 25 (available) + 6 (three slots) + 50 (specialty) + 30 (location). *)
Example score_available_specialist :
  scoreLawyerMatch (mkReads 5 5) (Sample.salesAuLawyer 5) Sample.salesInAustralia None = 111.
Proof. vm_compute. reflexivity. Qed.

(** -10 (no availability) + 50 (specialty). *)
Example score_busy_specialist :
  scoreLawyerMatch (mkReads 5 5) Sample.busySalesLawyer Sample.salesInAustralia None = 40.
Proof. vm_compute. reflexivity. Qed.

(** Both qualify; the available specialist is selected although listed
    second. *)
Example selection_prefers_higher_score :
  exists m,
    findBestLawyer (Ok [Sample.busySalesLawyer; Sample.salesAuLawyer 5]) (steady 5)
                   Sample.salesInAustralia None = Ok (Some m) /\
    email (lawyer m) = "sarah.chen@acme.corp" /\ score m = 111.
Proof. eexists. split; [vm_compute; reflexivity|]. split; reflexivity. Qed.

(** The fast path decides a plain policy question without any call. *)
Example policy_question_fast_path (classifier : string -> result (option string)) :
  isDocumentQuestion classifier [mkMessage user "What is the NDA policy?"] = Ok true.
Proof. reflexivity. Qed.

Example greeting_is_not_a_question (classifier : string -> result (option string)) :
  isDocumentQuestion classifier [mkMessage user "Hello"] = Ok false.
Proof. reflexivity. Qed.

(* ===================================================================== *)
(** * Further results: the rule matcher                                   *)
(* ===================================================================== *)

(** X1.  The rule returned by the matcher is enabled, each of its
    conditions holds on a field that is present, and every rule placed
    before it is disabled or has a condition that fails: disabled rules are
    never returned and the first full match in list order wins. *)
Theorem findMatchingRule_first_full_match
        (rules : list TriageRule) (info : ExtractedInfo) (r : TriageRule) :
  findMatchingRule (Ok rules) info = Ok (Some r) ->
  enabled r = true /\
  Forall (fun c => evaluateCondition c info = Ok true /\ truthy (info !! field c) = true)
         (conditions r) /\
  exists before after,
    rules = (before ++ r :: after)%list /\
    Forall (fun r' => enabled r' = false \/
                      Exists (fun c => evaluateCondition c info = Ok false) (conditions r'))
           before.
Proof.
  unfold findMatchingRule. rewrite bind_Ok. intros H.
  destruct (findMatchingRuleIn_Some info rules r H) as (before & after & -> & Hr & Hb).
  apply evaluateRule_true in Hr as [Hen Hall]. split; [exact Hen|]. split.
  - rewrite List.Forall_forall in Hall |- *. intros c Hc.
    split; [apply Hall, Hc | apply evaluateCondition_present, Hall, Hc].
  - exists before, after. split; [reflexivity|].
    rewrite List.Forall_forall in Hb |- *. intros r' Hr'. specialize (Hb r' Hr').
    apply evaluateRule_false, Hb.
Qed.

(** X1, witness: the sales rule on a sales request from Australia. *)
Lemma findMatchingRule_first_full_match_witness :
  enabled Sample.salesAu = true /\
  Forall (fun c => evaluateCondition c Sample.salesInAustralia = Ok true /\
                   truthy (Sample.salesInAustralia !! field c) = true)
         (conditions Sample.salesAu) /\
  exists before after,
    [Sample.managersOnly; Sample.salesAu] = (before ++ Sample.salesAu :: after)%list /\
    Forall (fun r' => enabled r' = false \/
                      Exists (fun c => evaluateCondition c Sample.salesInAustralia = Ok false)
                             (conditions r'))
           before.
Proof.
  apply (findMatchingRule_first_full_match
           [Sample.managersOnly; Sample.salesAu] Sample.salesInAustralia Sample.salesAu).
  vm_compute. reflexivity.
Defined.

Section StringFacts.

Lemma toLowerCase_app (s t : string) :
  toLowerCase (s +:+ t) = toLowerCase s +:+ toLowerCase t.
Proof. induction s as [|c s IH]; simpl; [reflexivity | rewrite IH; reflexivity]. Qed.

Lemma toLowerCase_empty (s : string) : toLowerCase s = "" <-> s = "".
Proof. destruct s; simpl; split; intros H; try reflexivity; discriminate. Qed.

(** Lower-casing moves no character into or out of the white space. *)
Lemma isWhitespace_lowerChar (c : ascii) : isWhitespace (lowerChar c) = isWhitespace c.
Proof.
  destruct c as [[] [] [] [] [] [] [] []]; vm_compute; reflexivity.
Qed.

Lemma blank_toLowerCase (s : string) : blank (toLowerCase s) = blank s.
Proof.
  induction s as [|c s IH]; simpl; [reflexivity|].
  rewrite isWhitespace_lowerChar, IH. reflexivity.
Qed.

Lemma trimStart_blank_app (pre s : string) :
  blank pre = true -> trimStart (pre +:+ s) = trimStart s.
Proof.
  induction pre as [|c pre IH]; simpl; [reflexivity|].
  intros H. apply andb_true_iff in H as [Hc Hp]. rewrite Hc. apply IH, Hp.
Qed.

Lemma trimEnd_blank (post : string) : blank post = true -> trimEnd post = "".
Proof.
  induction post as [|c post IH]; simpl; [reflexivity|].
  intros H. apply andb_true_iff in H as [Hc Hp]. rewrite (IH Hp), Hc. reflexivity.
Qed.

Lemma trimEnd_app_blank (s post : string) :
  blank post = true -> trimEnd (s +:+ post) = trimEnd s.
Proof.
  intros Hp. induction s as [|c s IH]; simpl; [apply trimEnd_blank, Hp|].
  rewrite IH. reflexivity.
Qed.

Lemma trimStart_app_nonblank (s post : string) :
  blank s = false -> trimStart (s +:+ post) = trimStart s +:+ post.
Proof.
  induction s as [|c s IH]; simpl; [discriminate|].
  destruct (isWhitespace c); simpl; [exact IH | reflexivity].
Qed.

Lemma trimStart_blank_all (s : string) : blank s = true -> trimStart s = "".
Proof.
  induction s as [|c s IH]; simpl; [reflexivity|].
  intros H. apply andb_true_iff in H as [Hc Hs]. rewrite Hc. apply IH, Hs.
Qed.

Lemma blank_app (s t : string) : blank (s +:+ t) = blank s && blank t.
Proof.
  induction s as [|c s IH]; simpl; [reflexivity|]. rewrite IH, andb_assoc. reflexivity.
Qed.

(** Padding with white space on either side is invisible to [trim]. *)
Lemma trim_padding (pre s post : string) :
  blank pre = true -> blank post = true -> trim (pre +:+ s +:+ post) = trim s.
Proof.
  intros Hpre Hpost. unfold trim. rewrite trimStart_blank_app by exact Hpre.
  destruct (blank s) eqn:B.
  - rewrite (trimStart_blank_all s B).
    rewrite trimStart_blank_all by (rewrite blank_app, B, Hpost; reflexivity).
    reflexivity.
  - rewrite trimStart_app_nonblank by exact B. apply trimEnd_app_blank, Hpost.
Qed.

Lemma prefix_same (s : string) : String.prefix s s = true.
Proof.
  induction s as [|c s IH]; simpl; [reflexivity|].
  destruct (ascii_dec c c); [exact IH | congruence].
Qed.

Lemma includes_same (s : string) : includes s s = true.
Proof.
  destruct s as [|c s]; [reflexivity|].
  change (includes (String c s) (String c s))
    with (String.prefix (String c s) (String c s) || includes s (String c s)).
  rewrite prefix_same. reflexivity.
Qed.

End StringFacts.

Lemma append_empty (s t : string) : s +:+ t = "" -> s = "" /\ t = "".
Proof. destruct s; simpl; [auto | discriminate]. Qed.

Lemma trim_blank (w : string) : blank w = true -> trim w = "".
Proof. intros H. unfold trim. rewrite trimStart_blank_all by exact H. reflexivity. Qed.

(** The normal form of a padded value that differs from [v] in letter case
    only is the normal form of [v]. *)
Lemma normal_form_padding_case (pre u post v : string) :
  toLowerCase u = toLowerCase v -> blank pre = true -> blank post = true ->
  trim (toLowerCase (pre +:+ u +:+ post)) = trim (toLowerCase v).
Proof.
  intros Hu Hpre Hpost. rewrite !toLowerCase_app, Hu.
  apply trim_padding; rewrite blank_toLowerCase; assumption.
Qed.

(** X2.  Condition evaluation is insensitive to letter case and to
    surrounding white space, on both sides: replacing a non-empty field
    value and the condition's value by padded variants that differ in case
    only leaves the result unchanged. *)
Theorem evaluateCondition_ignores_case_and_padding
        (c : TriageCondition) (info : ExtractedInfo)
        (v u pre post w pre' post' : string) :
  info !! field c = Some v -> v <> "" ->
  toLowerCase u = toLowerCase v -> blank pre = true -> blank post = true ->
  toLowerCase w = toLowerCase (value c) -> blank pre' = true -> blank post' = true ->
  evaluateCondition (mkCondition (field c) (operator c) (pre' +:+ w +:+ post'))
                    (<[field c := pre +:+ u +:+ post]> info)
  = evaluateCondition c info.
Proof.
  intros Hv Hne Hu Hpre Hpost Hw Hpre' Hpost'.
  unfold evaluateCondition, getProperty, compareValue. simpl. rewrite lookup_insert_eq, Hv.
  assert (Hu' : u <> "").
  { intros ->. simpl in Hu. symmetry in Hu. apply (proj1 (toLowerCase_empty v)) in Hu.
    congruence. }
  destruct (String.eqb_spec (pre +:+ u +:+ post) "") as [E|_].
  { apply append_empty in E as [_ E]. apply append_empty in E as [E _]. contradiction. }
  destruct (String.eqb_spec v "") as [E|_]; [contradiction|].
  rewrite (normal_form_padding_case pre u post v Hu Hpre Hpost).
  rewrite (normal_form_padding_case pre' w post' (value c) Hw Hpre' Hpost').
  reflexivity.
Qed.

(** X2, witness: " AUSTRALIA " against the rule value written "australia ". *)
Lemma evaluateCondition_ignores_case_and_padding_witness :
  evaluateCondition (mkCondition "location" equals ("" +:+ "australia" +:+ " "))
                    (<["location" := " " +:+ "AUSTRALIA" +:+ " "]> Sample.salesInAustralia)
  = evaluateCondition (mkCondition "location" equals "Australia") Sample.salesInAustralia.
Proof.
  apply (evaluateCondition_ignores_case_and_padding
           (mkCondition "location" equals "Australia") Sample.salesInAustralia
           "Australia" "AUSTRALIA" " " " " "australia" "" " ");
    try reflexivity.
  discriminate.
Defined.

Lemma includes_empty (s : string) : includes s "" = true.
Proof. destruct s; reflexivity. Qed.

(** X3.  A [contains] condition holds on every present field when its
    value is blank, and whenever the [equals] condition with the same value
    would hold (same normal form). *)
Theorem contains_condition_matches
        (info : ExtractedInfo) (f v w : string) :
  info !! f = Some v -> v <> "" ->
  blank w = true \/ trim (toLowerCase w) = trim (toLowerCase v) ->
  evaluateCondition (mkCondition f contains w) info = Ok true.
Proof.
  intros Hv Hne Hw. unfold evaluateCondition, getProperty, compareValue. simpl. rewrite Hv.
  destruct (String.eqb_spec v "") as [E|_]; [contradiction|]. f_equal.
  destruct Hw as [Hb|He].
  - rewrite (trim_blank (toLowerCase w)) by (rewrite blank_toLowerCase; exact Hb).
    apply includes_empty.
  - rewrite He. apply includes_same.
Qed.

(** X3, witness: a rule value of one space matches any stated location. *)
Lemma contains_condition_matches_witness :
  evaluateCondition (mkCondition "location" contains " ") Sample.salesInAustralia = Ok true.
Proof.
  apply (contains_condition_matches Sample.salesInAustralia "location" "Australia" " ").
  - reflexivity.
  - discriminate.
  - left. reflexivity.
Defined.

(* ===================================================================== *)
(** * Further results: required and missing fields                        *)
(* ===================================================================== *)

Lemma NoDup_filter_list {A} (p : A -> bool) (l : list A) :
  List.NoDup l -> List.NoDup (List.filter p l).
Proof.
  induction 1 as [|x l Hx _ IH]; simpl; [constructor|].
  destruct (p x); [|exact IH]. constructor; [|exact IH].
  intros H. apply filter_In in H as [H _]. contradiction.
Qed.

Lemma dedupFirst_NoDup (l : list string) : List.NoDup (dedupFirst l).
Proof.
  induction l as [|x l IH]; simpl; constructor.
  - intros H. apply filter_In in H as [_ H]. rewrite String.eqb_refl in H. discriminate.
  - apply NoDup_filter_list, IH.
Qed.

(** X4.  The required fields are exactly the fields that the conditions of
    the loaded rules name, each listed once. *)
Theorem getRequiredFields_exact (rules : list TriageRule) :
  exists fields,
    getRequiredFields (Ok rules) = Ok fields /\
    List.NoDup fields /\
    forall f, In f fields <->
              exists rule c, In rule rules /\ In c (conditions rule) /\ field c = f.
Proof.
  exists (getRequiredFieldsIn rules). split; [reflexivity|].
  rewrite getRequiredFieldsIn_flat. split; [apply dedupFirst_NoDup|].
  intros f. rewrite dedupFirst_In, in_flat_map. unfold ruleFields. split.
  - intros (rule & Hr & Hf). apply in_map_iff in Hf as (c & Hc & Hin). eauto.
  - intros (rule & c & Hr & Hc & Hf). exists rule. split; [exact Hr|].
    apply in_map_iff. eauto.
Qed.

Lemma firstn_In {A} (n : nat) (x : A) (l : list A) : In x (firstn n l) -> In x l.
Proof.
  revert l. induction n as [|n IH]; intros l; simpl; [intros []|].
  destruct l as [|y l]; simpl; [intros [] | intros [H|H]; auto].
Qed.

Lemma filter_nil_none {A} (p : A -> bool) (l : list A) :
  List.filter p l = [] -> forall x, In x l -> p x = false.
Proof.
  intros H x Hx. destruct (p x) eqn:E; [|reflexivity].
  assert (In x (List.filter p l)) as Hin by (apply filter_In; auto).
  rewrite H in Hin. destruct Hin.
Qed.

(** X5.  A field that [getMissingFields] asks for is always one that some
    rule's condition names and that the information lacks; and when no rule
    matches, an empty answer means that the code reads every field that a
    rule names as present: the information has a non-empty value for it, or
    it has none and the name is one that every object inherits. *)
Theorem getMissingFields_asks_only_lacking
        (rules : list TriageRule) (info : ExtractedInfo) (fields : list string) :
  getMissingFields (Ok rules) info = Ok fields ->
  (forall f, In f fields ->
     lacks info f = true /\ absent info f = true /\
     exists rule c, In rule rules /\ In c (conditions rule) /\ field c = f) /\
  (fields = [] -> findMatchingRule (Ok rules) info = Ok None ->
   forall rule c, In rule rules -> In c (conditions rule) ->
     absent info (field c) = false /\
     (truthy (info !! field c) = true \/
      (info !! field c = None /\ arrayIncludes inheritedNames (field c) = true))).
Proof.
  rewrite getMissingFields_loaded.
  destruct (findMatchingRuleIn rules info) as [[r|]|e] eqn:M; [| |discriminate]; intros [= <-].
  - split; [intros f [] | unfold findMatchingRule; rewrite bind_Ok, M; discriminate].
  - assert (Hnamed : forall f, In f (fieldToAsk (absent info) rules) ->
                                absent info f = true /\
                                exists rule c, In rule rules /\ In c (conditions rule) /\ field c = f).
    { intros f. unfold fieldToAsk.
      destruct (List.filter (isClose (absent info)) rules) as [|c0 cs] eqn:F.
      - intros Hf. apply firstn_In, filter_In in Hf as [Hf Ha]. split; [exact Ha|].
        apply dedupFirst_In, in_flat_map in Hf as (rule & Hr & Hf).
        apply in_map_iff in Hf as (c & Hc & Hin). eauto.
      - intros Hf. apply firstn_In, dedupFirst_In, in_flat_map in Hf as (rule & Hr & Hf).
        rewrite <- F in Hr. apply filter_In in Hr as [Hr _].
        apply filter_In in Hf as [Hf Ha]. split; [exact Ha|].
        apply in_map_iff in Hf as (c & Hc & Hin). eauto. }
    split.
    + intros f Hf. destruct (Hnamed f Hf) as [Ha Hex].
      split; [apply absent_lacks, Ha|]. split; assumption.
    + intros Hnil _ rule c Hr Hc.
      assert (Ha : absent info (field c) = false).
      { unfold fieldToAsk in Hnil.
        destruct (List.filter (isClose (absent info)) rules) as [|c0 cs] eqn:F.
        - destruct (List.filter (absent info) (dedupFirst (flat_map ruleFields rules)))
            as [|x xs] eqn:G; [|discriminate].
          apply (filter_nil_none _ _ G). apply dedupFirst_In, in_flat_map.
          exists rule. split; [exact Hr | apply in_map_iff; eauto].
        - exfalso.
          assert (Hc0 : isClose (absent info) c0 = true).
          { assert (In c0 (List.filter (isClose (absent info)) rules)) as Hin
                by (rewrite F; left; reflexivity).
            apply filter_In in Hin. tauto. }
          pose proof (close_has_missing (absent info) c0 Hc0) as Hne. cbn [flat_map] in Hnil.
          destruct (missingFor (absent info) c0); [congruence | discriminate]. }
      split; [exact Ha|].
      destruct (lacks info (field c)) eqn:L.
      * right. apply lacks_not_absent; assumption.
      * left. unfold lacks in L. apply negb_false_iff in L. exact L.
Qed.

(** X5, witness: the sales rule asks a sales-only request for the location. *)
Lemma getMissingFields_asks_only_lacking_witness :
  (forall f, In f ["location"] ->
     lacks Sample.salesOnly f = true /\ absent Sample.salesOnly f = true /\
     exists rule c, In rule [Sample.salesAu] /\ In c (conditions rule) /\ field c = f) /\
  (["location"] = [] -> findMatchingRule (Ok [Sample.salesAu]) Sample.salesOnly = Ok None ->
   forall rule c, In rule [Sample.salesAu] -> In c (conditions rule) ->
     absent Sample.salesOnly (field c) = false /\
     (truthy (Sample.salesOnly !! field c) = true \/
      (Sample.salesOnly !! field c = None /\
       arrayIncludes inheritedNames (field c) = true))).
Proof.
  apply (getMissingFields_asks_only_lacking [Sample.salesAu] Sample.salesOnly ["location"]).
  vm_compute. reflexivity.
Defined.

(* ===================================================================== *)
(** * Further results: the term normaliser                                *)
(* ===================================================================== *)

Lemma distance_nil_r (s : string) : distance s "" = String.length s.
Proof. destruct s; reflexivity. Qed.

(** The edit distance never exceeds the longer length. *)
Lemma distance_le_max (s t : string) :
  (distance s t <= Nat.max (String.length s) (String.length t))%nat.
Proof.
  revert t. induction s as [|a s IH]; intros t; [simpl; lia|].
  destruct t as [|b t]; [rewrite distance_nil_r; simpl; lia|].
  change (distance (String a s) (String b t))
    with (Nat.min (Nat.min (S (distance s (String b t)))
                           (S (distance (String a s) t)))
                  (distance s t + (if Ascii.eqb a b then 0 else 1))%nat).
  specialize (IH t). simpl String.length. destruct (Ascii.eqb a b); lia.
Qed.

Lemma similarity_unit (str1 str2 : string) :
  (0 <= calculateSimilarity str1 str2 /\ calculateSimilarity str1 str2 <= 1)%Q.
Proof.
  unfold calculateSimilarity.
  pose proof (distance_le_max str1 str2) as Hd.
  destruct (Nat.max (String.length str1) (String.length str2)) as [|m] eqn:M; simpl.
  - split; unfold Qle; simpl; lia.
  - unfold Qle, Qminus, Qplus, Qopp. simpl.
    rewrite ?Pos.mul_1_r, ?Z.mul_1_r, ?Z.mul_1_l.
    pose proof (Zle_0_nat (distance str1 str2)).
    assert (Z.of_nat (distance str1 str2) <= Z.pos (Pos.of_succ_nat m)) by lia.
    split; lia.
Qed.

(** Strings without a common character are at the greatest distance: every
    character of the shorter is replaced and the rest inserted. *)
Lemma distance_no_common (s t : string) :
  (forall a, In a (list_ascii_of_string s) -> In a (list_ascii_of_string t) -> False) ->
  distance s t = Nat.max (String.length s) (String.length t).
Proof.
  revert t. induction s as [|a s IHs]; intros t H; [reflexivity|].
  induction t as [|b t IHt]; [rewrite distance_nil_r; simpl; lia|].
  change (distance (String a s) (String b t))
    with (Nat.min (Nat.min (S (distance s (String b t)))
                           (S (distance (String a s) t)))
                  (distance s t + (if Ascii.eqb a b then 0 else 1))%nat).
  rewrite (IHs (String b t)) by (intros c Hs Ht; apply (H c); [right; exact Hs | exact Ht]).
  rewrite IHt by (intros c Hs Ht; apply (H c); [exact Hs | right; exact Ht]).
  rewrite (IHs t) by (intros c Hs Ht; apply (H c); right; assumption).
  destruct (Ascii.eqb_spec a b) as [->|_].
  - exfalso. apply (H b); left; reflexivity.
  - simpl String.length. lia.
Qed.

(** The similarity is 0 exactly when the distance is the greater length. *)
Lemma similarity_zero (str1 str2 : string) :
  (calculateSimilarity str1 str2 == 0)%Q <->
  (Nat.max (String.length str1) (String.length str2) <> 0 /\
   distance str1 str2 = Nat.max (String.length str1) (String.length str2))%nat.
Proof.
  unfold calculateSimilarity.
  destruct (Nat.max (String.length str1) (String.length str2)) as [|m] eqn:M; simpl.
  - split; [intros H; unfold Qeq in H; simpl in H; lia | intros [H _]; congruence].
  - unfold Qeq, Qminus, Qplus, Qopp. simpl.
    rewrite ?Pos.mul_1_r, ?Z.mul_1_r, ?Z.mul_1_l.
    split; [intros H; split; [discriminate | lia] | intros [_ H]; lia].
Qed.

(** X6.  The similarity of two strings lies between 0 and 1; it is 1 for
    equal strings and 0 when every character has to be replaced: exactly
    when the edit distance is the greater of the two lengths, which is the
    case of two strings without a common character, as of a string against
    the empty string. *)
Theorem calculateSimilarity_bounds (str1 str2 : string) :
  (0 <= calculateSimilarity str1 str2 /\ calculateSimilarity str1 str2 <= 1)%Q /\
  (calculateSimilarity str1 str1 == 1)%Q /\
  (str1 = "" \/ calculateSimilarity str1 "" == 0)%Q /\
  ((calculateSimilarity str1 str2 == 0)%Q <->
   (Nat.max (String.length str1) (String.length str2) <> 0 /\
    distance str1 str2 = Nat.max (String.length str1) (String.length str2))%nat) /\
  ((forall a, In a (list_ascii_of_string str1) -> In a (list_ascii_of_string str2) -> False) ->
   (str1 = "" /\ str2 = "") \/ (calculateSimilarity str1 str2 == 0)%Q).
Proof.
  split; [apply similarity_unit|]. split; [apply calculateSimilarity_same|].
  split; [|split; [apply similarity_zero|]].
  - destruct str1 as [|a s]; [left; reflexivity | right].
    unfold calculateSimilarity. rewrite distance_nil_r, Nat.max_0_r.
    simpl String.length. cbn [Nat.eqb]. unfold Qeq, Qminus, Qplus, Qopp. simpl. lia.
  - intros H. destruct str1 as [|a s]; [destruct str2 as [|b t]; [left; split; reflexivity|]|];
      right; apply similarity_zero; (split; [simpl; lia | apply distance_no_common, H]).
Qed.

(** "Legal" against "HR": no common letter, five replacements or
    insertions for five characters. *)
Example calculateSimilarity_nothing_in_common :
  (calculateSimilarity "legal" "hr" == 0)%Q.
Proof. reflexivity. Qed.

Section Confidence.

Variable normalizedInput : string.

Local Abbreviation unit b := (0 <= confidence b /\ confidence b <= 1)%Q.

Lemma improve_unit (t : string) (c : string) (b : FuzzyMatchResult) :
  unit b -> unit (improve t (calculateSimilarity normalizedInput c) b).
Proof.
  intros Hb. unfold improve.
  destruct (Qgtb _ _); [simpl; apply similarity_unit | exact Hb].
Qed.

Lemma exactMatch_unit (t : string) : unit (exactMatch t).
Proof. simpl. split; unfold Qle; simpl; lia. Qed.

Lemma scanSynonyms_unit (t : string) (syns : list string) (b : FuzzyMatchResult) :
  unit b ->
  match scanSynonyms normalizedInput t syns b with
  | Returned r => unit r
  | Running b' => unit b'
  end.
Proof.
  revert b. induction syns as [|syn syns IH]; intros b Hb; simpl; [exact Hb|].
  destruct (String.eqb normalizedInput (toLowerCase syn)); [apply exactMatch_unit|].
  apply IH, improve_unit, Hb.
Qed.

Lemma scanTerms_unit (ts : list LegalTerm) (b : FuzzyMatchResult) :
  unit b ->
  match scanTerms normalizedInput ts b with
  | Returned r => unit r
  | Running b' => unit b'
  end.
Proof.
  revert b. induction ts as [|t ts IH]; intros b Hb; simpl; [exact Hb|].
  destruct (String.eqb normalizedInput (toLowerCase (term t))); [apply exactMatch_unit|].
  pose proof (scanSynonyms_unit (term t) (synonyms t) _
                (improve_unit (term t) (toLowerCase (term t)) b Hb)) as Hs.
  destruct (scanSynonyms _ _ _ _) as [r|b']; [exact Hs | apply IH, Hs].
Qed.

End Confidence.

Lemma asIs_unit (input : string) : (0 <= confidence (asIs input) /\ confidence (asIs input) <= 1)%Q.
Proof. simpl. split; unfold Qle; simpl; lia. Qed.

(** X7.  Whatever the threshold and the outcome of the table lookup, the
    confidence that [fuzzyMatch] reports lies between 0 and 1. *)
Theorem fuzzyMatch_confidence_bounds
        (findMany : string -> result (list LegalTerm)) (input cat : string) (threshold : Q) :
  exists r,
    fuzzyMatch findMany input cat threshold = Ok r /\
    (0 <= confidence r /\ confidence r <= 1)%Q.
Proof.
  unfold fuzzyMatch. destruct (findMany cat) as [terms|e]; simpl.
  - pose proof (scanTerms_unit (trim (toLowerCase input)) terms (asIs input) (asIs_unit input))
      as Hs.
    destruct (scanTerms _ terms (asIs input)) as [r|b]; [eauto|].
    destruct (Qle_bool threshold (confidence b)); eauto using asIs_unit.
  - eauto using asIs_unit.
Qed.

Section ExactMatch.

Variable normalizedInput : string.

(** A row with a candidate that is the input exactly (lower-cased). *)
Local Abbreviation exactRow t :=
  (exists c, In c (candidates t) /\ normalizedInput = toLowerCase c).

Lemma scanSynonyms_exact (t : string) (syns : list string) (b : FuzzyMatchResult) :
  match scanSynonyms normalizedInput t syns b with
  | Returned r => r = exactMatch t /\ exists c, In c syns /\ normalizedInput = toLowerCase c
  | Running _ => forall c, In c syns -> normalizedInput <> toLowerCase c
  end.
Proof.
  revert b. induction syns as [|syn syns IH]; intros b; simpl; [intros c []|].
  destruct (String.eqb_spec normalizedInput (toLowerCase syn)) as [E|N].
  - split; [reflexivity|]. exists syn. auto.
  - specialize (IH (improve t (calculateSimilarity normalizedInput (toLowerCase syn)) b)).
    destruct (scanSynonyms _ _ _ _) as [r|b'].
    + destruct IH as (-> & c & Hc & E). split; [reflexivity|]. exists c. auto.
    + intros c [<-|Hc]; [exact N | apply IH, Hc].
Qed.

Lemma scanTerms_exact (ts : list LegalTerm) (b : FuzzyMatchResult) :
  match scanTerms normalizedInput ts b with
  | Returned r => exists t, In t ts /\ exactRow t /\ r = exactMatch (term t)
  | Running _ => forall t, In t ts -> ~ exactRow t
  end.
Proof.
  revert b. induction ts as [|t ts IH]; intros b; simpl; [intros t []|].
  destruct (String.eqb_spec normalizedInput (toLowerCase (term t))) as [E|N].
  - exists t. split; [left; reflexivity|]. split; [|reflexivity].
    exists (term t). split; [left; reflexivity | exact E].
  - pose proof (scanSynonyms_exact (term t) (synonyms t)
                  (improve (term t) (calculateSimilarity normalizedInput (toLowerCase (term t))) b))
      as Hs.
    destruct (scanSynonyms _ _ _ _) as [r|b'].
    + destruct Hs as (-> & c & Hc & E). exists t. split; [left; reflexivity|].
      split; [|reflexivity]. exists c. split; [right; exact Hc | exact E].
    + specialize (IH b'). destruct (scanTerms normalizedInput ts b') as [r|b''].
      * destruct IH as (t' & Ht' & Hex & ->). exists t'. split; [right; exact Ht' | auto].
      * intros t' [<-|Ht'] (c & [<-|Hc] & E); [exact (N E) | exact (Hs c Hc E) |
                                               apply (IH t' Ht'); exists (term t'); simpl; auto |
                                               apply (IH t' Ht'); exists c; simpl; auto].
Qed.

End ExactMatch.

(** X8.  When the trimmed, lower-cased input equals the lower-cased term or
    a lower-cased synonym of some row, [fuzzyMatch] returns confidence 1 and
    the term of a row that has such an exact candidate, at any threshold and
    whatever the similarity of the other rows. *)
Theorem fuzzyMatch_exact_candidate
        (findMany : string -> result (list LegalTerm)) (input cat : string) (threshold : Q)
        (terms : list LegalTerm) (t : LegalTerm) (c : string) :
  findMany cat = Ok terms -> In t terms -> In c (candidates t) ->
  trim (toLowerCase input) = toLowerCase c ->
  exists t',
    In t' terms /\
    (exists c', In c' (candidates t') /\ trim (toLowerCase input) = toLowerCase c') /\
    fuzzyMatch findMany input cat threshold = Ok (exactMatch (term t')).
Proof.
  intros Hf Ht Hc He. unfold fuzzyMatch. rewrite Hf. simpl.
  pose proof (scanTerms_exact (trim (toLowerCase input)) terms (asIs input)) as Hs.
  destruct (scanTerms _ terms (asIs input)) as [r|b].
  - destruct Hs as (t' & Ht' & Hex & ->). exists t'. auto.
  - exfalso. apply (Hs t Ht). exists c. auto.
Qed.

(** X8, witness: "usa" is a synonym of the second location row. *)
Lemma fuzzyMatch_exact_candidate_witness :
  exists t',
    In t' Sample.locationTerms /\
    (exists c', In c' (candidates t') /\ trim (toLowerCase " usa ") = toLowerCase c') /\
    fuzzyMatch Sample.termTable " usa " "location" 2 = Ok (exactMatch (term t')).
Proof.
  apply (fuzzyMatch_exact_candidate Sample.termTable " usa " "location" 2
           Sample.locationTerms (mkTerm "United States" "location" ["US"; "USA"]) "USA").
  - reflexivity.
  - right. left. reflexivity.
  - right. right. left. reflexivity.
  - reflexivity.
Defined.

(** One visit writes the entry's own key, as [entryOutcome] says, and no
    other key. *)
Lemma fuzzyMatchEntry_step (findMany : string -> result (list LegalTerm))
      (n0 : gmap string string) (g0 : gmap string FuzzyLog) (f v : string) :
  exists n g,
    fuzzyMatchEntry findMany (n0, g0) (f, v) = Ok (n, g) /\
    entryOutcome findMany f v (n !! f) (g0 !! f) (g !! f) /\
    forall f', f' <> f -> n !! f' = n0 !! f' /\ g !! f' = g0 !! f'.
Proof.
  unfold fuzzyMatchEntry.
  assert (Hkeep : exists n g,
             Ok (<[f:=v]> n0, g0) = Ok (n, g) /\
             entryOutcome findMany f v (n !! f) (g0 !! f) (g !! f) /\
             forall f', f' <> f -> n !! f' = n0 !! f' /\ g !! f' = g0 !! f').
  { exists (<[f:=v]> n0), g0. split; [reflexivity|]. split.
    - left. rewrite lookup_insert_eq. auto.
    - intros f' Hne. rewrite lookup_insert_ne by congruence. auto. }
  destruct (fieldCategoryMap f) as [cat|] eqn:C; [|exact Hkeep].
  destruct (truthy (Some v)) eqn:T; [|exact Hkeep].
  destruct (fuzzyMatch_total findMany v cat defaultThreshold) as [r Hr]. rewrite Hr. simpl.
  destruct (Qle_bool (7 # 10) (confidence r)) eqn:Q; [|exact Hkeep].
  eexists _, _. split; [reflexivity|]. split.
  - right. exists cat, r. rewrite !lookup_insert_eq. repeat split; auto.
    + intros ->. discriminate.
    + apply Qle_bool_iff, Q.
  - intros f' Hne. rewrite !lookup_insert_ne by congruence. auto.
Qed.

Lemma forOf_cons {A S : Type} (body : S -> A -> result S) (x : A) (l : list A) (s : S) :
  forOf body (x :: l) s = body s x ≫= (fun s' => forOf body l s').
Proof. reflexivity. Qed.


Lemma forOf_fuzzyMatchEntry (findMany : string -> result (list LegalTerm))
      (l : list (string * string)) (n0 : gmap string string) (g0 : gmap string FuzzyLog) :
  List.NoDup (map fst l) ->
  exists n g,
    forOf (fuzzyMatchEntry findMany) l (n0, g0) = Ok (n, g) /\
    forall f,
      (~ In f (map fst l) -> n !! f = n0 !! f /\ g !! f = g0 !! f) /\
      (forall v, In (f, v) l -> entryOutcome findMany f v (n !! f) (g0 !! f) (g !! f)).
Proof.
  revert n0 g0. induction l as [|[f1 v1] l IH]; intros n0 g0 Hnd.
  - exists n0, g0. split; [reflexivity|]. intros f. split; [auto | intros v []].
  - simpl in Hnd. inversion Hnd as [|? ? Hnotin Hnd']; subst.
    destruct (fuzzyMatchEntry_step findMany n0 g0 f1 v1) as (n1 & g1 & Hstep & Hout & Hother).
    rewrite forOf_cons, Hstep, bind_Ok.
    destruct (IH n1 g1 Hnd') as (n & g & -> & Hall).
    exists n, g. split; [reflexivity|]. intros f. split.
    + intros Hf. destruct (Hall f) as [Hrest _].
      destruct Hrest as [Hn Hg]; [intros H; apply Hf; right; exact H|].
      destruct (Hother f) as [Hn1 Hg1]; [intros ->; apply Hf; left; reflexivity|].
      split; congruence.
    + intros v [[= -> ->]|Hin].
      * destruct (Hall f) as [[Hn Hg] _]; [exact Hnotin|]. rewrite Hn, Hg. exact Hout.
      * destruct (Hall f) as [_ Hv]. specialize (Hv v Hin).
        assert (f <> f1) as Hne.
        { intros ->. apply Hnotin. apply in_map_iff. exists (f1, v). auto. }
        destruct (Hother f Hne) as [_ Hg1]. rewrite <- Hg1. exact Hv.
Qed.

(** X9.  Batch normalisation never fails and works field by field.  A
    property that the information lacks stays absent.  A property that it
    has is kept as it is, with no log entry, or (only for [requestType],
    [location], [department] with a non-empty value) is replaced by the
    normaliser's answer of confidence at least 0.7, and then logged with the
    original value, the answer and the confidence.  The log is reported only
    when it has an entry. *)
Theorem fuzzyMatchExtractedInfo_per_field
        (findMany : string -> result (list LegalTerm)) (info : gmap string string) :
  exists (normalized : gmap string string) (logs : gmap string FuzzyLog),
    fuzzyMatchExtractedInfo findMany info
    = Ok (normalized, if (0 <? size logs)%nat then Some logs else None) /\
    forall f,
      match info !! f with
      | None => normalized !! f = None /\ logs !! f = None
      | Some v => entryOutcome findMany f v (normalized !! f) None (logs !! f)
      end.
Proof.
  unfold fuzzyMatchExtractedInfo.
  destruct (forOf_fuzzyMatchEntry findMany (map_to_list info) ∅ ∅) as (n & g & -> & Hall).
  { apply NoDup_ListNoDup. exact (NoDup_fst_map_to_list info). }
  exists n, g. split; [reflexivity|]. intros f.
  destruct (info !! f) as [v|] eqn:E.
  - destruct (Hall f) as [_ Hv].
    assert (In (f, v) (map_to_list info)) as Hin
        by (apply list_elem_of_In, elem_of_map_to_list, E).
    specialize (Hv v Hin). rewrite lookup_empty in Hv. exact Hv.
  - destruct (Hall f) as [Hn _]. destruct Hn as [Hn Hg].
    { intros Hin. apply in_map_iff in Hin as ([f' v] & <- & Hin).
      apply list_elem_of_In, elem_of_map_to_list in Hin. simpl in E. congruence. }
    rewrite Hn, Hg. split; apply lookup_empty.
Qed.

(** Batch normalisation of a request written with a misspelt location. *)
Example fuzzyMatchExtractedInfo_sample :
  exists normalized logs,
    fuzzyMatchExtractedInfo Sample.termTable
      {[ "location" := "Astralia"; "note" := "urgent" ]} = Ok (normalized, Some logs) /\
    normalized !! "location" = Some "Australia" /\
    normalized !! "note" = Some "urgent" /\
    logs !! "location" = Some (mkFuzzyLog "Astralia" "Australia" (8 # 9)%Q) /\
    logs !! "note" = None.
Proof. eexists _, _. split; [vm_compute; reflexivity|]. repeat split. Qed.

(* ===================================================================== *)
(** * Further results: extraction and auto-fill                           *)
(* ===================================================================== *)

(** One guarded assignment [if (!m[key] && val) m[key] = val]. *)
Lemma guarded_fill_lookup (m : gmap string string) (key val f : string) :
  (if negb (truthy (m !! key)) && truthy (Some val) then <[key:=val]> m else m) !! f =
  if decide (f = key)
  then (if truthy (m !! key) then m !! key
        else if truthy (Some val) then Some val else m !! key)
  else m !! f.
Proof.
  destruct (decide (f = key)) as [->|Hne].
  - destruct (truthy (m !! key)), (truthy (Some val)); cbn [negb andb];
      try reflexivity. apply lookup_insert_eq.
  - destruct (negb (truthy (m !! key)) && truthy (Some val));
      [apply lookup_insert_ne; congruence | reflexivity].
Qed.

(** X10.  Auto-fill from the employee profile touches [department] and
    [location] only, and each of them only when the conversation gave no
    non-empty value and the profile has one: a value stated by the user is
    never overwritten. *)
Theorem autoFill_precedence (info : gmap string string) (emp : Employee) :
  (forall f, f <> "department" -> f <> "location" ->
             autoFill info (Some emp) !! f = info !! f) /\
  autoFill info (Some emp) !! "department" =
    (if truthy (info !! "department") then info !! "department"
     else if truthy (Some (department emp)) then Some (department emp)
          else info !! "department") /\
  autoFill info (Some emp) !! "location" =
    (if truthy (info !! "location") then info !! "location"
     else if truthy (Some (location emp)) then Some (location emp)
          else info !! "location").
Proof.
  unfold autoFill.
  set (info1 := if negb (truthy (info !! "department")) && truthy (Some (department emp))
                then <["department" := department emp]> info else info).
  assert (H1 : forall f, info1 !! f =
                 if decide (f = "department")
                 then (if truthy (info !! "department") then info !! "department"
                       else if truthy (Some (department emp)) then Some (department emp)
                            else info !! "department")
                 else info !! f)
    by (intros f; apply guarded_fill_lookup).
  split; [|split].
  - intros f Hd Hl. rewrite guarded_fill_lookup.
    destruct (decide (f = "location")); [contradiction|].
    rewrite H1. destruct (decide (f = "department")); [contradiction | reflexivity].
  - rewrite guarded_fill_lookup.
    destruct (decide ("department" = "location")); [discriminate|].
    rewrite H1. destruct (decide ("department" = "department")); [reflexivity | contradiction].
  - rewrite guarded_fill_lookup.
    destruct (decide ("location" = "location")); [|contradiction].
    rewrite (H1 "location").
    destruct (decide ("location" = "department")); [discriminate | reflexivity].
Qed.

(** A value that the filter of the extraction lets through. *)
Lemma keepEntry_lookup (acc : gmap string string) (entry : string * Json) (k v : string) :
  keepEntry acc entry !! k = Some v ->
  acc !! k = Some v \/
  (entry = (k, JString v) /\ v <> "" /\ toLowerCase v <> "null").
Proof.
  destruct entry as [k' j]. unfold keepEntry. cbn [fst snd].
  destruct j as [| | |s|]; auto.
  destruct (truthy (Some s) && negb (String.eqb (toLowerCase s) "null")) eqn:K; [|auto].
  apply andb_true_iff in K as [T N]. apply negb_true_iff, String.eqb_neq in N.
  destruct (decide (k' = k)) as [->|Hne].
  - rewrite lookup_insert_eq. intros [= ->]. right. repeat split; auto.
    intros ->. discriminate.
  - rewrite lookup_insert_ne by exact Hne. auto.
Qed.

Lemma fold_keepEntry_lookup (entries : list (string * Json)) (acc : gmap string string)
      (k v : string) :
  fold_left keepEntry entries acc !! k = Some v ->
  acc !! k = Some v \/
  (In (k, JString v) entries /\ v <> "" /\ toLowerCase v <> "null").
Proof.
  revert acc. induction entries as [|e entries IH]; intros acc; simpl; [auto|].
  intros H. destruct (IH _ H) as [Hacc|(Hin & Hv)]; [|right; split; auto].
  destruct (keepEntry_lookup acc e k v Hacc) as [Ha|(-> & Hv)]; [left; exact Ha|].
  right. split; [left; reflexivity | exact Hv].
Qed.

(** X11.  Every property of the extracted information is a string property
    of the object the completion returned, non-empty and other than "null"
    in any letter case: numbers, booleans, nulls, nested values and empty
    strings are dropped, and a failed or unparsable completion gives the
    empty information. *)
Theorem extraction_keeps_meaningful_strings
        (reply : result ExtractionReply) (m : gmap string string) (k v : string) :
  extractInformationFromConversation reply = Ok m -> m !! k = Some v ->
  v <> "" /\ toLowerCase v <> "null" /\
  exists entries, reply = Ok (JsonObject entries) /\ In (k, JString v) entries.
Proof.
  unfold extractInformationFromConversation.
  destruct reply as [[| |entries]|e]; simpl; intros [= <-] Hk;
    try (rewrite lookup_empty in Hk; discriminate).
  destruct (fold_keepEntry_lookup entries ∅ k v Hk) as [He|(Hin & Hne & Hnull)].
  - rewrite lookup_empty in He. discriminate.
  - repeat split; auto. exists entries. auto.
Qed.

(** X11, witness: the reply of the sample run, whose null department is
    dropped. *)
Lemma extraction_keeps_meaningful_strings_witness :
  "Australia" <> "" /\ toLowerCase "Australia" <> "null" /\
  exists entries,
    extraction Sample.rosterDown = Ok (JsonObject entries) /\
    In ("location", JString "Australia") entries.
Proof.
  apply (extraction_keeps_meaningful_strings (extraction Sample.rosterDown)
           {[ "requestType" := "Sales Contract"; "location" := "Australia" ]}
           "location" "Australia").
  - vm_compute. reflexivity.
  - vm_compute. reflexivity.
Defined.

(* ===================================================================== *)
(** * Further results: the specialist scorer                              *)
(* ===================================================================== *)

Section Availability.

Variable now : Z.

(** Slots that a day contributes to the count. *)
Local Abbreviation counted day :=
  (match slots day with
   | Some sl => if inWindow now day then Z.of_nat (length sl) else 0
   | None => 0
   end).

Local Abbreviation open day :=
  (inWindow now day && match slots day with
                       | Some sl => (0 <? length sl)%nat
                       | None => false
                       end).

Lemma open_counted (day : Day) : 0 <= counted day /\ open day = (0 <? counted day).
Proof.
  destruct (slots day) as [sl|]; [|rewrite andb_false_r; split; [lia | reflexivity]].
  destruct (inWindow now day); simpl; [|split; [lia | reflexivity]].
  split; [lia|]. destruct sl; simpl; [reflexivity|]. symmetry. apply Z.ltb_lt. lia.
Qed.

Lemma fold_counted (days : list Day) (acc : Z) :
  let total := fold_left (fun totalSlots day =>
                            match slots day with
                            | Some sl => if inWindow now day
                                         then totalSlots + Z.of_nat (length sl)
                                         else totalSlots
                            | None => totalSlots
                            end) days acc in
  acc <= total /\ existsb (fun day => open day) days = (acc <? total).
Proof.
  revert acc. induction days as [|d days IH]; intros acc; cbv zeta; simpl.
  - split; [lia|]. symmetry. apply Z.ltb_ge. lia.
  - destruct (open_counted d) as [Hc Ho]. rewrite Ho.
    set (acc' := match slots d with
                 | Some sl => if inWindow now d then acc + Z.of_nat (length sl) else acc
                 | None => acc
                 end).
    assert (Hacc : acc' = acc + counted d).
    { unfold acc'. destruct (slots d); [destruct (inWindow now d)|]; lia. }
    destruct (IH acc') as [Hle Hex]. cbv zeta in Hle, Hex. rewrite Hex.
    split; [lia|].
    destruct (0 <? counted d) eqn:P.
    + apply Z.ltb_lt in P. simpl. symmetry. apply Z.ltb_lt. lia.
    + apply Z.ltb_ge in P. simpl. assert (acc' = acc) as -> by lia. reflexivity.
Qed.

Lemma hasUpcomingAvailability_count (l : Lawyer) :
  hasUpcomingAvailability now l = (0 <? getAvailableSlotCount now l).
Proof.
  unfold hasUpcomingAvailability, getAvailableSlotCount.
  destruct (calendarAvailability l) as [cal|]; [|reflexivity].
  destruct (upcomingAvailability cal) as [days|]; [|reflexivity].
  apply (fold_counted days 0).
Qed.

Lemma getAvailableSlotCount_nonneg (l : Lawyer) : 0 <= getAvailableSlotCount now l.
Proof.
  unfold getAvailableSlotCount.
  destruct (calendarAvailability l) as [cal|]; [|lia].
  destruct (upcomingAvailability cal) as [days|]; [|lia].
  apply (fold_counted days 0).
Qed.

End Availability.

(** The availability block is -10 exactly when the first read finds no
    upcoming availability, and otherwise lies between 25 and 40. *)
Lemma availabilityPoints_range (reads : Reads) (l : Lawyer) :
  (hasUpcomingAvailability (readByHas reads) l = false /\ availabilityPoints reads l = -10) \/
  (hasUpcomingAvailability (readByHas reads) l = true /\
   25 <= availabilityPoints reads l <= 40).
Proof.
  unfold availabilityPoints.
  pose proof (getAvailableSlotCount_nonneg (readByCount reads) l).
  destruct (hasUpcomingAvailability (readByHas reads) l); [right | left]; split;
    try reflexivity; lia.
Qed.

(** X12.  Read at one instant, the two readings of the calendar agree: a
    lawyer has upcoming availability exactly when the slot count of the next
    seven days is positive, and availability then contributes -10, or
    between 27 and 40 points.  The scorer reads the clock once for each
    reading: whatever the two reads are, availability contributes -10, when
    the first reading finds no availability, or between 25 and 40 points;
    25 is reached when a day leaves the window between the two reads. *)
Theorem availability_consistent (now : Z) (reads : Reads) (l : Lawyer) :
  hasUpcomingAvailability now l = (0 <? getAvailableSlotCount now l) /\
  (availabilityPoints (mkReads now now) l = -10 \/
   (27 <= availabilityPoints (mkReads now now) l <= 40 /\
    1 <= getAvailableSlotCount now l)) /\
  ((hasUpcomingAvailability (readByHas reads) l = false /\
    availabilityPoints reads l = -10) \/
   (hasUpcomingAvailability (readByHas reads) l = true /\
    25 <= availabilityPoints reads l <= 40)) /\
  availabilityPoints (mkReads 1005 1006) (Sample.salesAuLawyer 5) = 25.
Proof.
  pose proof (hasUpcomingAvailability_count now l) as H.
  split; [exact H|]. split; [|split; [apply availabilityPoints_range | reflexivity]].
  unfold availabilityPoints. cbn [readByHas readByCount]. rewrite H.
  destruct (0 <? getAvailableSlotCount now l) eqn:P; [right | left; reflexivity].
  apply Z.ltb_lt in P. lia.
Qed.

Section ScoreBlocks.

Variables (reads : Reads) (l : Lawyer) (info : ExtractedInfo) (employee : option Employee).

Lemma specialtyPoints_range : 0 <= specialtyPoints l info <= 50.
Proof.
  unfold specialtyPoints. destruct (info !! "requestType"); [|lia].
  destruct (_ && _); lia.
Qed.

Lemma locationPoints_range : 0 <= locationPoints l info <= 30.
Proof.
  unfold locationPoints. destruct (info !! "location"); [|lia].
  destruct (someEqualsLower _ _); lia.
Qed.

Lemma departmentPoints_range : 0 <= departmentPoints l info <= 20.
Proof.
  unfold departmentPoints. destruct (info !! "department"); [|lia].
  destruct (someEqualsLower _ _); lia.
Qed.

Lemma tagPoints_nonneg : 0 <= tagPoints l employee.
Proof.
  unfold tagPoints. destruct employee as [emp|]; [|lia].
  destruct (empTags emp), (tags l); try lia.
  destruct (_ && _); lia.
Qed.

Lemma employeeLocationPoints_range : 0 <= employeeLocationPoints l employee <= 15.
Proof.
  unfold employeeLocationPoints. destruct employee; [|lia].
  destruct (someEqualsLower _ _); lia.
Qed.

Lemma employeeDepartmentPoints_range : 0 <= employeeDepartmentPoints l employee <= 10.
Proof.
  unfold employeeDepartmentPoints. destruct employee; [|lia].
  destruct (someEqualsLower _ _); lia.
Qed.

(** Only the availability block can lower a score. *)
Lemma score_at_least_availability :
  availabilityPoints reads l <= scoreLawyerMatch reads l info employee.
Proof.
  unfold scoreLawyerMatch.
  pose proof specialtyPoints_range. pose proof locationPoints_range.
  pose proof departmentPoints_range. pose proof tagPoints_nonneg.
  pose proof employeeLocationPoints_range. pose proof employeeDepartmentPoints_range.
  lia.
Qed.

End ScoreBlocks.

(** The selection on a loaded, non-empty roster with a request type: the
    head of the sorted scores decides. *)
Lemma findBestLawyer_loaded (lawyers : list Lawyer) (clock : Clock) (info : ExtractedInfo)
      (employee : option Employee) :
  truthy (info !! "requestType") = true -> lawyers <> [] ->
  exists b rest,
    sortByScoreDesc (scoreFrom clock 0 lawyers info employee) = b :: rest /\
    findBestLawyer (Ok lawyers) clock info employee =
    Ok (if snd b <? 20 then None
        else Some {| lawyer := fst b; score := snd b;
                     reason := buildReason (reasonReads clock) (fst b) info employee |}).
Proof.
  intros T Hne. unfold findBestLawyer. rewrite T. simpl.
  destruct lawyers as [|l0 ls] eqn:EL; [congruence|]. rewrite <- EL.
  replace (length lawyers =? 0)%nat with false by (subst; reflexivity).
  destruct (sortByScoreDesc _) as [|b rest] eqn:S.
  { apply sortByScoreDesc_nil in S. subst. discriminate. }
  exists b, rest. split; [reflexivity|]. destruct (snd b <? 20); reflexivity.
Qed.

(** X13.  Availability alone qualifies: when the request type is known and
    some lawyer of the roster has, at the clock read made for that lawyer,
    an open slot in the next seven days, selection always returns a
    candidate, whether or not anything in the request matches anyone; its
    score is at least 25. *)
Theorem available_lawyer_always_selected
        (lawyers : list Lawyer) (clock : Clock) (info : ExtractedInfo)
        (employee : option Employee) (position : nat) (l : Lawyer) :
  truthy (info !! "requestType") = true ->
  nth_error lawyers position = Some l ->
  hasUpcomingAvailability (readByHas (scoringReads clock position)) l = true ->
  exists m, findBestLawyer (Ok lawyers) clock info employee = Ok (Some m) /\ 25 <= score m.
Proof.
  intros T Hnth Hav.
  destruct (findBestLawyer_loaded lawyers clock info employee T) as (b & rest & S & ->).
  { intros ->. destruct position; discriminate. }
  apply sortByScoreDesc_head in S as [_ Hmax].
  assert (Hl : 25 <= scoreLawyerMatch (scoringReads clock position) l info employee).
  { pose proof (score_at_least_availability (scoringReads clock position) l info employee) as Hs.
    destruct (availabilityPoints_range (scoringReads clock position) l) as [[Hn _]|[_ Hr]];
      [congruence | lia]. }
  specialize (Hmax (l, scoreLawyerMatch (scoringReads clock position) l info employee)).
  simpl in Hmax. assert (25 <= snd b).
  { etransitivity; [exact Hl|]. apply Hmax.
    apply (nth_error_In _ position). apply (scoreFrom_nth clock info employee lawyers 0 position l Hnth). }
  replace (snd b <? 20) with false by (symmetry; apply Z.ltb_ge; lia).
  eexists. split; [reflexivity | assumption].
Qed.

(** X13, witness: an employment request and a roster whose only available
    lawyer handles sales in Australia. *)
Lemma available_lawyer_always_selected_witness :
  exists m,
    findBestLawyer (Ok [Sample.busySalesLawyer; Sample.salesAuLawyer 5]) (steady 5)
                   {[ "requestType" := "Employment Contract" ]} None = Ok (Some m) /\
    25 <= score m.
Proof.
  apply (available_lawyer_always_selected
           [Sample.busySalesLawyer; Sample.salesAuLawyer 5] (steady 5)
           {[ "requestType" := "Employment Contract" ]} None 1%nat (Sample.salesAuLawyer 5)).
  - reflexivity.
  - reflexivity.
  - reflexivity.
Defined.

(** X14.  Ties keep roster order: the candidate selected is the first
    lawyer of the roster that reaches the best score; every lawyer listed
    before it scores strictly less and none listed after it scores more.
    The score of a lawyer is the one computed at its position of the
    roster. *)
Theorem findBestLawyer_first_of_best
        (lawyers : list Lawyer) (clock : Clock) (info : ExtractedInfo)
        (employee : option Employee) (m : BestMatch) :
  findBestLawyer (Ok lawyers) clock info employee = Ok (Some m) ->
  exists before after,
    lawyers = (before ++ lawyer m :: after)%list /\
    score m = scoreLawyerMatch (scoringReads clock (length before)) (lawyer m) info employee /\
    (forall k l, nth_error before k = Some l ->
                 scoreLawyerMatch (scoringReads clock k) l info employee < score m) /\
    (forall k l, nth_error after k = Some l ->
                 scoreLawyerMatch (scoringReads clock (length before + 1 + k)) l info employee
                 <= score m).
Proof.
  intros H.
  assert (T : truthy (info !! "requestType") = true).
  { unfold findBestLawyer in H. destruct (truthy (info !! "requestType")); [reflexivity|].
    discriminate. }
  assert (Hne : lawyers <> []).
  { intros ->. unfold findBestLawyer in H. rewrite T in H. discriminate. }
  destruct (findBestLawyer_loaded lawyers clock info employee T Hne) as (b & rest & S & E).
  rewrite E in H. destruct (snd b <? 20); [discriminate|]. injection H as <-. simpl.
  pose proof (sortByScoreDesc_head _ _ _ S) as [_ Hmax].
  destruct (sortByScoreDesc_head_first _ _ _ S) as (before & after & Heq & Hlt).
  exists (map fst before), (map fst after).
  assert (Hlawyers : lawyers = (map fst before ++ fst b :: map fst after)%list).
  { rewrite <- (scoreFrom_fst clock info employee lawyers 0), Heq, map_app. reflexivity. }
  assert (Hat : forall k l, nth_error lawyers k = Some l ->
                  nth_error (before ++ b :: after) k =
                  Some (l, scoreLawyerMatch (scoringReads clock k) l info employee)).
  { intros k l Hk. rewrite <- Heq. apply (scoreFrom_nth clock info employee lawyers 0 k l Hk). }
  split; [exact Hlawyers|]. rewrite length_map. split; [|split].
  - assert (Hk : nth_error lawyers (length before) = Some (fst b)).
    { rewrite Hlawyers, nth_error_app2 by (rewrite length_map; lia).
      rewrite length_map, Nat.sub_diag. reflexivity. }
    specialize (Hat _ _ Hk). rewrite nth_error_app2, Nat.sub_diag in Hat by lia.
    simpl in Hat. injection Hat as Hb. rewrite Hb at 1. reflexivity.
  - intros k l Hk. assert (Hlen : (k < length before)%nat).
    { rewrite <- (length_map fst before). apply List.nth_error_Some. congruence. }
    assert (Hk' : nth_error lawyers k = Some l).
    { rewrite Hlawyers, nth_error_app1 by (rewrite length_map; exact Hlen). exact Hk. }
    specialize (Hat _ _ Hk'). rewrite nth_error_app1 in Hat by exact Hlen.
    rewrite List.Forall_forall in Hlt. apply nth_error_In in Hat. apply (Hlt _ Hat).
  - intros k l Hk.
    assert (Hk' : nth_error lawyers (length before + 1 + k) = Some l).
    { rewrite Hlawyers, nth_error_app2 by (rewrite length_map; lia).
      rewrite length_map. replace (length before + 1 + k - length before)%nat with (Datatypes.S k) by lia.
      exact Hk. }
    specialize (Hat _ _ Hk'). apply nth_error_In in Hat. rewrite <- Heq in Hat.
    apply (Hmax _ Hat).
Qed.

(** X14, witness: two equal lawyers; the one listed first is selected. *)
Lemma findBestLawyer_first_of_best_witness :
  exists before after,
    [Sample.busySalesLawyer; Sample.noCalendar None ["Sales Contract"] [] "second@acme.corp"]
    = (before ++ Sample.busySalesLawyer :: after)%list /\
    40 = scoreLawyerMatch (scoringReads (steady 0) (length before)) Sample.busySalesLawyer
                          Sample.salesOnly None /\
    (forall k l, nth_error before k = Some l ->
                 scoreLawyerMatch (scoringReads (steady 0) k) l Sample.salesOnly None < 40) /\
    (forall k l, nth_error after k = Some l ->
                 scoreLawyerMatch (scoringReads (steady 0) (length before + 1 + k)) l
                                  Sample.salesOnly None <= 40).
Proof.
  apply (findBestLawyer_first_of_best
           [Sample.busySalesLawyer;
            Sample.noCalendar None ["Sales Contract"] [] "second@acme.corp"]
           (steady 0) Sample.salesOnly None
           {| lawyer := Sample.busySalesLawyer; score := 40;
              reason := "specializes in Sales Contract" |}).
  vm_compute. reflexivity.
Defined.

(* ===================================================================== *)
(** * Further results: the intent classifier and the document branch      *)
(* ===================================================================== *)

Lemma find_app_none {A} (p : A -> bool) (l1 l2 : list A) :
  Forall (fun x => p x = false) l1 -> List.find p (l1 ++ l2) = List.find p l2.
Proof.
  induction 1 as [|x l1 Hx _ IH]; simpl; [reflexivity|]. rewrite Hx. exact IH.
Qed.

Lemma lastUserMessage_last (before after : list Message) (m : Message) :
  isUser m = true -> Forall (fun x => isUser x = false) after ->
  lastUserMessage (before ++ m :: after) = Some m.
Proof.
  intros Hm Ha. unfold lastUserMessage.
  rewrite rev_app_distr. simpl. rewrite <- app_assoc. simpl.
  rewrite find_app_none.
  - simpl. rewrite Hm. reflexivity.
  - apply List.Forall_forall. intros x Hx. apply in_rev in Hx.
    rewrite List.Forall_forall in Ha. apply Ha, Hx.
Qed.

(** X15.  Classification looks at the latest user message only: the turns
    before it, and the assistant or system turns after it, never change the
    answer (nor the exception thrown). *)
Theorem isDocumentQuestion_latest_user_message
        (classifier : string -> result (option string))
        (before after : list Message) (m : Message) :
  isUser m = true -> Forall (fun x => isUser x = false) after ->
  isDocumentQuestion classifier (before ++ m :: after) = isDocumentQuestion classifier [m].
Proof.
  intros Hm Ha. unfold isDocumentQuestion.
  rewrite (lastUserMessage_last before after m Hm Ha).
  change [m] with ([] ++ m :: [])%list.
  rewrite (lastUserMessage_last [] [] m Hm (List.Forall_nil _)). reflexivity.
Qed.

(** X15, witness: an earlier policy question does not make a later request
    a document question. *)
Lemma isDocumentQuestion_latest_user_message_witness :
  isDocumentQuestion Sample.saysRequest
    ([mkMessage user "What is the NDA policy?"; mkMessage assistant "It is ..."]
       ++ mkMessage user "I need an NDA for a vendor" :: [mkMessage assistant "Sure!"])
  = isDocumentQuestion Sample.saysRequest [mkMessage user "I need an NDA for a vendor"].
Proof.
  apply (isDocumentQuestion_latest_user_message Sample.saysRequest
           [mkMessage user "What is the NDA policy?"; mkMessage assistant "It is ..."]
           [mkMessage assistant "Sure!"] (mkMessage user "I need an NDA for a vendor")).
  - reflexivity.
  - repeat constructor.
Defined.

Lemma generateRAGResponse_nonempty (search : result (list RelevantChunk))
      (completion : result (option string)) (answer : string) :
  generateRAGResponse search completion = Ok answer -> answer <> "".
Proof.
  unfold generateRAGResponse. destruct search as [chunks|e]; simpl; [|discriminate].
  destruct (length chunks =? 0)%nat; [intros [= <-]; discriminate|].
  destruct completion as [content|e]; simpl; [|discriminate].
  intros [= <-]. unfold orElse. destruct content as [c|]; simpl; [|discriminate].
  destruct (String.eqb_spec (trim c) "") as [|N]; [discriminate | exact N].
Qed.

(** X16.  A decision that carries a document answer is always the document
    decision: the answer is not empty (an empty or blank completion is
    replaced by the apology, an empty search by the "couldn't find" reply),
    nothing is assigned, the run is complete, no field is missing, and the
    extracted information is the fixed pair of the document branch. *)
Theorem document_decision_shape
        (w : World) (messages : list Message) (trace : option string)
        (employee : option Employee) (d : TriageState) (answer : string) :
  fst (processConversation w messages trace employee) = Ok d ->
  documentResponse d = Some answer ->
  answer <> "" /\ assignedTo d = None /\ isComplete d = true /\ missingFields d = [] /\
  extractedInfo d = {[ "requestType" := IVstr "Document Question";
                       "isDocumentQuestion" := IVbool true ]} /\
  isDocumentQuestion (classify w) messages = Ok true.
Proof.
  unfold processConversation.
  destruct (processConversationBody w messages employee) as [d'|e] eqn:B; simpl;
    [intros [= <-] | discriminate].
  unfold processConversationBody in B.
  destruct (isDocumentQuestion (classify w) messages) as [[|]|e]; simpl in B;
    [| | discriminate].
  - unfold documentPath in B.
    destruct (searchDocuments w _) as [found|] eqn:S; [|discriminate].
    rewrite bind_Ok in B.
    destruct (generateRAGResponse (Ok found) (ragCompletion w)) as [a|] eqn:G;
      [|discriminate].
    rewrite bind_Ok in B. injection B as <-. simpl. intros [= <-].
    repeat split. apply (generateRAGResponse_nonempty _ _ _ G).
  - destruct (gatherInfo_total w employee) as [info Hi]. rewrite Hi in B. simpl in B.
    destruct (route_decisions w info employee d' B) as [[b ->]|[[r ->]|[rs ->]]];
      discriminate.
Qed.

(** X16, witness: a policy question answered with a blank completion. *)
Lemma document_decision_shape_witness :
  exists d,
    fst (processConversation
           (mkWorld Sample.saysRequest (fun _ => Ok [mkChunk "d1" "NDA Policy" "..." "policy"])
                    (Ok (Some "  ")) (Ok NoContent) Sample.termTable (Ok []) (Ok []) (steady 0))
           [mkMessage user "What is the NDA policy?"] None None) = Ok d /\
    ragErrorReply <> "" /\ assignedTo d = None /\ isComplete d = true /\
    missingFields d = [] /\
    extractedInfo d = {[ "requestType" := IVstr "Document Question";
                         "isDocumentQuestion" := IVbool true ]} /\
    isDocumentQuestion Sample.saysRequest [mkMessage user "What is the NDA policy?"] = Ok true.
Proof.
  eexists. split; [vm_compute; reflexivity|].
  apply (document_decision_shape
           (mkWorld Sample.saysRequest (fun _ => Ok [mkChunk "d1" "NDA Policy" "..." "policy"])
                    (Ok (Some "  ")) (Ok NoContent) Sample.termTable (Ok []) (Ok []) (steady 0))
           [mkMessage user "What is the NDA policy?"] None None);
    vm_compute; reflexivity.
Defined.

(* ===================================================================== *)
(** * Further results: employee context and the agent's reply             *)
(* ===================================================================== *)

(** One guarded assignment [if (!o[key]) o[key] = val] on a decision's
    information. *)
Lemma guarded_assign_lookup (m : gmap string InfoValue) (key f : string) (val : InfoValue) :
  (if negb (truthyValue (m !! key)) then <[key:=val]> m else m) !! f =
  if decide (f = key)
  then (if truthyValue (m !! key) then m !! key else Some val)
  else m !! f.
Proof.
  destruct (decide (f = key)) as [->|Hne].
  - destruct (truthyValue (m !! key)); cbn [negb]; [reflexivity | apply lookup_insert_eq].
  - destruct (negb (truthyValue (m !! key)));
      [apply lookup_insert_ne; congruence | reflexivity].
Qed.

(** The properties of the enrichment of a known employee, one by one. *)
Lemma enrichWithEmployeeContext_lookup
      (getEmployeeProfile : string -> result (option Employee))
      (info : gmap string InfoValue) (mail : string) (emp : Employee) :
  mail <> "" -> getEmployeeProfile mail = Ok (Some emp) ->
  exists enriched,
    enrichWithEmployeeContext getEmployeeProfile info (Some mail) = Ok enriched /\
    forall f,
      enriched !! f =
      if decide (f = "_employeeRole") then IVstr <$> role emp
      else if decide (f = "_employeeName")
           then Some (IVstr (firstName emp +:+ " " +:+ lastName emp))
      else if decide (f = "_employeeId") then Some (IVstr (empId emp))
      else if decide (f = "location")
           then (if truthyValue (info !! "location") then info !! "location"
                 else Some (IVstr (location emp)))
      else if decide (f = "department")
           then (if truthyValue (info !! "department") then info !! "department"
                 else Some (IVstr (department emp)))
      else info !! f.
Proof.
  intros Hmail Hemp. unfold enrichWithEmployeeContext.
  replace (truthy (Some mail)) with true
    by (simpl; destruct (String.eqb_spec mail ""); [contradiction | reflexivity]).
  cbn [negb]. rewrite Hemp, bind_Ok. eexists. split; [reflexivity|]. intros f.
  destruct (decide (f = "_employeeRole")) as [->|Hr].
  { destruct (role emp); simpl; [apply lookup_insert_eq | apply lookup_delete_eq]. }
  assert (Hrole : forall m : gmap string InfoValue,
             match role emp with
             | Some r => <["_employeeRole" := IVstr r]> m
             | None => delete "_employeeRole" m
             end !! f = m !! f).
  { intros m. destruct (role emp);
      [apply lookup_insert_ne | apply lookup_delete_ne]; congruence. }
  rewrite Hrole.
  destruct (decide (f = "_employeeName")) as [->|Hn]; [apply lookup_insert_eq|].
  rewrite lookup_insert_ne by congruence.
  destruct (decide (f = "_employeeId")) as [->|Hi]; [apply lookup_insert_eq|].
  rewrite lookup_insert_ne by congruence.
  rewrite guarded_assign_lookup.
  destruct (decide (f = "location")) as [->|Hl].
  - rewrite (guarded_assign_lookup info "department" "location").
    destruct (decide ("location" = "department")); [discriminate | reflexivity].
  - rewrite guarded_assign_lookup. reflexivity.
Qed.

(** X17.  Enrichment with a known employee never overwrites a department
    or location that the decision already states, fills the ones it lacks
    from the profile, sets the three internal fields from the profile and
    leaves every other property as it was. *)
Theorem enrichWithEmployeeContext_effect
        (getEmployeeProfile : string -> result (option Employee))
        (info : gmap string InfoValue) (mail : string) (emp : Employee) :
  mail <> "" -> getEmployeeProfile mail = Ok (Some emp) ->
  exists enriched,
    enrichWithEmployeeContext getEmployeeProfile info (Some mail) = Ok enriched /\
    enriched !! "department" =
      (if truthyValue (info !! "department") then info !! "department"
       else Some (IVstr (department emp))) /\
    enriched !! "location" =
      (if truthyValue (info !! "location") then info !! "location"
       else Some (IVstr (location emp))) /\
    enriched !! "_employeeId" = Some (IVstr (empId emp)) /\
    enriched !! "_employeeName" = Some (IVstr (firstName emp +:+ " " +:+ lastName emp)) /\
    enriched !! "_employeeRole" = IVstr <$> role emp /\
    forall f,
      ~ In f ["department"; "location"; "_employeeId"; "_employeeName"; "_employeeRole"] ->
      enriched !! f = info !! f.
Proof.
  intros Hmail Hemp.
  destruct (enrichWithEmployeeContext_lookup getEmployeeProfile info mail emp Hmail Hemp)
    as (enriched & Heq & Hlook).
  exists enriched. split; [exact Heq|].
  repeat split; try (rewrite Hlook; reflexivity).
  intros f Hf. rewrite Hlook. simpl in Hf.
  repeat (destruct (decide _) as [->|?]; [exfalso; apply Hf; auto 10|]). reflexivity.
Qed.

(** X17, witness: a decision that states its own location. *)
Lemma enrichWithEmployeeContext_effect_witness :
  exists enriched,
    enrichWithEmployeeContext (fun _ => Ok (Some Sample.vipEmployee))
      {[ "location" := IVstr "Australia" ]} (Some "alice.johnson@acme.corp") = Ok enriched /\
    enriched !! "department" =
      (if truthyValue (({[ "location" := IVstr "Australia" ]} : gmap string InfoValue)
                         !! "department")
       then ({[ "location" := IVstr "Australia" ]} : gmap string InfoValue) !! "department"
       else Some (IVstr (department Sample.vipEmployee))) /\
    enriched !! "location" =
      (if truthyValue (({[ "location" := IVstr "Australia" ]} : gmap string InfoValue)
                         !! "location")
       then ({[ "location" := IVstr "Australia" ]} : gmap string InfoValue) !! "location"
       else Some (IVstr (location Sample.vipEmployee))) /\
    enriched !! "_employeeId" = Some (IVstr (empId Sample.vipEmployee)) /\
    enriched !! "_employeeName" =
      Some (IVstr (firstName Sample.vipEmployee +:+ " " +:+ lastName Sample.vipEmployee)) /\
    enriched !! "_employeeRole" = IVstr <$> role Sample.vipEmployee /\
    forall f,
      ~ In f ["department"; "location"; "_employeeId"; "_employeeName"; "_employeeRole"] ->
      enriched !! f = ({[ "location" := IVstr "Australia" ]} : gmap string InfoValue) !! f.
Proof.
  apply (enrichWithEmployeeContext_effect (fun _ => Ok (Some Sample.vipEmployee))
           {[ "location" := IVstr "Australia" ]} "alice.johnson@acme.corp" Sample.vipEmployee).
  - discriminate.
  - reflexivity.
Defined.

(** Enrichment never creates or changes a property named [_employeeData]. *)
Lemma enrichWithEmployeeContext_employeeData
      (getEmployeeProfile : string -> result (option Employee))
      (info enriched : gmap string InfoValue) (employeeEmail : option string) :
  enrichWithEmployeeContext getEmployeeProfile info employeeEmail = Ok enriched ->
  enriched !! "_employeeData" = info !! "_employeeData".
Proof.
  destruct employeeEmail as [mail|]; [|intros [= <-]; reflexivity].
  destruct (String.eqb_spec mail "") as [->|Hne]; [intros [= <-]; reflexivity|].
  destruct (getEmployeeProfile mail) as [[emp|]|e] eqn:G.
  - destruct (enrichWithEmployeeContext_lookup getEmployeeProfile info mail emp Hne G)
      as (enriched' & -> & Hlook).
    intros [= <-]. rewrite Hlook. reflexivity.
  - unfold enrichWithEmployeeContext. rewrite G.
    destruct (negb (truthy (Some mail))); intros [= <-]; reflexivity.
  - unfold enrichWithEmployeeContext. rewrite G.
    destruct (negb (truthy (Some mail))); [intros [= <-]; reflexivity | discriminate].
Qed.

(** X18.  The employee context that the chat route hands to
    [processConversation] is never defined: it is read from the property
    [_employeeData] of an enrichment that never sets that property, whoever
    the employee is. *)
Theorem chatEmployeeData_never_defined
        (getEmployeeProfile : string -> result (option Employee))
        (employeeEmail : option string) :
  match chatEmployeeData getEmployeeProfile employeeEmail with
  | Ok (Some _) => False
  | Ok None => True
  | Throw e => exists mail, employeeEmail = Some mail /\ getEmployeeProfile mail = Throw e
  end.
Proof.
  unfold chatEmployeeData. destruct (truthy employeeEmail) eqn:T; [|exact I].
  destruct (enrichWithEmployeeContext getEmployeeProfile ∅ employeeEmail)
    as [enriched|e] eqn:E.
  - rewrite bind_Ok.
    rewrite (enrichWithEmployeeContext_employeeData _ _ _ _ E), lookup_empty. exact I.
  - simpl. destruct employeeEmail as [mail|]; [|discriminate]. exists mail.
    split; [reflexivity|]. unfold enrichWithEmployeeContext in E. rewrite T in E.
    cbn [negb] in E. destruct (getEmployeeProfile mail) as [[emp|]|e']; try discriminate.
    simpl in E. congruence.
Qed.

Lemma append_nonempty_l (s t : string) : s <> "" -> s +:+ t <> "".
Proof. destruct s; [congruence | discriminate]. Qed.

Lemma orElse_nonempty (x : option string) (fallback : string) :
  fallback <> "" -> orElse x fallback <> "".
Proof.
  intros Hf. unfold orElse. destruct x as [s|]; [|exact Hf].
  destruct (String.eqb_spec s ""); [exact Hf | assumption].
Qed.

Lemma generateAgentResponse_nonempty
      (stringify : gmap string InfoValue -> string)
      (complete : string -> result (option string)) (st : TriageState) :
  exists reply, generateAgentResponse stringify complete st = Ok reply /\ reply <> "".
Proof.
  unfold generateAgentResponse.
  assert (Hask : exists reply,
             tryCatch
               (content ← complete (contextPrompt stringify st);
                Ok (orElse (trim <$> content) replyRephrase))
               (fun _ => Ok replyTryAgain) = Ok reply /\ reply <> "").
  { destruct (complete (contextPrompt stringify st)) as [content|e]; simpl.
    - eexists. split; [reflexivity|]. apply orElse_nonempty. discriminate.
    - eexists. split; [reflexivity | discriminate]. }
  destruct (documentResponse st) as [answer|]; [|exact Hask].
  simpl. destruct (String.eqb_spec answer "") as [->|Hne]; simpl; [exact Hask|].
  eexists. split; [reflexivity | apply append_nonempty_l, Hne].
Qed.

(** X19.  The agent's reply is always produced and never empty: a failed
    completion gives the "try again" apology and an empty or blank one the
    "rephrase" apology.  A decision with a non-empty document answer is
    answered with that answer followed by its list of sources, whatever the
    completion service would do. *)
Theorem generateAgentResponse_reply
        (stringify : gmap string InfoValue -> string)
        (complete : string -> result (option string)) (st : TriageState) :
  exists reply,
    generateAgentResponse stringify complete st = Ok reply /\
    reply <> "" /\
    match documentResponse st with
    | Some answer =>
        if String.eqb answer "" then True
        else reply = answer +:+ sourcesSuffix (documentSources st)
    | None =>
        match complete (contextPrompt stringify st) with
        | Throw _ => reply = replyTryAgain
        | Ok content => reply = orElse (trim <$> content) replyRephrase
        end
    end.
Proof.
  unfold generateAgentResponse.
  assert (Hask : exists reply,
             tryCatch
               (content ← complete (contextPrompt stringify st);
                Ok (orElse (trim <$> content) replyRephrase))
               (fun _ => Ok replyTryAgain) = Ok reply /\
             reply <> "" /\
             match complete (contextPrompt stringify st) with
             | Throw _ => reply = replyTryAgain
             | Ok content => reply = orElse (trim <$> content) replyRephrase
             end).
  { destruct (complete (contextPrompt stringify st)) as [content|e]; simpl.
    - eexists. split; [reflexivity|]. split; [|reflexivity].
      apply orElse_nonempty. discriminate.
    - eexists. split; [reflexivity|]. split; [discriminate | reflexivity]. }
  destruct (documentResponse st) as [answer|]; [|exact Hask].
  simpl. destruct (String.eqb_spec answer "") as [->|Hne]; simpl.
  - destruct Hask as (reply & -> & Hr & _). eauto.
  - eexists. split; [reflexivity|]. split; [apply append_nonempty_l, Hne | reflexivity].
Qed.

(* ===================================================================== *)
(** * Further results: the trace storage                                  *)
(* ===================================================================== *)

Lemma updateFound_length (tid : string) (f : ChatTrace -> ChatTrace) (l : list ChatTrace) :
  length (updateFound tid f l) = length l.
Proof.
  induction l as [|t l IH]; simpl; [reflexivity|].
  destruct (String.eqb (ctTraceId t) tid); simpl; [reflexivity | rewrite IH; reflexivity].
Qed.

Lemma withTrace_length (tid : string) (f : ChatTrace -> ChatTrace) (st : Store) :
  length (traceStorage (withTrace tid f st)) = length (traceStorage st).
Proof. apply updateFound_length. Qed.

Lemma pop_cons_length {A} (x : A) (l : list A) : length (pop (x :: l)) = length l.
Proof.
  unfold pop. revert x. induction l as [|y l IH]; intros x; [reflexivity|].
  change (removelast (x :: y :: l)) with (x :: removelast (y :: l)).
  cbn [length]. f_equal. apply IH.
Qed.

Lemma logAIResponse_storage (tid : string) (d : AiData) (text : option string) (st : Store) :
  length (traceStorage (logAIResponse tid d text st)) = length (traceStorage st).
Proof.
  unfold logAIResponse. destruct (getTrace tid st); [|reflexivity].
  destruct text as [t|]; [destruct (truthy (Some t))|]; simpl; apply updateFound_length.
Qed.

Lemma runTraceOp_bounded (st : Store) (op : TraceOp) :
  (length (traceStorage st) <= MAX_TRACES)%nat ->
  (length (traceStorage (runTraceOp st op)) <= MAX_TRACES)%nat.
Proof.
  intros H. destruct op; cbn [runTraceOp];
    try (unfold logEmployeeContext, logMessages, logExtractedInfo, logFuzzyMatches,
           logRuleMatching, logTraceError, completeChatTrace;
         rewrite withTrace_length; exact H).
  - unfold startChatTrace, allocate. cbn [snd traceStorage heap nextAddress].
    destruct (MAX_TRACES <? _)%nat eqn:E; cbn [snd traceStorage].
    + rewrite pop_cons_length. exact H.
    + apply Nat.ltb_ge in E. exact E.
  - rewrite logAIResponse_storage. exact H.
  - simpl. unfold MAX_TRACES. lia.
Qed.

Lemma reachable_bounded (ops : list TraceOp) (st : Store) :
  (length (traceStorage st) <= MAX_TRACES)%nat ->
  (length (traceStorage (fold_left runTraceOp ops st)) <= MAX_TRACES)%nat.
Proof.
  revert st. induction ops as [|op ops IH]; intros st H; simpl; [exact H|].
  apply IH, runTraceOp_bounded, H.
Qed.

(** The trace just started is at the head of the storage. *)
Lemma startChatTrace_head (newId : string) (mail : option string) (st : Store) :
  exists rest,
    traceStorage (snd (startChatTrace newId mail st)) =
    mkChatTrace newId mail None (nextAddress st) None None None None None (Some 0) :: rest /\
    heap (snd (startChatTrace newId mail st)) = <[nextAddress st := []]> (heap st) /\
    nextAddress (snd (startChatTrace newId mail st)) = S (nextAddress st).
Proof.
  unfold startChatTrace, allocate. cbn [snd traceStorage heap nextAddress].
  destruct (MAX_TRACES <? _)%nat eqn:E; cbn [snd traceStorage heap nextAddress].
  - destruct (traceStorage st) as [|t l]; [discriminate|].
    exists (removelast (t :: l)). repeat split.
  - eauto.
Qed.

Lemma sliceFromStart_prefix {A} (l : list A) (finish : option Z) :
  exists rest, l = (sliceFromStart l finish ++ rest)%list.
Proof.
  unfold sliceFromStart. destruct finish as [z|]; [|exists l; reflexivity].
  destruct (z <? 0); eexists; symmetry; apply firstn_skipn.
Qed.

Lemma sliceFromStart_length {A} (l : list A) (finish : option Z) :
  Z.of_nat (length (sliceFromStart l finish)) =
  match finish with
  | None => 0
  | Some z => if z <? 0 then Z.max (Z.of_nat (length l) + z) 0
              else Z.min z (Z.of_nat (length l))
  end.
Proof.
  unfold sliceFromStart. destruct finish as [z|]; [|reflexivity].
  destruct (z <? 0) eqn:E; rewrite length_firstn; [apply Z.ltb_lt in E | apply Z.ltb_ge in E]; lia.
Qed.

(** X20.  The trace storage is a bounded, newest-first buffer: whatever
    operations ran since the start of the process it holds at most 100
    traces; a trace just started is the first of the storage and the one
    found under its identifier (even when an older trace has the same
    identifier), with no error and an empty message array of its own; and
    the recent traces are the first traces of the storage, at most 100: at
    most as many as asked for when the limit is a number that is not
    negative, none when it is not a number, and all but the last [-limit]
    when it is negative. *)
Theorem traceStorage_bounded_newest_first
        (ops : list TraceOp) (newId : string) (mail : option string) (limit : option Z) :
  let st := fold_left runTraceOp ops emptyStore in
  let st' := snd (startChatTrace newId mail st) in
  (length (traceStorage st) <= 100)%nat /\
  (length (traceStorage st') <= 100)%nat /\
  (length (getRecentTraces limit st) <= 100)%nat /\
  (exists older, traceStorage st = (getRecentTraces limit st ++ older)%list) /\
  match limit with
  | None => getRecentTraces limit st = []
  | Some z =>
      if z <? 0
      then Z.of_nat (length (getRecentTraces limit st))
           = Z.max (Z.of_nat (length (traceStorage st)) + z) 0
      else Z.of_nat (length (getRecentTraces limit st)) <= z
  end /\
  exists t,
    hd_error (traceStorage st') = Some t /\ getTrace newId st' = Some t /\
    ctTraceId t = newId /\ ctErrors t = None /\ readArray (ctMessages t) st' = [].
Proof.
  cbv zeta.
  assert (H : (length (traceStorage (fold_left runTraceOp ops emptyStore)) <= MAX_TRACES)%nat).
  { apply reachable_bounded. simpl. unfold MAX_TRACES. lia. }
  set (st := fold_left runTraceOp ops emptyStore) in *.
  pose proof (sliceFromStart_length (traceStorage st) limit) as Hlen.
  split; [exact H|]. split; [|split; [|split; [|split]]].
  - apply (runTraceOp_bounded _ (OpStart newId mail) H).
  - unfold getRecentTraces. unfold MAX_TRACES in H.
    destruct limit as [z|]; [destruct (z <? 0) eqn:E|];
      [apply Z.ltb_lt in E | apply Z.ltb_ge in E |]; lia.
  - apply sliceFromStart_prefix.
  - unfold getRecentTraces. destruct limit as [z|]; [|reflexivity].
    destruct (z <? 0); lia.
  - destruct (startChatTrace_head newId mail st) as (rest & Hs & Hh & _).
    exists (mkChatTrace newId mail None (nextAddress st)
                        None None None None None (Some 0)).
    unfold getTrace, readArray. rewrite Hs, Hh. cbn [hd_error List.find ctTraceId ctMessages].
    rewrite String.eqb_refl, lookup_insert_eq. repeat split.
Qed.

(** A limit of -1, as the query [?limit=-1] gives, returns all but the
    oldest trace. *)
Example getRecentTraces_negative_limit (a b c : ChatTrace) (h : Heap) (n : nat) :
  getRecentTraces (Some (-1)) (mkStore [a; b; c] h n) = [a; b].
Proof. reflexivity. Qed.

Lemma updateFound_none (tid : string) (f : ChatTrace -> ChatTrace) (l : list ChatTrace) :
  List.find (fun t => String.eqb (ctTraceId t) tid) l = None -> updateFound tid f l = l.
Proof.
  induction l as [|t l IH]; simpl; [reflexivity|].
  destruct (String.eqb (ctTraceId t) tid); [discriminate|]. intros H. rewrite IH; auto.
Qed.

Lemma updateFound_found (tid : string) (f : ChatTrace -> ChatTrace) (l : list ChatTrace)
      (t : ChatTrace) :
  List.find (fun t => String.eqb (ctTraceId t) tid) l = Some t ->
  ctTraceId (f t) = ctTraceId t ->
  List.find (fun t => String.eqb (ctTraceId t) tid) (updateFound tid f l) = Some (f t) /\
  map ctTraceId (updateFound tid f l) = map ctTraceId l /\
  exists before after,
    l = (before ++ t :: after)%list /\
    updateFound tid f l = (before ++ f t :: after)%list.
Proof.
  intros Hfind Hid. induction l as [|x l IH]; simpl in *; [discriminate|].
  destruct (String.eqb (ctTraceId x) tid) eqn:E.
  - injection Hfind as ->. simpl. rewrite Hid, E.
    split; [reflexivity|]. split; [f_equal; exact Hid|].
    exists [], l. split; reflexivity.
  - destruct (IH Hfind) as (H1 & H2 & before & after & -> & H3).
    simpl. rewrite E. split; [exact H1|]. split; [f_equal; exact H2|].
    exists (x :: before), after. split; [reflexivity|]. simpl. f_equal. exact H3.
Qed.

(** X21.  Logging an error under an identifier that the storage no longer
    holds changes nothing.  Under an identifier it holds, the entry (stage
    and message of the exception) is appended to the errors of the first
    trace with that identifier; every other trace, the order of the traces
    and the message arrays stay as they were. *)
Theorem logTraceError_effect (tid stage : string) (e : JsError) (st : Store) :
  match getTrace tid st with
  | None => logTraceError tid stage e st = st
  | Some t =>
      exists t' before after,
        getTrace tid (logTraceError tid stage e st) = Some t' /\
        ctErrors t' = Some (match ctErrors t with Some errs => errs | None => [] end
                            ++ [mkErrorEntry stage (messageOf e)])%list /\
        ctMessages t' = ctMessages t /\ ctTraceId t' = ctTraceId t /\
        traceStorage st = (before ++ t :: after)%list /\
        traceStorage (logTraceError tid stage e st) = (before ++ t' :: after)%list /\
        heap (logTraceError tid stage e st) = heap st
  end.
Proof.
  unfold getTrace, logTraceError, withTrace.
  destruct (List.find _ (traceStorage st)) as [t|] eqn:F.
  - match goal with |- context [updateFound tid ?g _] => set (f := g) end.
    destruct (updateFound_found tid f (traceStorage st) t F eq_refl)
      as (H1 & _ & before & after & H3 & H4).
    exists (f t), before, after. cbn [traceStorage heap]. rewrite H1.
    split; [reflexivity|]. repeat split; [exact H3 | exact H4].
  - rewrite updateFound_none by exact F. destruct st; reflexivity.
Qed.

(* ===================================================================== *)
(** * Further results: the chat route                                     *)
(* ===================================================================== *)

Lemma whenTraced_keepsMessages (trace : option string) (op : string -> TraceOp) :
  (forall tid, keepsMessages (op tid) = true) ->
  Forall (fun o => keepsMessages o = true) (whenTraced trace op).
Proof.
  intros H. unfold whenTraced. destruct trace as [tid|]; [|constructor].
  destruct (truthy (Some tid)); repeat constructor. apply H.
Qed.

(** The orchestrator writes fuzzy matches, rule matching and errors only. *)
Lemma processConversationTraced_writes (w : World) (messages : list Message)
      (trace : option string) (employee : option Employee) :
  Forall (fun o => keepsMessages o = true)
         (snd (processConversationTraced w messages trace employee)).
Proof.
  assert (Hbody : Forall (fun o => keepsMessages o = true)
                         (snd (processConversationTracedBody w messages trace employee))).
  { unfold processConversationTracedBody.
    destruct (isDocumentQuestion _ _) as [[|]|]; simpl; try constructor.
    destruct (extractInformationFromConversation _) as [raw|]; simpl; try constructor.
    destruct (fuzzyMatchExtractedInfo _ _) as [[info fm]|]; simpl; try constructor.
    assert (H1 : Forall (fun o => keepsMessages o = true)
                        match fm with
                        | Some matches => whenTraced trace (fun tid => OpFuzzyMatches tid matches)
                        | None => []
                        end).
    { destruct fm; [apply whenTraced_keepsMessages; reflexivity | constructor]. }
    destruct (findBestLawyer _ _ _ _) as [best|]; simpl; [|exact H1].
    destruct (qualifying best) as [b|]; simpl.
    { apply Forall_app. split; [exact H1 | apply whenTraced_keepsMessages; reflexivity]. }
    destruct (findMatchingRule _ _) as [matching|]; simpl; [|exact H1].
    destruct (truthy trace).
    - destruct (getAllRules w) as [allRules|]; simpl; [|exact H1].
      assert (H2 : Forall (fun o => keepsMessages o = true)
                          (match fm with
                           | Some matches =>
                               whenTraced trace (fun tid => OpFuzzyMatches tid matches)
                           | None => []
                           end ++
                           whenTraced trace
                             (fun tid => OpRuleMatching tid (staticRuleLog allRules matching)))).
      { apply Forall_app. split; [exact H1 | apply whenTraced_keepsMessages; reflexivity]. }
      destruct matching; simpl; [exact H2|].
      destruct (getMissingFields _ _); simpl; exact H2.
    - simpl. destruct matching; simpl; [exact H1|].
      destruct (getMissingFields _ _); simpl; exact H1. }
  unfold processConversationTraced.
  destruct (processConversationTracedBody w messages trace employee) as [[d|e] writes];
    simpl in *; [exact Hbody|].
  apply Forall_app. split; [exact Hbody | apply whenTraced_keepsMessages; reflexivity].
Qed.

Lemma withTrace_holdsArray (tid tid' : string) (msgs : nat) (content : list Message)
      (f : ChatTrace -> ChatTrace) (st : Store) :
  (forall t, ctTraceId (f t) = ctTraceId t /\ ctMessages (f t) = ctMessages t) ->
  holdsArray tid msgs content st -> holdsArray tid msgs content (withTrace tid' f st).
Proof.
  intros Hf [(t & rest & Hs & Hid & Hm) Hh]. split; [|exact Hh].
  unfold withTrace. cbn [traceStorage]. rewrite Hs. simpl.
  destruct (String.eqb (ctTraceId t) tid').
  - exists (f t), rest. destruct (Hf t) as [-> ->]. auto.
  - eauto.
Qed.

Lemma runTraceOp_holdsArray (tid : string) (msgs : nat) (content : list Message)
      (op : TraceOp) (st : Store) :
  keepsMessages op = true ->
  holdsArray tid msgs content st -> holdsArray tid msgs content (runTraceOp st op).
Proof.
  destruct op; simpl; try discriminate; intros _ H;
    apply withTrace_holdsArray; try exact H; intros t; try (split; reflexivity).
  destruct (ctTotalDurationMs t); split; reflexivity.
Qed.

Lemma fold_runTraceOp_holdsArray (tid : string) (msgs : nat) (content : list Message)
      (ops : list TraceOp) (st : Store) :
  Forall (fun o => keepsMessages o = true) ops ->
  holdsArray tid msgs content st ->
  holdsArray tid msgs content (fold_left runTraceOp ops st).
Proof.
  intros Hops. revert st. induction Hops as [|op ops Hop _ IH]; intros st H; simpl; [exact H|].
  apply IH, runTraceOp_holdsArray; assumption.
Qed.

(** The push of [logAIResponse] reaches the array that the first trace
    holds. *)
Lemma logAIResponse_pushes (tid : string) (msgs : nat) (content : list Message)
      (d : AiData) (text : string) (st : Store) :
  text <> "" -> holdsArray tid msgs content st ->
  holdsArray tid msgs (content ++ [mkMessage assistant text]) (logAIResponse tid d (Some text) st).
Proof.
  intros Htext [(t & rest & Hs & Hid & Hm) Hh]. unfold logAIResponse, getTrace.
  rewrite Hs. cbn [List.find]. rewrite Hid, String.eqb_refl.
  replace (truthy (Some text)) with true
    by (simpl; destruct (String.eqb_spec text ""); [contradiction | reflexivity]).
  unfold withTrace. cbn [traceStorage heap nextAddress]. rewrite Hs. cbn [updateFound].
  rewrite Hid, String.eqb_refl, Hm. split.
  - eexists _, rest. cbn [traceStorage]. split; [reflexivity|]. split; reflexivity.
  - cbn [heap]. rewrite lookup_alter_eq, Hh. reflexivity.
Qed.

Lemma startChatTrace_pair (newId : string) (mail : option string) (st : Store) :
  startChatTrace newId mail st = (newId, snd (startChatTrace newId mail st)).
Proof.
  unfold startChatTrace, allocate. reflexivity.
Qed.

Lemma holdsArray_readArray (tid : string) (msgs : nat) (content : list Message) (st : Store) :
  holdsArray tid msgs content st -> readArray msgs st = content.
Proof.
  intros [_ H]. unfold readArray. rewrite H. reflexivity.
Qed.

Lemma holdsArray_getTrace (tid : string) (msgs : nat) (content : list Message) (st : Store) :
  holdsArray tid msgs content st ->
  exists t, getTrace tid st = Some t /\ ctMessages t = msgs.
Proof.
  intros [(t & rest & Hs & Hid & Hm) _]. exists t. split; [|exact Hm].
  unfold getTrace. rewrite Hs. cbn [List.find]. rewrite Hid, String.eqb_refl. reflexivity.
Qed.

(** After the route has started its trace and logged the messages, the
    trace holds the array of the request. *)
Lemma chatRoute_trace_holds_request (basicMessages : list Message) (mail : option string)
      (newId : string) (st : Store) :
  holdsArray newId (nextAddress st) basicMessages
    (logMessages newId (nextAddress st)
       (snd (startChatTrace newId mail (snd (allocate basicMessages st))))).
Proof.
  destruct (startChatTrace_head newId mail (snd (allocate basicMessages st)))
    as (rest & Hs & Hh & _).
  split.
  - unfold logMessages, withTrace. cbn [traceStorage]. rewrite Hs. cbn [updateFound ctTraceId].
    rewrite String.eqb_refl. eexists _, rest. split; [reflexivity|]. split; reflexivity.
  - unfold logMessages, withTrace. cbn [heap]. rewrite Hh. cbn [allocate snd heap nextAddress].
    rewrite lookup_insert_ne by lia. apply lookup_insert_eq.
Qed.

(** X22.  A chat request answered with status 200 (run without another
    request interleaving) streams a non-empty reply; because the trace holds
    the very array of the request and [logAIResponse] pushes the reply onto
    it, the conversation handed to [saveConversation] ends with the reply
    twice, [trackChat] counts one message more than the request had, and the
    trace holds the request followed by the reply once. *)
Theorem chatRoute_saves_reply_twice (c : ChatCollaborators) (w : World)
        (basicMessages : list Message) (employeeEmail : option string)
        (newTraceId : string) (elapsed : Z) (aiData : AiData) (st : Store) :
  httpStatus (chatRoute c w basicMessages employeeEmail newTraceId elapsed aiData st) = 200 ->
  exists text conversation metric t,
    text <> "" /\
    streamed (chatRoute c w basicMessages employeeEmail newTraceId elapsed aiData st)
      = Some text /\
    saved (chatRoute c w basicMessages employeeEmail newTraceId elapsed aiData st)
      = Some conversation /\
    savedMessages conversation
      = (basicMessages ++ [mkMessage assistant text; mkMessage assistant text])%list /\
    tracked (chatRoute c w basicMessages employeeEmail newTraceId elapsed aiData st)
      = Some metric /\
    messageCount metric = S (length basicMessages) /\
    getTrace newTraceId
      (storeAfter (chatRoute c w basicMessages employeeEmail newTraceId elapsed aiData st))
      = Some t /\
    readArray (ctMessages t)
      (storeAfter (chatRoute c w basicMessages employeeEmail newTraceId elapsed aiData st))
      = (basicMessages ++ [mkMessage assistant text])%list.
Proof.
  unfold chatRoute. destruct (hasApiKey c); cbn [negb]; [|discriminate].
  rewrite (surjective_pairing (allocate basicMessages st)).
  change (fst (allocate basicMessages st)) with (nextAddress st).
  rewrite startChatTrace_pair.
  pose proof (chatRoute_trace_holds_request basicMessages employeeEmail newTraceId st) as H0.
  set (st3 := logMessages newTraceId (nextAddress st) _) in *.
  destruct (_ =? 0)%nat; [discriminate|].
  destruct (chatEmployeeData _ _) as [employeeData|e]; [|discriminate].
  assert (H0' : holdsArray newTraceId (nextAddress st) basicMessages
                  (if truthyValue employeeData
                   then logEmployeeContext newTraceId
                          (mkEmployeeLike None None None None None None) st3
                   else st3)).
  { destruct (truthyValue employeeData); [|exact H0].
    apply (runTraceOp_holdsArray _ _ _ (OpEmployeeContext newTraceId _));
      [reflexivity | exact H0]. }
  set (st3' := if truthyValue employeeData then _ else st3) in *.
  rewrite (holdsArray_readArray _ _ _ _ H0').
  pose proof (processConversationTraced_writes w basicMessages (Some newTraceId)
                (employeeOfData employeeData)) as Hw.
  destruct (processConversationTraced _ _ _ _) as [outcome writes]. cbn [snd] in Hw.
  pose proof (fold_runTraceOp_holdsArray _ _ _ _ _ Hw H0') as H1.
  set (st4 := fold_left runTraceOp writes st3') in *.
  destruct outcome as [triageState|e]; [|discriminate].
  destruct (if truthy employeeEmail then _ else _) as [enrichedInfo|e]; [|discriminate].
  match goal with
  | |- context [generateAgentResponse ?s ?k ?ts] =>
      destruct (generateAgentResponse_nonempty s k ts) as (text & -> & Htext)
  end.
  intros _.
  assert (H2 : holdsArray newTraceId (nextAddress st) basicMessages
                 (logExtractedInfo newTraceId enrichedInfo st4)).
  { apply (runTraceOp_holdsArray _ _ _ (OpExtractedInfo newTraceId enrichedInfo));
      [reflexivity | exact H1]. }
  pose proof (logAIResponse_pushes _ _ _ aiData text _ Htext H2) as H3.
  assert (H4 : holdsArray newTraceId (nextAddress st)
                 (basicMessages ++ [mkMessage assistant text])
                 (completeChatTrace newTraceId elapsed
                    (logAIResponse newTraceId aiData (Some text)
                       (logExtractedInfo newTraceId enrichedInfo st4)))).
  { apply (runTraceOp_holdsArray _ _ _ (OpComplete newTraceId elapsed));
      [reflexivity | exact H3]. }
  destruct (holdsArray_getTrace _ _ _ _ H4) as (t & Ht & Hm).
  rewrite (holdsArray_readArray _ _ _ _ H4).
  eexists text, _, _, t. cbn [streamed saved tracked storeAfter savedMessages messageCount].
  split; [exact Htext|]. split; [reflexivity|]. split; [reflexivity|].
  split; [rewrite <- app_assoc; reflexivity|]. split; [reflexivity|].
  split; [rewrite length_app; simpl; lia|]. split; [exact Ht|].
  rewrite Hm. exact (holdsArray_readArray _ _ _ _ H4).
Qed.

Lemma chatRoute_saves_reply_twice_witness :
  httpStatus (chatRoute (mkChatCollaborators true (fun _ => Ok None) (fun _ => "{}")
                                             (fun _ => Ok (Some "Which contract is it?")))
                        Sample.emptyWorld Sample.needAnNda None "trace_1" 40
                        (mkAiData "gpt-4o-mini" 12) emptyStore) = 200 /\
  exists text conversation,
    saved (chatRoute (mkChatCollaborators true (fun _ => Ok None) (fun _ => "{}")
                                          (fun _ => Ok (Some "Which contract is it?")))
                     Sample.emptyWorld Sample.needAnNda None "trace_1" 40
                     (mkAiData "gpt-4o-mini" 12) emptyStore) = Some conversation /\
    savedMessages conversation
      = (Sample.needAnNda ++ [mkMessage assistant text; mkMessage assistant text])%list.
Proof.
  split; [vm_compute; reflexivity|].
  destruct (chatRoute_saves_reply_twice
              (mkChatCollaborators true (fun _ => Ok None) (fun _ => "{}")
                                   (fun _ => Ok (Some "Which contract is it?")))
              Sample.emptyWorld Sample.needAnNda None "trace_1" 40
              (mkAiData "gpt-4o-mini" 12) emptyStore)
    as (text & conversation & metric & t & _ & _ & Hs & Hm & _);
    [vm_compute; reflexivity|].
  exists text, conversation. split; [exact Hs | exact Hm].
Defined.

Lemma processConversationTracedBody_outcome (w : World) (messages : list Message)
      (trace : option string) (employee : option Employee) :
  fst (processConversationTracedBody w messages trace employee)
  = processConversationBody w messages employee.
Proof.
  unfold processConversationTracedBody, processConversationBody, gatherInfo, route, ruleFallback.
  destruct (isDocumentQuestion _ _) as [[|]|]; simpl; try reflexivity.
  destruct (extractInformationFromConversation _) as [raw|]; simpl; try reflexivity.
  destruct (fuzzyMatchExtractedInfo _ _) as [[info fm]|]; simpl; try reflexivity.
  destruct (findBestLawyer _ _ _ _) as [best|]; simpl; try reflexivity.
  destruct (qualifying best) as [b|]; simpl; try reflexivity.
  unfold findMatchingRule.
  destruct (getAllRules w) as [allRules|]; simpl; try reflexivity.
  destruct (findMatchingRuleIn allRules info) as [[rule|]|]; simpl; try reflexivity;
    destruct (truthy trace); simpl; try reflexivity;
    destruct (getMissingFields (Ok allRules) info); reflexivity.
Qed.

(** X23.  Observability is transparent: [processConversation] returns or
    throws the same with a trace identifier as without one (for a rule
    store that answers every read of the request alike), and what it
    writes to the trace never replaces or extends a message array. *)
Theorem tracing_keeps_outcome (w : World) (messages : list Message)
        (trace : option string) (employee : option Employee) :
  fst (processConversationTraced w messages trace employee)
  = fst (processConversationTraced w messages None employee) /\
  fst (processConversationTraced w messages trace employee)
  = fst (processConversation w messages trace employee) /\
  Forall (fun o => keepsMessages o = true)
         (snd (processConversationTraced w messages trace employee)) /\
  snd (processConversationTraced w messages None employee) = [].
Proof.
  assert (Hfst : forall t,
             fst (processConversationTraced w messages t employee)
             = processConversationBody w messages employee).
  { intros t. rewrite <- (processConversationTracedBody_outcome w messages t employee).
    unfold processConversationTraced.
    destruct (processConversationTracedBody w messages t employee) as [[d|e] writes];
      reflexivity. }
  split; [rewrite !Hfst; reflexivity|].
  split.
  { rewrite Hfst. unfold processConversation.
    destruct (processConversationBody w messages employee); reflexivity. }
  split; [apply processConversationTraced_writes|].
  unfold processConversationTraced, processConversationTracedBody.
  destruct (isDocumentQuestion _ _) as [[|]|]; simpl; try reflexivity.
  - destruct (documentPath w messages); reflexivity.
  - destruct (extractInformationFromConversation _) as [raw|]; simpl; try reflexivity.
    destruct (fuzzyMatchExtractedInfo _ _) as [[info fm]|]; simpl; try reflexivity.
    destruct fm; simpl;
      (destruct (findBestLawyer _ _ _ _) as [best|]; simpl; try reflexivity);
      (destruct (qualifying best) as [b|]; simpl; try reflexivity);
      (destruct (findMatchingRule _ _) as [[r|]|]; simpl; try reflexivity);
      destruct (getMissingFields _ _); reflexivity.
Qed.

(* ===================================================================== *)
(** * Further results: the metrics collector                              *)
(* ===================================================================== *)

Lemma tl_skipn {A} (k : nat) (l : list A) : tl (skipn k l) = skipn (S k) l.
Proof.
  revert l. induction k as [|k IH]; intros [|x l]; try reflexivity.
  rewrite !skipn_cons. destruct l; [destruct k; reflexivity|]. apply IH.
Qed.

(** Pushing to the bounded buffer keeps the most recent entries. *)
Lemma pushBounded_lastN {A} (acc : list A) (x : A) :
  pushBounded (lastN MAX_METRICS acc) x = lastN MAX_METRICS (acc ++ [x]).
Proof.
  unfold pushBounded, lastN. generalize MAX_METRICS as n. intros n.
  rewrite !length_app, length_skipn. cbn [length].
  destruct (Nat.ltb_spec n (length acc - (length acc - n) + 1)%nat) as [H|H].
  - replace (length acc + 1 - n)%nat with (S (length acc - n)) by lia.
    rewrite <- tl_skipn. f_equal.
    rewrite skipn_app. replace (length acc - n - length acc)%nat with 0%nat by lia.
    reflexivity.
  - replace (length acc + 1 - n)%nat with 0%nat by lia.
    replace (length acc - n)%nat with 0%nat by lia. reflexivity.
Qed.

Lemma pushBounded_length {A} (buffer : list A) (x : A) (total : nat) :
  length buffer = Nat.min MAX_METRICS total ->
  length (pushBounded buffer x) = Nat.min MAX_METRICS (S total).
Proof.
  unfold pushBounded. generalize MAX_METRICS as n. intros n H.
  rewrite length_app. cbn [length].
  destruct (Nat.ltb_spec n (length buffer + 1)%nat) as [L|L].
  - destruct buffer as [|y buffer]; cbn [tl length app] in *; [lia|].
    rewrite length_app. cbn [length]. lia.
  - rewrite length_app. cbn [length]. lia.
Qed.

(** What every run of calls preserves, relative to the chats tracked since
    the last reset. *)
Lemma runMetricsCall_invariant (calls : list MetricsCall) (c : MetricsCollector)
      (acc : list (Stamped ChatMetric)) :
  chatMetrics c = lastN MAX_METRICS acc ->
  totalChats c = length acc ->
  totalAssignments c = length (List.filter (fun m => assigned (stamped m)) acc) ->
  length (requestMetrics c) = Nat.min MAX_METRICS (totalRequests c) ->
  length (errorMetrics c) = Nat.min MAX_METRICS (totalErrors c) ->
  chatMetrics (fold_left runMetricsCall calls c)
    = lastN MAX_METRICS (chatsSinceReset calls acc) /\
  totalChats (fold_left runMetricsCall calls c) = length (chatsSinceReset calls acc) /\
  totalAssignments (fold_left runMetricsCall calls c)
    = length (List.filter (fun m => assigned (stamped m)) (chatsSinceReset calls acc)) /\
  length (requestMetrics (fold_left runMetricsCall calls c))
    = Nat.min MAX_METRICS (totalRequests (fold_left runMetricsCall calls c)) /\
  length (errorMetrics (fold_left runMetricsCall calls c))
    = Nat.min MAX_METRICS (totalErrors (fold_left runMetricsCall calls c)).
Proof.
  revert c acc. induction calls as [|call calls IH]; intros c acc Hb Hc Ha Hr He.
  { cbn [fold_left chatsSinceReset]. auto. }
  cbn [fold_left]. destruct call as [m clock|m clock|m clock|]; cbn [chatsSinceReset runMetricsCall].
  - apply IH; cbn [trackRequest chatMetrics totalChats totalAssignments requestMetrics
                   errorMetrics totalRequests totalErrors]; auto.
    apply pushBounded_length, Hr.
  - apply IH; cbn [trackChat chatMetrics totalChats totalAssignments requestMetrics
                   errorMetrics totalRequests totalErrors]; auto.
    + rewrite Hb. apply pushBounded_lastN.
    + rewrite length_app, Hc. cbn [length]. lia.
    + rewrite List.filter_app, length_app, <- Ha. cbn [List.filter stamped].
      destruct (assigned m); cbn [length]; lia.
  - apply IH; cbn [trackError chatMetrics totalChats totalAssignments requestMetrics
                   errorMetrics totalRequests totalErrors]; auto.
    apply pushBounded_length, He.
  - apply IH; reflexivity.
Qed.

(** X24.  After any run of calls to a new collector: the chat buffer holds
    the most recent 1000 chats tracked since the last reset, oldest first;
    [totalChats] counts every chat tracked since then and
    [totalAssignments] those among them that were assigned, whether or not
    they are still in the buffer; and the request and error buffers hold
    as many entries as were tracked since then, up to 1000. *)
Theorem metrics_buffers_and_counters (calls : list MetricsCall) :
  chatMetrics (fold_left runMetricsCall calls newCollector)
    = lastN MAX_METRICS (chatsSinceReset calls []) /\
  totalChats (fold_left runMetricsCall calls newCollector)
    = length (chatsSinceReset calls []) /\
  totalAssignments (fold_left runMetricsCall calls newCollector)
    = length (List.filter (fun m => assigned (stamped m)) (chatsSinceReset calls [])) /\
  length (requestMetrics (fold_left runMetricsCall calls newCollector))
    = Nat.min MAX_METRICS (totalRequests (fold_left runMetricsCall calls newCollector)) /\
  length (errorMetrics (fold_left runMetricsCall calls newCollector))
    = Nat.min MAX_METRICS (totalErrors (fold_left runMetricsCall calls newCollector)).
Proof.
  apply runMetricsCall_invariant; reflexivity.
Qed.

(* ===================================================================== *)
(** * Further results: the email webhook                                  *)
(* ===================================================================== *)

Ltac webhook_fields :=
  cbn [EmailWebhook.routeId EmailWebhook.rowId EmailWebhook.success EmailWebhook.routedTo
       EmailWebhook.confidence EmailWebhook.error EmailWebhook.rowStatus
       EmailWebhook.rowRoutedTo EmailWebhook.rowErrorMessage EmailWebhook.convAssignedTo
       EmailWebhook.convResolved EmailWebhook.markRouted EmailWebhook.markFailed].

(** X25.  With a database that accepts the new route row and every update
    of it, the webhook returns a result for the row it created, and the
    row ends as "routed" or "failed", never "pending".  It reports success
    exactly when the triage returned a complete decision with a non-empty
    assignee, the enrichment did not throw and the conversation was
    inserted; then the result and the row name that assignee, and one
    unresolved conversation assigned to them is inserted.  Otherwise
    nothing is inserted and the result carries an error text. *)
Theorem emailWebhook_success_iff_routed
        (w : World) (getEmployeeProfile : string -> result (option Employee))
        (db : EmailWebhook.MailStore) (email : EmailWebhook.IncomingEmail) (id : string) :
  EmailWebhook.emailRouteCreate db = Ok id ->
  (forall n, EmailWebhook.emailRouteUpdate db n = Ok tt) ->
  exists res row convs,
    EmailWebhook.processIncomingEmail w getEmployeeProfile db email
      = (Ok res, Some row, convs) /\
    EmailWebhook.routeId res = id /\ EmailWebhook.rowId row = id /\
    (EmailWebhook.success res = true <->
     exists d a info,
       fst (processConversation w (EmailWebhook.messagesOf email) None None) = Ok d /\
       isComplete d = true /\ assignedTo d = Some a /\ a <> "" /\
       enrichWithEmployeeContext getEmployeeProfile (extractedInfo d)
                                 (Some (EmailWebhook.from email)) = Ok info /\
       EmailWebhook.conversationCreate db = Ok tt) /\
    (EmailWebhook.success res = true ->
     EmailWebhook.rowStatus row = EmailWebhook.routed /\
     exists a c,
       EmailWebhook.routedTo res = Some a /\ EmailWebhook.rowRoutedTo row = Some a /\
       EmailWebhook.confidence res = Some 1%Q /\ EmailWebhook.error res = None /\
       convs = [c] /\ EmailWebhook.convAssignedTo c = Some a /\
       EmailWebhook.convResolved c = false) /\
    (EmailWebhook.success res = false ->
     EmailWebhook.rowStatus row = EmailWebhook.failed /\
     EmailWebhook.routedTo res = None /\ convs = [] /\
     exists msg, EmailWebhook.error res = Some msg /\
                 (EmailWebhook.rowErrorMessage row = Some msg \/
                  exists d, fst (processConversation w (EmailWebhook.messagesOf email)
                                                     None None) = Ok d /\
                            msg = "Unable to route automatically. Missing: " +:+
                                  join ", " (missingFields d))).
Proof.
  intros Hc Hu. unfold EmailWebhook.processIncomingEmail, EmailWebhook.attempt. rewrite Hc.
  destruct (fst (processConversation w (EmailWebhook.messagesOf email) None None))
    as [d|e] eqn:Hd.
  2:{ rewrite Hu. eexists _, _, _. split; [reflexivity|].
      webhook_fields. split; [reflexivity|]. split; [reflexivity|].
      split; [split; [discriminate | intros (d & a & info & H & _); discriminate]|].
      split; [discriminate|]. intros _. split; [reflexivity|]. split; [reflexivity|].
      split; [reflexivity|]. eexists. split; [reflexivity|]. left. reflexivity. }
  destruct (enrichWithEmployeeContext getEmployeeProfile (extractedInfo d)
                                      (Some (EmailWebhook.from email))) as [info|e] eqn:He.
  2:{ rewrite Hu. eexists _, _, _. split; [reflexivity|].
      webhook_fields. split; [reflexivity|]. split; [reflexivity|].
      split; [split; [discriminate |
                      intros (d' & a & info & H & _ & _ & _ & H' & _); congruence]|].
      split; [discriminate|]. intros _. split; [reflexivity|]. split; [reflexivity|].
      split; [reflexivity|]. eexists. split; [reflexivity|]. left. reflexivity. }
  destruct (isComplete d && truthy (assignedTo d)) eqn:Hq.
  - apply andb_prop in Hq. destruct Hq as [Hcomplete Ha].
    destruct (assignedTo d) as [a|] eqn:Hassigned; [|discriminate].
    assert (Hne : a <> "").
    { simpl in Ha. destruct (String.eqb_spec a ""); [discriminate | assumption]. }
    rewrite (Hu 0%nat).
    destruct (EmailWebhook.conversationCreate db) as [[]|e] eqn:Hconv.
    + eexists _, _, _. split; [reflexivity|].
      webhook_fields. split; [reflexivity|]. split; [reflexivity|].
      split; [split; [intros _; exists d, a, info; auto 10 | reflexivity]|].
      split; [|discriminate]. intros _. split; [reflexivity|].
      eexists a, _. split; [reflexivity|]. split; [reflexivity|]. split; [reflexivity|].
      split; [reflexivity|]. split; [reflexivity|]. split; reflexivity.
    + rewrite Hu. eexists _, _, _. split; [reflexivity|].
      webhook_fields. split; [reflexivity|]. split; [reflexivity|].
      split; [split; [discriminate | intros (d' & a' & info' & _ & _ & _ & _ & _ & H);
                                     discriminate]|].
      split; [discriminate|]. intros _. split; [reflexivity|]. split; [reflexivity|].
      split; [reflexivity|]. eexists. split; [reflexivity|]. left. reflexivity.
  - rewrite (Hu 0%nat). eexists _, _, _. split; [reflexivity|].
    webhook_fields. split; [reflexivity|]. split; [reflexivity|].
    split.
    { split; [discriminate|]. intros (d' & a & info' & H1 & H2 & H3 & H4 & _).
      assert (d' = d) by congruence. subst d'. rewrite H2, H3 in Hq. simpl in Hq.
      destruct (String.eqb_spec a ""); [contradiction | discriminate]. }
    split; [discriminate|]. intros _. split; [reflexivity|]. split; [reflexivity|].
    split; [reflexivity|]. eexists. split; [reflexivity|]. right. exists d. auto.
Qed.

Lemma emailWebhook_success_iff_routed_witness :
  exists res row convs,
    EmailWebhook.processIncomingEmail
      Sample.rosterDown (fun _ => Ok None)
      (EmailWebhook.mkMailStore (Ok "route_1") (fun _ => Ok tt) (fun _ => 0) (Ok tt))
      (EmailWebhook.mkIncomingEmail "ann@acme.corp" "Sales contract" "Please review" None)
    = (Ok res, Some row, convs) /\
    EmailWebhook.routeId res = "route_1" /\
    EmailWebhook.success res = true /\
    EmailWebhook.rowStatus row = EmailWebhook.routed.
Proof.
  destruct (emailWebhook_success_iff_routed
              Sample.rosterDown (fun _ => Ok None)
              (EmailWebhook.mkMailStore (Ok "route_1") (fun _ => Ok tt) (fun _ => 0) (Ok tt))
              (EmailWebhook.mkIncomingEmail "ann@acme.corp" "Sales contract" "Please review"
                                            None)
              "route_1" eq_refl (fun _ => eq_refl))
    as (res & row & convs & H & Hid & _ & _ & Hs & _).
  exists res, row, convs. split; [exact H|]. split; [exact Hid|].
  assert (Hsuccess : EmailWebhook.success res = true).
  { vm_compute in H. injection H as <- _ _. reflexivity. }
  split; [exact Hsuccess | exact (proj1 (Hs Hsuccess))].
Defined.

Lemma documentPath_Ok (w : World) (messages : list Message) (d : TriageState) :
  documentPath w messages = Ok d ->
  isComplete d = true /\ assignedTo d = None /\ missingFields d = [] /\
  exists answer, documentResponse d = Some answer.
Proof.
  unfold documentPath. intros B.
  destruct (searchDocuments w _) as [found|] eqn:S; [|discriminate].
  rewrite bind_Ok in B.
  destruct (generateRAGResponse (Ok found) (ragCompletion w)) as [a|] eqn:G; [|discriminate].
  rewrite bind_Ok in B. injection B as <-. simpl. eauto.
Qed.

(** X26.  An email that the classifier takes for a document question is
    never routed: with a database that accepts the row and its updates, the
    webhook reports failure, marks the row "failed" and inserts no
    conversation; when the document answer was produced and the enrichment
    did not throw, the reported error is the text for missing information
    with nothing after it, and the answer is in neither result nor row. *)
Theorem emailWebhook_document_question_fails
        (w : World) (getEmployeeProfile : string -> result (option Employee))
        (db : EmailWebhook.MailStore) (email : EmailWebhook.IncomingEmail) (id : string) :
  EmailWebhook.emailRouteCreate db = Ok id ->
  (forall n, EmailWebhook.emailRouteUpdate db n = Ok tt) ->
  isDocumentQuestion (classify w) (EmailWebhook.messagesOf email) = Ok true ->
  exists res row,
    EmailWebhook.processIncomingEmail w getEmployeeProfile db email
      = (Ok res, Some row, []) /\
    EmailWebhook.success res = false /\ EmailWebhook.routedTo res = None /\
    EmailWebhook.rowStatus row = EmailWebhook.failed /\
    EmailWebhook.rowRoutedTo row = None /\
    forall d info,
      fst (processConversation w (EmailWebhook.messagesOf email) None None) = Ok d ->
      enrichWithEmployeeContext getEmployeeProfile (extractedInfo d)
                                (Some (EmailWebhook.from email)) = Ok info ->
      (exists answer, documentResponse d = Some answer) /\
      EmailWebhook.error res = Some "Unable to route automatically. Missing: " /\
      EmailWebhook.rowErrorMessage row
        = Some "Unable to route automatically. Missing information: ".
Proof.
  intros Hc Hu Hdoc.
  unfold EmailWebhook.processIncomingEmail, EmailWebhook.attempt. rewrite Hc.
  assert (Hbody : fst (processConversation w (EmailWebhook.messagesOf email) None None)
                  = documentPath w (EmailWebhook.messagesOf email)).
  { unfold processConversation, processConversationBody. rewrite Hdoc. cbn [mbind result_bind].
    destruct (documentPath w (EmailWebhook.messagesOf email)); reflexivity. }
  rewrite Hbody.
  destruct (documentPath w (EmailWebhook.messagesOf email)) as [d|e] eqn:Hd.
  2:{ rewrite Hu. eexists _, _. split; [reflexivity|]. webhook_fields.
      repeat (split; [reflexivity|]). intros d info H. discriminate. }
  destruct (documentPath_Ok _ _ _ Hd) as (Hcomplete & Hassigned & Hmissing & answer & Hanswer).
  destruct (enrichWithEmployeeContext getEmployeeProfile (extractedInfo d)
                                      (Some (EmailWebhook.from email))) as [info|e] eqn:He.
  2:{ rewrite Hu. eexists _, _. split; [reflexivity|]. webhook_fields.
      repeat (split; [reflexivity|]). intros d' info [= <-] H. congruence. }
  rewrite Hcomplete, Hassigned, Hmissing. cbn [truthy andb]. rewrite (Hu 0%nat).
  eexists _, _. split; [reflexivity|]. webhook_fields.
  repeat (split; [reflexivity|]). intros d' info' [= <-] _.
  split; [eauto|]. split; reflexivity.
Qed.

Lemma emailWebhook_document_question_fails_witness :
  exists res row,
    EmailWebhook.processIncomingEmail
      (mkWorld Sample.saysRequest (fun _ => Ok [mkChunk "d1" "NDA Policy" "..." "policy"])
               (Ok (Some "An NDA lasts two years.")) (Ok NoContent) Sample.termTable
               (Ok []) (Ok []) (steady 0))
      (fun _ => Ok None)
      (EmailWebhook.mkMailStore (Ok "route_2") (fun _ => Ok tt) (fun _ => 0) (Ok tt))
      (EmailWebhook.mkIncomingEmail "ann@acme.corp" "What is the NDA policy?" "Thanks" None)
    = (Ok res, Some row, []) /\
    EmailWebhook.success res = false /\
    EmailWebhook.rowStatus row = EmailWebhook.failed.
Proof.
  destruct (emailWebhook_document_question_fails
              (mkWorld Sample.saysRequest
                       (fun _ => Ok [mkChunk "d1" "NDA Policy" "..." "policy"])
                       (Ok (Some "An NDA lasts two years.")) (Ok NoContent) Sample.termTable
                       (Ok []) (Ok []) (steady 0))
              (fun _ => Ok None)
              (EmailWebhook.mkMailStore (Ok "route_2") (fun _ => Ok tt) (fun _ => 0) (Ok tt))
              (EmailWebhook.mkIncomingEmail "ann@acme.corp" "What is the NDA policy?" "Thanks"
                                            None)
              "route_2" eq_refl (fun _ => eq_refl))
    as (res & row & H & Hs & _ & Hr & _); [vm_compute; reflexivity|].
  exists res, row. split; [exact H|]. split; [exact Hs | exact Hr].
Defined.

(* ===================================================================== *)
(** * Further results: cutting a text into chunks                         *)
(* ===================================================================== *)

Lemma length_append (a b : string) :
  String.length (a +:+ b) = (String.length a + String.length b)%nat.
Proof.
  induction a as [|c a IH]; simpl; [reflexivity | rewrite IH; reflexivity].
Qed.

Lemma length_trimStart (s : string) : (String.length (trimStart s) <= String.length s)%nat.
Proof.
  induction s as [|c s IH]; simpl; [lia|]. destruct (isWhitespace c); simpl; lia.
Qed.

Lemma length_trimEnd (s : string) : (String.length (trimEnd s) <= String.length s)%nat.
Proof.
  induction s as [|c s IH]; simpl; [lia|].
  destruct (trimEnd s); [destruct (isWhitespace c)|]; simpl in *; lia.
Qed.

Lemma length_trim (s : string) : (String.length (trim s) <= String.length s)%nat.
Proof.
  unfold trim. pose proof (length_trimEnd (trimStart s)). pose proof (length_trimStart s). lia.
Qed.

(** The loop over the words keeps every chunk and the chunk being built
    within the size, when no word exceeds it. *)
Lemma addWord_within (maxChunkSize : nat) (words : list string)
      (chunks : list string) (wordChunk : string) :
  Forall (fun wd => (String.length wd <= maxChunkSize)%nat) words ->
  Forall (fun c => (String.length c <= maxChunkSize)%nat) chunks ->
  (String.length wordChunk <= maxChunkSize)%nat ->
  Forall (fun c => (String.length c <= maxChunkSize)%nat)
         (fst (fold_left (addWord maxChunkSize) words (chunks, wordChunk))) /\
  (String.length (snd (fold_left (addWord maxChunkSize) words (chunks, wordChunk)))
   <= maxChunkSize)%nat.
Proof.
  intros Hw. revert chunks wordChunk.
  induction Hw as [|word words Hword _ IH]; intros chunks wordChunk Hc Hk;
    cbn [fold_left]; [auto|].
  assert (Hstep :
            Forall (fun c => (String.length c <= maxChunkSize)%nat)
                   (fst (addWord maxChunkSize (chunks, wordChunk) word)) /\
            (String.length (snd (addWord maxChunkSize (chunks, wordChunk) word))
             <= maxChunkSize)%nat).
  { unfold addWord.
    destruct (Nat.ltb_spec maxChunkSize (String.length wordChunk + String.length word + 1));
      cbn [fst snd].
    - split; [|exact Hword]. apply Forall_app. split; [exact Hc|].
      constructor; [|constructor]. pose proof (length_trim wordChunk). lia.
    - split; [exact Hc|]. rewrite !length_append.
      destruct (0 <? String.length wordChunk)%nat; simpl; lia. }
  destruct (addWord maxChunkSize (chunks, wordChunk) word) as [chunks' wordChunk'].
  apply IH; apply Hstep.
Qed.

Lemma addSentence_within (maxChunkSize : nat) (sentence : string)
      (chunks : list string) (currentChunk : string) :
  Forall (fun wd => (String.length wd <= maxChunkSize)%nat) (splitOn " " (trim sentence) "") ->
  Forall (fun c => (String.length c <= maxChunkSize)%nat) chunks ->
  (String.length currentChunk <= maxChunkSize)%nat ->
  Forall (fun c => (String.length c <= maxChunkSize)%nat)
         (fst (addSentence maxChunkSize (chunks, currentChunk) sentence)) /\
  (String.length (snd (addSentence maxChunkSize (chunks, currentChunk) sentence))
   <= maxChunkSize)%nat.
Proof.
  intros Hw Hc Hk. unfold addSentence.
  destruct (Nat.ltb_spec maxChunkSize
              (String.length currentChunk + String.length (trim sentence) + 2)).
  - assert (Hpushed :
              Forall (fun c => (String.length c <= maxChunkSize)%nat)
                     (fst (if (0 <? String.length currentChunk)%nat
                           then ((chunks ++ [trim currentChunk])%list, "")
                           else (chunks, currentChunk))) /\
              (String.length (snd (if (0 <? String.length currentChunk)%nat
                                   then ((chunks ++ [trim currentChunk])%list, "")
                                   else (chunks, currentChunk))) <= maxChunkSize)%nat).
    { destruct (0 <? String.length currentChunk)%nat; cbn [fst snd]; [|auto].
      split; [|simpl; lia]. apply Forall_app. split; [exact Hc|].
      constructor; [|constructor]. pose proof (length_trim currentChunk). lia. }
    destruct (if (0 <? String.length currentChunk)%nat then _ else _) as [chunks' current'].
    cbn [fst snd] in Hpushed. destruct Hpushed as [Hc' Hk'].
    destruct (Nat.ltb_spec maxChunkSize (String.length (trim sentence))).
    + assert (Hempty : (String.length "" <= maxChunkSize)%nat) by (simpl; lia).
      pose proof (addWord_within maxChunkSize _ chunks' "" Hw Hc' Hempty) as [H1 H2].
      destruct (fold_left (addWord maxChunkSize) _ _) as [chunks'' wordChunk].
      cbn [fst snd] in *. split; [exact H1|].
      destruct (0 <? String.length wordChunk)%nat; assumption.
    + cbn [fst snd]. auto.
  - cbn [fst snd]. split; [exact Hc|]. rewrite !length_append.
    destruct (0 <? String.length currentChunk)%nat; simpl; lia.
Qed.

Lemma addSentence_fold_within (maxChunkSize : nat) (sentences : list string)
      (chunks : list string) (currentChunk : string) :
  Forall (fun s => Forall (fun wd => (String.length wd <= maxChunkSize)%nat)
                          (splitOn " " (trim s) "")) sentences ->
  Forall (fun c => (String.length c <= maxChunkSize)%nat) chunks ->
  (String.length currentChunk <= maxChunkSize)%nat ->
  Forall (fun c => (String.length c <= maxChunkSize)%nat)
         (fst (fold_left (addSentence maxChunkSize) sentences (chunks, currentChunk))) /\
  (String.length (snd (fold_left (addSentence maxChunkSize) sentences (chunks, currentChunk)))
   <= maxChunkSize)%nat.
Proof.
  intros Hs. revert chunks currentChunk.
  induction Hs as [|s sentences Hw _ IH]; intros chunks currentChunk Hc Hk;
    cbn [fold_left]; [auto|].
  pose proof (addSentence_within maxChunkSize s chunks currentChunk Hw Hc Hk) as [H1 H2].
  destruct (addSentence maxChunkSize (chunks, currentChunk) s) as [chunks' current'].
  apply IH; assumption.
Qed.

(** X27.  If no word of a sentence of the text is longer than
    [maxChunkSize], then no chunk is: the size is a bound on every chunk
    that [chunkText] returns. *)
Theorem chunkText_within_size (text : string) (maxChunkSize : nat) :
  Forall (fun s => Forall (fun wd => (String.length wd <= maxChunkSize)%nat)
                          (splitOn " " (trim s) "")) (sentencesOf text) ->
  Forall (fun c => (String.length c <= maxChunkSize)%nat) (chunkText text maxChunkSize).
Proof.
  intros Hs. unfold chunkText.
  assert (H0 : (String.length "" <= maxChunkSize)%nat) by (simpl; lia).
  pose proof (addSentence_fold_within maxChunkSize _ [] "" Hs (List.Forall_nil _) H0) as [H1 H2].
  destruct (fold_left (addSentence maxChunkSize) _ _) as [chunks currentChunk].
  cbn [fst snd] in *. destruct (0 <? String.length currentChunk)%nat; [|exact H1].
  apply Forall_app. split; [exact H1|]. constructor; [|constructor].
  pose proof (length_trim currentChunk). lia.
Qed.

Lemma chunkText_within_size_witness :
  chunkText "Send the NDA to legal. Is it signed? Review the final draft today" 24
  = ["Send the NDA to legal"; "Is it signed"; "Review the final draft"; "today"] /\
  Forall (fun c => (String.length c <= 24)%nat)
         (chunkText "Send the NDA to legal. Is it signed? Review the final draft today" 24).
Proof.
  split; [vm_compute; reflexivity|].
  apply chunkText_within_size. vm_compute. repeat constructor.
Defined.

Lemma addWord_keeps (maxChunkSize : nat) (x : string) (words : list string)
      (chunks : list string) (wordChunk : string) :
  In x chunks -> In x (fst (fold_left (addWord maxChunkSize) words (chunks, wordChunk))).
Proof.
  revert chunks wordChunk. induction words as [|word words IH]; intros chunks wordChunk H;
    cbn [fold_left]; [exact H|].
  unfold addWord at 2.
  destruct (maxChunkSize <? String.length wordChunk + String.length word + 1)%nat;
    apply IH; [apply in_or_app; left|]; exact H.
Qed.

Lemma addSentence_keeps (maxChunkSize : nat) (x : string) (sentences : list string)
      (chunks : list string) (currentChunk : string) :
  In x chunks ->
  In x (fst (fold_left (addSentence maxChunkSize) sentences (chunks, currentChunk))).
Proof.
  revert chunks currentChunk.
  induction sentences as [|s sentences IH]; intros chunks currentChunk H;
    cbn [fold_left]; [exact H|].
  assert (Hstep : In x (fst (addSentence maxChunkSize (chunks, currentChunk) s))).
  { unfold addSentence.
    destruct (maxChunkSize <? String.length currentChunk + String.length (trim s) + 2)%nat;
      [|exact H].
    assert (Hpushed : In x (fst (if (0 <? String.length currentChunk)%nat
                                 then ((chunks ++ [trim currentChunk])%list, "")
                                 else (chunks, currentChunk)))).
    { destruct (0 <? String.length currentChunk)%nat; cbn [fst];
        [apply in_or_app; left|]; exact H. }
    destruct (if (0 <? String.length currentChunk)%nat then _ else _) as [chunks' current'].
    cbn [fst] in Hpushed.
    destruct (maxChunkSize <? String.length (trim s))%nat; [|exact Hpushed].
    pose proof (addWord_keeps maxChunkSize x (splitOn " " (trim s) "") chunks' "" Hpushed)
      as Hw.
    destruct (fold_left (addWord maxChunkSize) _ _) as [chunks'' wordChunk]. exact Hw. }
  destruct (addSentence maxChunkSize (chunks, currentChunk) s) as [chunks' current'].
  apply IH. exact Hstep.
Qed.

(** X28.  A sentence longer than [maxChunkSize] whose first word alone
    reaches the size makes [chunkText] emit an empty chunk: the word loop
    pushes the chunk it is building before it has put a word into it. *)
Theorem chunkText_emits_empty_chunk (text : string) (maxChunkSize : nat)
        (sentence word : string) (rest : list string) :
  In sentence (sentencesOf text) ->
  (maxChunkSize < String.length (trim sentence))%nat ->
  splitOn " " (trim sentence) "" = word :: rest ->
  (maxChunkSize <= String.length word)%nat ->
  In "" (chunkText text maxChunkSize).
Proof.
  intros Hin Hlong Hwords Hword.
  destruct (in_split _ _ Hin) as (before & after & Hsplit).
  unfold chunkText. rewrite Hsplit, fold_left_app. cbn [fold_left].
  destruct (fold_left (addSentence maxChunkSize) before ([], "")) as [chunks currentChunk].
  assert (Hstep : In "" (fst (addSentence maxChunkSize (chunks, currentChunk) sentence))).
  { unfold addSentence.
    destruct (Nat.ltb_spec maxChunkSize
                (String.length currentChunk + String.length (trim sentence) + 2)); [|lia].
    destruct (if (0 <? String.length currentChunk)%nat then _ else _) as [chunks' current'].
    destruct (Nat.ltb_spec maxChunkSize (String.length (trim sentence))); [|lia].
    rewrite Hwords. cbn [fold_left]. unfold addWord at 2. cbn [String.length].
    destruct (Nat.ltb_spec maxChunkSize (0 + String.length word + 1)); [|lia].
    pose proof (addWord_keeps maxChunkSize "" rest (chunks' ++ [trim ""])%list word) as Hk.
    destruct (fold_left (addWord maxChunkSize) rest _) as [chunks'' wordChunk].
    apply Hk. apply in_or_app. right. left. reflexivity. }
  destruct (addSentence maxChunkSize (chunks, currentChunk) sentence) as [chunks' current'].
  pose proof (addSentence_keeps maxChunkSize "" after chunks' current' Hstep) as Hk.
  destruct (fold_left (addSentence maxChunkSize) after _) as [chunks'' current''].
  cbn [fst] in Hk. destruct (0 <? String.length current'')%nat; [|exact Hk].
  apply in_or_app. left. exact Hk.
Qed.

Lemma chunkText_emits_empty_chunk_witness :
  chunkText "confidentiality is required" 15 = [""; "confidentiality"; "is required"] /\
  In "" (chunkText "confidentiality is required" 15).
Proof.
  split; [vm_compute; reflexivity|].
  apply (chunkText_emits_empty_chunk "confidentiality is required" 15
           "confidentiality is required" "confidentiality" ["is"; "required"]).
  - vm_compute. left. reflexivity.
  - vm_compute. lia.
  - vm_compute. reflexivity.
  - vm_compute. lia.
Defined.

(* ===================================================================== *)
(** * Further results: the email processor                                *)
(* ===================================================================== *)

Lemma processConversationTraced_outcome (w : World) (messages : list Message)
      (trace : option string) (employee : option Employee) :
  fst (processConversationTraced w messages trace employee)
  = processConversationBody w messages employee.
Proof.
  rewrite <- (processConversationTracedBody_outcome w messages trace employee).
  unfold processConversationTraced.
  destruct (processConversationTracedBody w messages trace employee) as [[d|e] writes];
    reflexivity.
Qed.

Lemma readArray_logged (tid : string) (l : list Message) (st : Store) :
  readArray (nextAddress st) (logMessages tid (nextAddress st) (snd (allocate l st))) = l.
Proof.
  unfold readArray, logMessages, withTrace, allocate. cbn [snd heap].
  rewrite lookup_insert_eq. reflexivity.
Qed.

Ltac processor_fields :=
  cbn [EmailProcessor.routes EmailProcessor.routeCalls EmailProcessor.conversations
       EmailProcessor.traces EmailProcessor.onTraces EmailProcessor.respTo
       EmailProcessor.respCc EmailProcessor.respSubject EmailProcessor.respReplyTo
       EmailProcessor.logStatus EmailProcessor.logRoutedTo EmailProcessor.logErrorMessage
       EmailProcessor.logProcessedAt EmailProcessor.routeLog
       EmailProcessor.convEmployeeId EmailProcessor.convAssignedTo
       EmailProcessor.convResolved EmailProcessor.convMessages
       EmailProcessor.createErrorResponse EmailProcessor.createUnknownSenderResponse].

(** With a database that accepts every insert, an email is answered and
    leaves one route: what the answer and the route are, by sender and by
    decision. *)
Lemma processIncomingEmail_cases (c : EmailProcessor.Collaborators) (w : World)
      (email : EmailProcessor.IncomingEmail) (fx : EmailProcessor.Effects) :
  EmailProcessor.conversationCreate c = Ok tt ->
  (forall n, EmailProcessor.emailRouteCreate c n = Ok tt) ->
  exists response fx' entry,
    EmailProcessor.processIncomingEmail c w email fx = (Ok response, fx') /\
    EmailProcessor.routes fx' = (EmailProcessor.routes fx ++ [entry])%list /\
    EmailProcessor.respSubject response = "Re: " +:+ EmailProcessor.subject email /\
    match EmailProcessor.getEmployeeProfile c (EmailProcessor.from email) with
    | Throw e =>
        response = EmailProcessor.createErrorResponse email /\
        EmailProcessor.logStatus entry = EmailProcessor.failed /\
        EmailProcessor.logErrorMessage entry = Some (messageOf e) /\
        EmailProcessor.conversations fx' = EmailProcessor.conversations fx
    | Ok None =>
        response = EmailProcessor.createUnknownSenderResponse email /\
        EmailProcessor.logStatus entry = EmailProcessor.failed /\
        EmailProcessor.conversations fx' = EmailProcessor.conversations fx
    | Ok (Some employee) =>
        match processConversationBody
                w [mkMessage user (EmailProcessor.formatEmailAsMessage c email)]
                (Some employee) with
        | Throw e =>
            response = EmailProcessor.createErrorResponse email /\
            EmailProcessor.logStatus entry = EmailProcessor.failed /\
            EmailProcessor.logErrorMessage entry = Some (messageOf e) /\
            EmailProcessor.conversations fx' = EmailProcessor.conversations fx
        | Ok d =>
            EmailProcessor.respTo response = empEmail employee /\
            EmailProcessor.respCc response
              = (if isComplete d && truthy (assignedTo d)
                 then option_map (fun a => [a]) (assignedTo d) else None) /\
            EmailProcessor.respReplyTo response
              = (if isComplete d && truthy (assignedTo d) then assignedTo d else None) /\
            EmailProcessor.logStatus entry = EmailProcessor.routed /\
            EmailProcessor.logRoutedTo entry = assignedTo d /\
            exists saved,
              EmailProcessor.conversations fx'
                = (EmailProcessor.conversations fx ++ [saved])%list /\
              EmailProcessor.convEmployeeId saved = empId employee /\
              EmailProcessor.convAssignedTo saved = assignedTo d /\
              EmailProcessor.convResolved saved = truthy (assignedTo d) /\
              EmailProcessor.convMessages saved
                = [mkMessage user (EmailProcessor.formatEmailAsMessage c email)]
        end
    end.
Proof.
  intros Hconv Hroute. unfold EmailProcessor.processIncomingEmail.
  rewrite startChatTrace_pair. cbv beta iota zeta.
  set (st0 := snd (startChatTrace _ _ _)).
  unfold EmailProcessor.attempt.
  destruct (EmailProcessor.getEmployeeProfile c (EmailProcessor.from email))
    as [[employee|]|e].
  - processor_fields.
    rewrite (surjective_pairing (allocate _ _)).
    match goal with
    | |- context [fst (allocate ?l ?s)] =>
        change (fst (allocate l s)) with (nextAddress s)
    end.
    cbv beta iota zeta. processor_fields. rewrite readArray_logged.
    pose proof (processConversationTraced_outcome
                  w [mkMessage user (EmailProcessor.formatEmailAsMessage c email)]
                  (Some (EmailProcessor.newTraceId c)) (Some employee)) as Hout.
    destruct (processConversationTraced _ _ _ _) as [outcome writes].
    cbn [fst] in Hout. subst outcome.
    destruct (processConversationBody _ _ _) as [d|e].
    + match goal with
      | |- context [generateAgentResponse ?s ?k ?ts] =>
          destruct (generateAgentResponse_nonempty s k ts) as (text & -> & _)
      end.
      rewrite Hconv. unfold EmailProcessor.logEmailRoute. rewrite Hroute.
      eexists _, _, _. split; [reflexivity|]. processor_fields.
      split; [reflexivity|].
      unfold EmailProcessor.createEmailResponse, EmailProcessor.routedTo.
      destruct (isComplete d && truthy (assignedTo d)) eqn:Hq; processor_fields.
      * destruct (assignedTo d) as [a|]; [|rewrite andb_false_r in Hq; discriminate].
        repeat (split; [reflexivity|]). eexists. split; [reflexivity|].
        repeat split.
      * repeat (split; [reflexivity|]). eexists. split; [reflexivity|].
        repeat split.
    + unfold EmailProcessor.logEmailRoute. rewrite Hroute.
      eexists _, _, _. split; [reflexivity|]. processor_fields. repeat split.
  - unfold EmailProcessor.logEmailRoute. rewrite Hroute.
    eexists _, _, _. split; [reflexivity|]. processor_fields. repeat split.
  - unfold EmailProcessor.logEmailRoute. rewrite Hroute.
    eexists _, _, _. split; [reflexivity|]. processor_fields. repeat split.
Qed.

(** X29.  An email from a known sender, with a database that accepts every
    insert, is always answered and leaves exactly one route.  When the
    triage returns a decision, the answer goes to the address of the
    employee's profile, copies and names as reply address the assignee
    exactly when the decision is complete with a non-empty assignee, the
    route is logged as "routed" whether or not someone was assigned, and
    one conversation holding the email as its only message is saved,
    resolved exactly when someone was assigned.  When the triage throws,
    the answer is the error reply, the route is logged as "failed" with
    the message of the exception, and no conversation is saved. *)
Theorem emailProcessor_known_sender (c : EmailProcessor.Collaborators) (w : World)
        (email : EmailProcessor.IncomingEmail) (fx : EmailProcessor.Effects)
        (employee : Employee) :
  EmailProcessor.getEmployeeProfile c (EmailProcessor.from email) = Ok (Some employee) ->
  EmailProcessor.conversationCreate c = Ok tt ->
  (forall n, EmailProcessor.emailRouteCreate c n = Ok tt) ->
  exists response fx' entry,
    EmailProcessor.processIncomingEmail c w email fx = (Ok response, fx') /\
    EmailProcessor.routes fx' = (EmailProcessor.routes fx ++ [entry])%list /\
    EmailProcessor.respSubject response = "Re: " +:+ EmailProcessor.subject email /\
    match processConversationBody
            w [mkMessage user (EmailProcessor.formatEmailAsMessage c email)]
            (Some employee) with
    | Throw e =>
        response = EmailProcessor.createErrorResponse email /\
        EmailProcessor.logStatus entry = EmailProcessor.failed /\
        EmailProcessor.logErrorMessage entry = Some (messageOf e) /\
        EmailProcessor.conversations fx' = EmailProcessor.conversations fx
    | Ok d =>
        EmailProcessor.respTo response = empEmail employee /\
        EmailProcessor.respCc response
          = (if isComplete d && truthy (assignedTo d)
             then option_map (fun a => [a]) (assignedTo d) else None) /\
        EmailProcessor.respReplyTo response
          = (if isComplete d && truthy (assignedTo d) then assignedTo d else None) /\
        EmailProcessor.logStatus entry = EmailProcessor.routed /\
        EmailProcessor.logRoutedTo entry = assignedTo d /\
        exists saved,
          EmailProcessor.conversations fx'
            = (EmailProcessor.conversations fx ++ [saved])%list /\
          EmailProcessor.convEmployeeId saved = empId employee /\
          EmailProcessor.convAssignedTo saved = assignedTo d /\
          EmailProcessor.convResolved saved = truthy (assignedTo d) /\
          EmailProcessor.convMessages saved
            = [mkMessage user (EmailProcessor.formatEmailAsMessage c email)]
    end.
Proof.
  intros Hemployee Hconv Hroute.
  destruct (processIncomingEmail_cases c w email fx Hconv Hroute)
    as (response & fx' & entry & H1 & H2 & H3 & H4).
  rewrite Hemployee in H4. exists response, fx', entry. auto.
Qed.

Lemma emailProcessor_known_sender_witness :
  exists response fx',
    EmailProcessor.processIncomingEmail
      (EmailProcessor.mkCollaborators
         (fun _ => Ok (Some Sample.plainEmployee)) (fun s => s) (fun _ => "{}")
         (fun _ => Ok (Some "Ann will help you.")) (fun _ => Ok tt) (Ok tt)
         "trace_1" 40 (mkAiData "gpt-4o-mini" 12) 0)
      Sample.rosterDown
      (EmailProcessor.mkIncomingEmail "sam@acme.corp" "legal@acme.corp" "Sales contract"
                                      "Please review" None 0 None)
      (EmailProcessor.mkEffects [] 0 [] emptyStore)
    = (Ok response, fx') /\
    EmailProcessor.respSubject response = "Re: Sales contract" /\
    length (EmailProcessor.routes fx') = 1%nat.
Proof.
  destruct (emailProcessor_known_sender
              (EmailProcessor.mkCollaborators
                 (fun _ => Ok (Some Sample.plainEmployee)) (fun s => s) (fun _ => "{}")
                 (fun _ => Ok (Some "Ann will help you.")) (fun _ => Ok tt) (Ok tt)
                 "trace_1" 40 (mkAiData "gpt-4o-mini" 12) 0)
              Sample.rosterDown
              (EmailProcessor.mkIncomingEmail "sam@acme.corp" "legal@acme.corp"
                                              "Sales contract" "Please review" None 0 None)
              (EmailProcessor.mkEffects [] 0 [] emptyStore)
              Sample.plainEmployee eq_refl eq_refl (fun _ => eq_refl))
    as (response & fx' & entry & H1 & H2 & H3 & _).
  exists response, fx'. split; [exact H1|]. split; [exact H3|].
  rewrite H2. reflexivity.
Defined.

(** The loop of the batch, from any counters. *)
Lemma batchStep_fold (requests : list (EmailProcessor.Collaborators * World *
                                       EmailProcessor.IncomingEmail))
      (batch : EmailProcessor.Batch) (fx : EmailProcessor.Effects) :
  Forall (fun request =>
            EmailProcessor.conversationCreate (fst (fst request)) = Ok tt /\
            forall n, EmailProcessor.emailRouteCreate (fst (fst request)) n = Ok tt)
         requests ->
  EmailProcessor.processed (fst (fold_left EmailProcessor.batchStep requests (batch, fx)))
    = (EmailProcessor.processed batch + length requests)%nat /\
  EmailProcessor.batchFailed (fst (fold_left EmailProcessor.batchStep requests (batch, fx)))
    = EmailProcessor.batchFailed batch /\
  map EmailProcessor.respSubject
      (EmailProcessor.responses (fst (fold_left EmailProcessor.batchStep requests (batch, fx))))
    = (map EmailProcessor.respSubject (EmailProcessor.responses batch) ++
       map (fun request => "Re: " +:+ EmailProcessor.subject (snd request)) requests)%list /\
  length (EmailProcessor.routes
            (snd (fold_left EmailProcessor.batchStep requests (batch, fx))))
    = (length (EmailProcessor.routes fx) + length requests)%nat.
Proof.
  intros Hdb. revert batch fx.
  induction Hdb as [|[[c w] email] requests [Hconv Hroute] _ IH]; intros batch fx.
  { cbn [fold_left fst snd map length]. rewrite app_nil_r. repeat split; lia. }
  cbn [fold_left]. unfold EmailProcessor.batchStep at 2 4 6 8.
  cbn [fst snd] in Hconv, Hroute.
  destruct (processIncomingEmail_cases c w email fx Hconv Hroute)
    as (response & fx' & entry & H1 & H2 & H3 & _).
  rewrite H1. destruct (IH (EmailProcessor.mkBatch
                              (S (EmailProcessor.processed batch))
                              (EmailProcessor.batchFailed batch)
                              (EmailProcessor.responses batch ++ [response])%list) fx')
    as (I1 & I2 & I3 & I4).
  cbn [EmailProcessor.processed EmailProcessor.batchFailed EmailProcessor.responses]
    in I1, I2, I3.
  split; [rewrite I1; cbn [length]; lia|]. split; [exact I2|].
  split.
  - rewrite I3, map_app, <- app_assoc. cbn [map app snd]. rewrite H3. reflexivity.
  - rewrite I4, H2, length_app. cbn [length]. lia.
Qed.

(** X30.  With a database that accepts every insert, a batch answers every
    email: each is counted as processed and none as failed, whoever the
    sender is and whatever the triage does; the responses come in the order
    of the emails, each under the subject of its email; and each email
    leaves exactly one route. *)
Theorem batchProcessEmails_answers_all
        (requests : list (EmailProcessor.Collaborators * World *
                          EmailProcessor.IncomingEmail))
        (fx : EmailProcessor.Effects) :
  Forall (fun request =>
            EmailProcessor.conversationCreate (fst (fst request)) = Ok tt /\
            forall n, EmailProcessor.emailRouteCreate (fst (fst request)) n = Ok tt)
         requests ->
  EmailProcessor.processed (fst (EmailProcessor.batchProcessEmails requests fx))
    = length requests /\
  EmailProcessor.batchFailed (fst (EmailProcessor.batchProcessEmails requests fx)) = 0%nat /\
  map EmailProcessor.respSubject
      (EmailProcessor.responses (fst (EmailProcessor.batchProcessEmails requests fx)))
    = map (fun request => "Re: " +:+ EmailProcessor.subject (snd request)) requests /\
  length (EmailProcessor.routes (snd (EmailProcessor.batchProcessEmails requests fx)))
    = (length (EmailProcessor.routes fx) + length requests)%nat.
Proof.
  intros Hdb. unfold EmailProcessor.batchProcessEmails.
  destruct (batchStep_fold requests (EmailProcessor.mkBatch 0 0 []) fx Hdb)
    as (H1 & H2 & H3 & H4).
  repeat split; assumption.
Qed.

Lemma batchProcessEmails_answers_all_witness :
  EmailProcessor.processed
    (fst (EmailProcessor.batchProcessEmails
            [(EmailProcessor.mkCollaborators
                (fun _ => Ok (Some Sample.plainEmployee)) (fun s => s) (fun _ => "{}")
                (fun _ => Ok (Some "Ann will help you.")) (fun _ => Ok tt) (Ok tt)
                "trace_1" 40 (mkAiData "gpt-4o-mini" 12) 0,
              Sample.rosterDown,
              EmailProcessor.mkIncomingEmail "sam@acme.corp" "legal@acme.corp"
                                             "Sales contract" "Please review" None 0 None);
             (EmailProcessor.mkCollaborators
                (fun _ => Ok None) (fun s => s) (fun _ => "{}")
                (fun _ => Ok None) (fun _ => Ok tt) (Ok tt)
                "trace_2" 35 (mkAiData "gpt-4o-mini" 9) 0,
              Sample.emptyWorld,
              EmailProcessor.mkIncomingEmail "guest@example.org" "legal@acme.corp"
                                             "Question" "Hello" None 0 None)]
            (EmailProcessor.mkEffects [] 0 [] emptyStore)))
  = 2%nat.
Proof.
  apply (batchProcessEmails_answers_all
           [(EmailProcessor.mkCollaborators
               (fun _ => Ok (Some Sample.plainEmployee)) (fun s => s) (fun _ => "{}")
               (fun _ => Ok (Some "Ann will help you.")) (fun _ => Ok tt) (Ok tt)
               "trace_1" 40 (mkAiData "gpt-4o-mini" 12) 0,
             Sample.rosterDown,
             EmailProcessor.mkIncomingEmail "sam@acme.corp" "legal@acme.corp"
                                            "Sales contract" "Please review" None 0 None);
            (EmailProcessor.mkCollaborators
               (fun _ => Ok None) (fun s => s) (fun _ => "{}")
               (fun _ => Ok None) (fun _ => Ok tt) (Ok tt)
               "trace_2" 35 (mkAiData "gpt-4o-mini" 9) 0,
             Sample.emptyWorld,
             EmailProcessor.mkIncomingEmail "guest@example.org" "legal@acme.corp"
                                            "Question" "Hello" None 0 None)]
           (EmailProcessor.mkEffects [] 0 [] emptyStore)).
  repeat constructor.
Defined.
